(** * RosaServer script API: a shallow embedding of api.cpp

    The host game server owns fixed arrays of records; api.cpp exposes them
    to Lua as raw pointers into those arrays, keeps per-slot Lua data tables
    beside them, wraps the host's create and delete functions, runs the
    ResetGame trampoline and moves HTTP requests between two queues.

    Part I embeds the data model and the functions, Part II sets up sample
    data and the vocabulary of the statements, Part III proves them. *)

From Stdlib Require Import ZArith Lia Bool String Ascii Sorted.
From stdpp Require Import base list strings gmap.

Local Open Scope Z_scope.
Set Warnings "-register-all".

(* ================================================================== *)
(** * Part I: the program *)
(* ================================================================== *)

(** ** Machine integers

    Pointers are [uintptr_t] values on a 64-bit host, indices are [int] or
    [unsigned int]. All are carried as [Z] with the wrap-around written
    out. *)

Definition to_uintptr (z : Z) : Z := z mod 2 ^ 64.
Definition to_uint32 (z : Z) : Z := z mod 2 ^ 32.
Definition to_int (z : Z) : Z := (z + 2 ^ 31) mod 2 ^ 32 - 2 ^ 31.

Definition nullptr : Z := 0.

(** [static constexpr const char* errorOutOfRange] (ERR_OUT_OF_RANGE in the
    older revision). *)
Definition errorOutOfRange : string := "Index out of range".

(** What a call into the API can do besides returning: raise
    [std::invalid_argument], or touch memory outside a host array, which
    C++ leaves undefined. *)
Inductive outcome (A : Type) : Type :=
| Ret (a : A)
| Throw (what : string)
| Undefined.
Arguments Ret {A} a.
Arguments Throw {A} what.
Arguments Undefined {A}.

(** ** The host's arrays *)

Inductive Category : Type :=
| CAccount | CPlayer | CHuman | CItemType | CItem | CVehicle
| CRigidBody | CBond | CStreet | CStreetIntersection.

(** Where the host keeps each array. None of this is fixed by api.cpp:
    [base c] is the address of [Engine::accounts], [Engine::players], ...,
    [elemSize c] is [sizeof] of the record, and [capacity c] is the extent
    of the array: [maxNumberOfAccounts], [maxNumberOfPlayers],
    [maxNumberOfHumans], [maxNumberOfItemTypes], [maxNumberOfItems],
    [maxNumberOfVehicles], [maxNumberOfRigidBodies], [maxNumberOfBonds],
    and for streets and intersections the size the host allocated. *)
Record Layout : Type := {
  base : Category -> Z;
  elemSize : Category -> Z;
  capacity : Category -> Z
}.

(** [&Engine::xs[i]]: pointer arithmetic on a 64-bit address. *)
Definition elem_addr (L : Layout) (c : Category) (i : Z) : Z :=
  to_uintptr (base L c + i * elemSize L c).

(** [((uintptr_t)this - (uintptr_t)Engine::xs) / sizeof( *this )], returned
    as [int]. The ten [getIndex] methods differ only in the array named. *)
Definition index_of (L : Layout) (c : Category) (this : Z) : Z :=
  to_int (to_uintptr (this - base L c) / elemSize L c).

(** ** Records

    Only the fields api.cpp reads or writes in the functions embedded
    below. Integer fields are [int]; flags are tested against zero as the
    source does. *)

Record Account : Type := {
  Account_subRosaID : Z;
  Account_phoneNumber : Z
}.

Record Player : Type := {
  Player_active : Z;
  Player_name : string;
  Player_subRosaID : Z;
  Player_phoneNumber : Z;
  Player_isBot : Z;
  Player_team : Z;
  Player_humanID : Z;
  Player_accountID : Z
}.

Record Human : Type := {
  Human_active : Z;
  Human_playerID : Z;
  Human_vehicleID : Z;
  Human_rightHandOccupied : Z;
  Human_rightHandItemID : Z;
  Human_leftHandOccupied : Z;
  Human_leftHandItemID : Z;
  Human_isGrabbingRight : Z;
  Human_grabbingRightHumanID : Z;
  Human_isGrabbingLeft : Z;
  Human_grabbingLeftHumanID : Z
}.

Record Item : Type := {
  Item_active : Z;
  Item_grenadePrimerID : Z;
  Item_parentHumanID : Z;
  Item_parentItemID : Z;
  Item_bodyID : Z
}.

Record Vehicle : Type := {
  Vehicle_active : Z;
  Vehicle_lastDriverPlayerID : Z;
  Vehicle_bodyID : Z
}.

Record Bullet : Type := { Bullet_playerID : Z }.

Record RigidBody : Type := { RigidBody_active : Z }.

Record Bond : Type := {
  Bond_active : Z;
  Bond_bodyID : Z;
  Bond_otherBodyID : Z
}.

Record Street : Type := {
  Street_intersectionA : Z;
  Street_intersectionB : Z
}.

Record StreetIntersection : Type := {
  StreetIntersection_streetEast : Z;
  StreetIntersection_streetSouth : Z;
  StreetIntersection_streetWest : Z;
  StreetIntersection_streetNorth : Z
}.

(** The host's memory as api.cpp sees it through [Engine::]. *)
Record Engine : Type := {
  accounts : list Account;
  players : list Player;
  humans : list Human;
  items : list Item;
  vehicles : list Vehicle;
  bodies : list RigidBody;
  bonds : list Bond;
  streets : list Street;
  streetIntersections : list StreetIntersection;
  numStreets : Z;
  numStreetIntersections : Z
}.

(** ** Lua values and the per-slot data tables *)

Inductive LuaValue : Type :=
| LNil
| LBoolean (b : bool)
| LInteger (z : Z)
| LString (s : string)
| LTable (fields : list (string * LuaValue)).

Definition LuaTable : Type := list (string * LuaValue).

(** [t[k] = v] on a table held as an association list. *)
Fixpoint table_set (k : string) (v : LuaValue) (t : LuaTable) : LuaTable :=
  match t with
  | [] => [(k, v)]
  | (k', v') :: t' =>
      if String.eqb k k' then (k, v) :: t' else (k', v') :: table_set k v t'
  end.

Fixpoint table_get (k : string) (t : LuaTable) : LuaValue :=
  match t with
  | [] => LNil
  | (k', v') :: t' => if String.eqb k k' then v' else table_get k t'
  end.

(** Lua's truth: everything but [nil] and [false]. *)
Definition truthy (v : LuaValue) : bool :=
  match v with
  | LNil | LBoolean false => false
  | _ => true
  end.

(** ** Hooks, events and the state api.cpp works on *)

(** The [subhook::Hook] objects api.cpp names. *)
Inductive Hook : Type :=
| resetGameHook | createItemHook | createVehicleHook | createPlayerHook
| createHumanHook | deleteHumanHook | deletePlayerHook | deleteItemHook.

Definition Hook_eqb (a b : Hook) : bool :=
  match a, b with
  | resetGameHook, resetGameHook | createItemHook, createItemHook
  | createVehicleHook, createVehicleHook | createPlayerHook, createPlayerHook
  | createHumanHook, createHumanHook | deleteHumanHook, deleteHumanHook
  | deletePlayerHook, deletePlayerHook | deleteItemHook, deleteItemHook => true
  | _, _ => false
  end.

(** Calls into the host's own code, with the integer arguments api.cpp
    passes (positions and rotations are handed through untouched and are
    left out). *)
Inductive EngineCall : Type :=
| CallResetGame
| CallCreateItem (type : Z)
| CallCreateRope
| CallCreateVehicle (type color : Z)
| CallCreatePlayer
| CallCreateHuman (playerID : Z)
| CallDeleteItem (id : Z)
| CallDeleteVehicle (id : Z)
| CallDeletePlayer (id : Z)
| CallDeleteHuman (id : Z).

(** What an observer of the process sees api.cpp do, in order. *)
Inductive Event : Type :=
| EvHookRun (name : string) (reason : Z)
| EvConsoleLog (text : string)
| EvHookRemove (h : Hook)
| EvHookInstall (h : Hook)
| EvEngine (c : EngineCall).

Record World : Type := {
  engine : Engine;
  installed : Hook -> bool;
  enabledKeys_ResetGame : bool;
  playerDataTables : list (option LuaTable);
  humanDataTables : list (option LuaTable);
  itemDataTables : list (option LuaTable);
  vehicleDataTables : list (option LuaTable);
  bodyDataTables : list (option LuaTable)
}.

Definition set_engine (e : Engine) (w : World) : World :=
  {| engine := e; installed := installed w;
     enabledKeys_ResetGame := enabledKeys_ResetGame w;
     playerDataTables := playerDataTables w;
     humanDataTables := humanDataTables w;
     itemDataTables := itemDataTables w;
     vehicleDataTables := vehicleDataTables w;
     bodyDataTables := bodyDataTables w |}.

Definition set_installed (h : Hook) (b : bool) (w : World) : World :=
  {| engine := engine w;
     installed := fun h' => if Hook_eqb h h' then b else installed w h';
     enabledKeys_ResetGame := enabledKeys_ResetGame w;
     playerDataTables := playerDataTables w;
     humanDataTables := humanDataTables w;
     itemDataTables := itemDataTables w;
     vehicleDataTables := vehicleDataTables w;
     bodyDataTables := bodyDataTables w |}.

(** The table array that belongs to a category; the other categories have
    none. *)
Definition dataTables (c : Category) (w : World) : list (option LuaTable) :=
  match c with
  | CPlayer => playerDataTables w
  | CHuman => humanDataTables w
  | CItem => itemDataTables w
  | CVehicle => vehicleDataTables w
  | CRigidBody => bodyDataTables w
  | _ => []
  end.

Definition set_dataTables (c : Category) (ts : list (option LuaTable))
    (w : World) : World :=
  {| engine := engine w; installed := installed w;
     enabledKeys_ResetGame := enabledKeys_ResetGame w;
     playerDataTables := match c with CPlayer => ts | _ => playerDataTables w end;
     humanDataTables := match c with CHuman => ts | _ => humanDataTables w end;
     itemDataTables := match c with CItem => ts | _ => itemDataTables w end;
     vehicleDataTables := match c with CVehicle => ts | _ => vehicleDataTables w end;
     bodyDataTables := match c with CRigidBody => ts | _ => bodyDataTables w end |}.

(** Indexing a C array with an [int]: outside the array there is nothing
    to read or write. *)
Definition zlookup {A : Type} (l : list A) (i : Z) : option A :=
  if i <? 0 then None else l !! Z.to_nat i.

Definition zupdate {A : Type} (l : list A) (i : Z) (x : A) : option (list A) :=
  if (0 <=? i) && (i <? Z.of_nat (length l)) then Some (<[Z.to_nat i := x]> l)
  else None.

(** ** The monad of API calls: state, the events emitted, exceptions and
    undefined behaviour *)

Inductive result (A : Type) : Type :=
| Done (a : A) (w : World) (tr : list Event)
| Raised (what : string) (w : World) (tr : list Event)
| Crashed.
Arguments Done {A} a w tr.
Arguments Raised {A} what w tr.
Arguments Crashed {A}.

Definition M (A : Type) : Type := World -> result A.

Definition ret {A : Type} (a : A) : M A := fun w => Done a w [].

Definition bind {A B : Type} (m : M A) (k : A -> M B) : M B :=
  fun w =>
    match m w with
    | Done a w1 tr1 =>
        match k a w1 with
        | Done b w2 tr2 => Done b w2 (tr1 ++ tr2)
        | Raised what w2 tr2 => Raised what w2 (tr1 ++ tr2)
        | Crashed => Crashed
        end
    | Raised what w1 tr1 => Raised what w1 tr1
    | Crashed => Crashed
    end.

Notation "x <- m ;; k" := (bind m (fun x => k))
  (at level 100, m at next level, right associativity).
Notation "m ;;; k" := (bind m (fun _ => k))
  (at level 100, right associativity).

Definition throw {A : Type} (what : string) : M A := fun w => Raised what w [].
Definition crash {A : Type} : M A := fun _ => Crashed.
Definition emit (ev : Event) : M unit := fun w => Done tt w [ev].
Definition get_world : M World := fun w => Done w w [].
Definition put_world (w : World) : M unit := fun _ => Done tt w [].

Definition lift_option {A : Type} (o : option A) : M A :=
  match o with Some a => ret a | None => crash end.

(** Modelled from the spec: [subhook::ScopedHookRemove], a class of the
    subhook library, is not in api.cpp. Section 4.1 asks for a temporary,
    scoped removal of one installed redirect, reinstated on scope exit
    however the scope is left; a redirect that was not installed is left
    alone. *)
Definition ScopedHookRemove {A : Type} (h : Hook) (body : M A) : M A :=
  fun w =>
    let removed := installed w h in
    let enter := if removed then [EvHookRemove h] else [] in
    let leave := if removed then [EvHookInstall h] else [] in
    let restore w' := if removed then set_installed h true w' else w' in
    match body (if removed then set_installed h false w else w) with
    | Done a w' tr => Done a (restore w') (enter ++ tr ++ leave)
    | Raised what w' tr => Raised what (restore w') (enter ++ tr ++ leave)
    | Crashed => Crashed
    end.

(** ** The host's functions

    [Engine::createItem] and the like are compiled into the game server;
    api.cpp only calls them. [-1] from a create function means no slot was
    free. *)
Class Host : Type := {
  Vector : Type;
  RotMatrix : Type;
  Engine_resetGame : Engine -> Engine;
  Engine_createItem : Z -> Vector -> option Vector -> RotMatrix -> Engine -> Z * Engine;
  Engine_createRope : Vector -> RotMatrix -> Engine -> Z * Engine;
  Engine_createVehicle : Z -> Vector -> option Vector -> RotMatrix -> Z -> Engine -> Z * Engine;
  Engine_createPlayer : Engine -> Z * Engine;
  Engine_createHuman : Vector -> RotMatrix -> Z -> Engine -> Z * Engine;
  Engine_deleteItem : Z -> Engine -> Engine;
  Engine_deleteVehicle : Z -> Engine -> Engine;
  Engine_deletePlayer : Z -> Engine -> Engine;
  Engine_deleteHuman : Z -> Engine -> Engine
}.

(** A host call that returns a value, and one that returns nothing. *)
Definition call_engine {A : Type} (c : EngineCall) (f : Engine -> A * Engine) : M A :=
  fun w => let '(a, e) := f (engine w) in Done a (set_engine e w) [EvEngine c].

Definition run_engine (c : EngineCall) (f : Engine -> Engine) : M unit :=
  fun w => Done tt (set_engine (f (engine w)) w) [EvEngine c].

(** [if (tables[id]) { delete tables[id]; tables[id] = nullptr; }] *)
Definition clearDataTable (c : Category) (id : Z) : M unit :=
  w <- get_world ;;
  match zlookup (dataTables c w) id with
  | None => crash
  | Some None => ret tt
  | Some (Some _) =>
      ts <- lift_option (zupdate (dataTables c w) id None) ;;
      put_world (set_dataTables c ts w)
  end.

(** [getDataTable] of the proxy classes that have one:
    [if (!tables[index]) tables[index] = new sol::table(...);
     return *tables[index];] *)
Definition getDataTable (c : Category) (index : Z) : M LuaTable :=
  w <- get_world ;;
  match zlookup (dataTables c w) index with
  | None => crash
  | Some (Some t) => ret t
  | Some None =>
      ts <- lift_option (zupdate (dataTables c w) index (Some [])) ;;
      put_world (set_dataTables c ts w) ;;;
      ret []
  end.

(** ** Writing fields of host records *)

Definition set_Player_humanID (v : Z) (p : Player) : Player :=
  {| Player_active := Player_active p; Player_name := Player_name p;
     Player_subRosaID := Player_subRosaID p;
     Player_phoneNumber := Player_phoneNumber p;
     Player_isBot := Player_isBot p; Player_team := Player_team p;
     Player_humanID := v; Player_accountID := Player_accountID p |}.

(** The four writes of [players::createBot]:
    [subRosaID = 0; isBot = 1; team = 6; setName("Bot")]. *)
Definition make_bot (p : Player) : Player :=
  {| Player_active := Player_active p; Player_name := "Bot";
     Player_subRosaID := 0;
     Player_phoneNumber := Player_phoneNumber p;
     Player_isBot := 1; Player_team := 6;
     Player_humanID := Player_humanID p;
     Player_accountID := Player_accountID p |}.

Definition set_Human_playerID (v : Z) (h : Human) : Human :=
  {| Human_active := Human_active h; Human_playerID := v;
     Human_vehicleID := Human_vehicleID h;
     Human_rightHandOccupied := Human_rightHandOccupied h;
     Human_rightHandItemID := Human_rightHandItemID h;
     Human_leftHandOccupied := Human_leftHandOccupied h;
     Human_leftHandItemID := Human_leftHandItemID h;
     Human_isGrabbingRight := Human_isGrabbingRight h;
     Human_grabbingRightHumanID := Human_grabbingRightHumanID h;
     Human_isGrabbingLeft := Human_isGrabbingLeft h;
     Human_grabbingLeftHumanID := Human_grabbingLeftHumanID h |}.

Definition set_players (ps : list Player) (e : Engine) : Engine :=
  {| accounts := accounts e; players := ps; humans := humans e;
     items := items e; vehicles := vehicles e; bodies := bodies e;
     bonds := bonds e; streets := streets e;
     streetIntersections := streetIntersections e;
     numStreets := numStreets e;
     numStreetIntersections := numStreetIntersections e |}.

Definition set_humans (hs : list Human) (e : Engine) : Engine :=
  {| accounts := accounts e; players := players e; humans := hs;
     items := items e; vehicles := vehicles e; bodies := bodies e;
     bonds := bonds e; streets := streets e;
     streetIntersections := streetIntersections e;
     numStreets := numStreets e;
     numStreetIntersections := numStreetIntersections e |}.

(** A [Player*] or [Human*] handed in by Lua is the address of a slot of
    the host array; reading or writing through anything else is
    undefined. *)
Definition slot_of (L : Layout) (c : Category) (p : Z) : M Z :=
  let i := index_of L c p in
  if elem_addr L c i =? p then ret i else crash.

Definition read_player (L : Layout) (ply : Z) : M Player :=
  i <- slot_of L CPlayer ply ;;
  w <- get_world ;;
  lift_option (zlookup (players (engine w)) i).

Definition write_player_at (i : Z) (f : Player -> Player) : M unit :=
  w <- get_world ;;
  p <- lift_option (zlookup (players (engine w)) i) ;;
  ps <- lift_option (zupdate (players (engine w)) i (f p)) ;;
  put_world (set_engine (set_players ps (engine w)) w).

Definition write_player (L : Layout) (ply : Z) (f : Player -> Player) : M unit :=
  i <- slot_of L CPlayer ply ;;
  write_player_at i f.

Definition write_human_at (i : Z) (f : Human -> Human) : M unit :=
  w <- get_world ;;
  h <- lift_option (zlookup (humans (engine w)) i) ;;
  hs <- lift_option (zupdate (humans (engine w)) i (f h)) ;;
  put_world (set_engine (set_humans hs (engine w)) w).

(** ** Proxy classes *)

Module Account.
Definition getIndex (L : Layout) (this : Z) : Z := index_of L CAccount this.
End Account.

Module Player.
Definition getIndex (L : Layout) (this : Z) : Z := index_of L CPlayer this.

Definition getHuman (L : Layout) (self : Player) : Z :=
  if Player_humanID self =? -1 then nullptr
  else elem_addr L CHuman (Player_humanID self).

Definition getAccount (L : Layout) (self : Player) : Z :=
  elem_addr L CAccount (Player_accountID self).

Definition getDataTable (L : Layout) (this : Z) : M LuaTable :=
  getDataTable CPlayer (getIndex L this).

Definition remove `{Host} (L : Layout) (this : Z) : M unit :=
  let index := getIndex L this in
  ScopedHookRemove deletePlayerHook
    (run_engine (CallDeletePlayer index) (Engine_deletePlayer index) ;;;
     clearDataTable CPlayer index).
End Player.

Module Human.
Definition getIndex (L : Layout) (this : Z) : Z := index_of L CHuman this.

Definition getPlayer (L : Layout) (self : Human) : Z :=
  if Human_playerID self =? -1 then nullptr
  else elem_addr L CPlayer (Human_playerID self).

Definition getDataTable (L : Layout) (this : Z) : M LuaTable :=
  getDataTable CHuman (getIndex L this).

Definition remove `{Host} (L : Layout) (this : Z) : M unit :=
  let index := getIndex L this in
  ScopedHookRemove deleteHumanHook
    (run_engine (CallDeleteHuman index) (Engine_deleteHuman index) ;;;
     clearDataTable CHuman index).

Definition getVehicle (L : Layout) (self : Human) : Z :=
  if Human_vehicleID self =? -1 then nullptr
  else elem_addr L CVehicle (Human_vehicleID self).

Definition getRightHandItem (L : Layout) (self : Human) : Z :=
  if Human_rightHandOccupied self =? 0 then nullptr
  else elem_addr L CItem (Human_rightHandItemID self).

Definition getLeftHandItem (L : Layout) (self : Human) : Z :=
  if Human_leftHandOccupied self =? 0 then nullptr
  else elem_addr L CItem (Human_leftHandItemID self).

Definition getRightHandGrab (L : Layout) (self : Human) : Z :=
  if Human_isGrabbingRight self =? 0 then nullptr
  else elem_addr L CHuman (Human_grabbingRightHumanID self).

Definition getLeftHandGrab (L : Layout) (self : Human) : Z :=
  if Human_isGrabbingLeft self =? 0 then nullptr
  else elem_addr L CHuman (Human_grabbingLeftHumanID self).
End Human.

Module ItemType.
Definition getIndex (L : Layout) (this : Z) : Z := index_of L CItemType this.
End ItemType.

Module Item.
Definition getIndex (L : Layout) (this : Z) : Z := index_of L CItem this.

Definition getDataTable (L : Layout) (this : Z) : M LuaTable :=
  getDataTable CItem (getIndex L this).

Definition remove `{Host} (L : Layout) (this : Z) : M unit :=
  let index := getIndex L this in
  ScopedHookRemove deleteItemHook
    (run_engine (CallDeleteItem index) (Engine_deleteItem index) ;;;
     clearDataTable CItem index).

Definition getGrenadePrimer (L : Layout) (self : Item) : Z :=
  if Item_grenadePrimerID self =? -1 then nullptr
  else elem_addr L CPlayer (Item_grenadePrimerID self).

Definition getParentHuman (L : Layout) (self : Item) : Z :=
  if Item_parentHumanID self =? -1 then nullptr
  else elem_addr L CHuman (Item_parentHumanID self).

Definition getParentItem (L : Layout) (self : Item) : Z :=
  if Item_parentItemID self =? -1 then nullptr
  else elem_addr L CItem (Item_parentItemID self).

Definition getRigidBody (L : Layout) (self : Item) : Z :=
  elem_addr L CRigidBody (Item_bodyID self).
End Item.

Module Vehicle.
Definition getIndex (L : Layout) (this : Z) : Z := index_of L CVehicle this.

Definition getDataTable (L : Layout) (this : Z) : M LuaTable :=
  getDataTable CVehicle (getIndex L this).

Definition remove `{Host} (L : Layout) (this : Z) : M unit :=
  let index := getIndex L this in
  run_engine (CallDeleteVehicle index) (Engine_deleteVehicle index) ;;;
  clearDataTable CVehicle index.

Definition getLastDriver (L : Layout) (self : Vehicle) : Z :=
  if Vehicle_lastDriverPlayerID self =? -1 then nullptr
  else elem_addr L CPlayer (Vehicle_lastDriverPlayerID self).

Definition getRigidBody (L : Layout) (self : Vehicle) : Z :=
  elem_addr L CRigidBody (Vehicle_bodyID self).
End Vehicle.

Module Bullet.
Definition getPlayer (L : Layout) (self : Bullet) : Z :=
  if Bullet_playerID self =? -1 then nullptr
  else elem_addr L CPlayer (Bullet_playerID self).
End Bullet.

Module RigidBody.
Definition getIndex (L : Layout) (this : Z) : Z := index_of L CRigidBody this.

Definition getDataTable (L : Layout) (this : Z) : M LuaTable :=
  getDataTable CRigidBody (getIndex L this).
End RigidBody.

Module Bond.
Definition getIndex (L : Layout) (this : Z) : Z := index_of L CBond this.

Definition getBody (L : Layout) (self : Bond) : Z :=
  elem_addr L CRigidBody (Bond_bodyID self).

Definition getOtherBody (L : Layout) (self : Bond) : Z :=
  elem_addr L CRigidBody (Bond_otherBodyID self).
End Bond.

Module Street.
Definition getIndex (L : Layout) (this : Z) : Z := index_of L CStreet this.

Definition getIntersectionA (L : Layout) (self : Street) : Z :=
  elem_addr L CStreetIntersection (Street_intersectionA self).

Definition getIntersectionB (L : Layout) (self : Street) : Z :=
  elem_addr L CStreetIntersection (Street_intersectionB self).
End Street.

Module StreetIntersection.
Definition getIndex (L : Layout) (this : Z) : Z :=
  index_of L CStreetIntersection this.

Definition getStreetEast (L : Layout) (self : StreetIntersection) : Z :=
  if StreetIntersection_streetEast self =? -1 then nullptr
  else elem_addr L CStreet (StreetIntersection_streetEast self).

Definition getStreetSouth (L : Layout) (self : StreetIntersection) : Z :=
  if StreetIntersection_streetSouth self =? -1 then nullptr
  else elem_addr L CStreet (StreetIntersection_streetSouth self).

Definition getStreetWest (L : Layout) (self : StreetIntersection) : Z :=
  if StreetIntersection_streetWest self =? -1 then nullptr
  else elem_addr L CStreet (StreetIntersection_streetWest self).

Definition getStreetNorth (L : Layout) (self : StreetIntersection) : Z :=
  if StreetIntersection_streetNorth self =? -1 then nullptr
  else elem_addr L CStreet (StreetIntersection_streetNorth self).
End StreetIntersection.

(** [getIndex] of the proxy class of a category. *)
Definition getIndex (L : Layout) (c : Category) : Z -> Z :=
  match c with
  | CAccount => Account.getIndex L
  | CPlayer => Player.getIndex L
  | CHuman => Human.getIndex L
  | CItemType => ItemType.getIndex L
  | CItem => Item.getIndex L
  | CVehicle => Vehicle.getIndex L
  | CRigidBody => RigidBody.getIndex L
  | CBond => Bond.getIndex L
  | CStreet => Street.getIndex L
  | CStreetIntersection => StreetIntersection.getIndex L
  end.

(** ** [getByIndex]

    [idx] is an [unsigned int]. The bound it is compared with is an [int]
    (a [maxNumberOf...] constant, or the host's live counter read through
    [*Engine::numStreets]), which the comparison converts to unsigned. *)

Definition slot_or_throw (L : Layout) (c : Category) (bound idx : Z) : outcome Z :=
  if to_uint32 bound <=? idx then Throw errorOutOfRange
  else Ret (elem_addr L c idx).

Module itemTypes.
Definition getByIndex (L : Layout) (idx : Z) : outcome Z :=
  slot_or_throw L CItemType (capacity L CItemType) idx.
End itemTypes.

Module items.
Definition getByIndex (L : Layout) (idx : Z) : outcome Z :=
  slot_or_throw L CItem (capacity L CItem) idx.

Definition createVel `{Host} (L : Layout) (type : Z) (pos : Vector)
    (vel : option Vector) (rot : RotMatrix) : M Z :=
  ScopedHookRemove createItemHook
    (if type =? nullptr then throw "Cannot create item with nil type"
     else
       id <- call_engine (CallCreateItem (ItemType.getIndex L type))
               (Engine_createItem (ItemType.getIndex L type) pos vel rot) ;;
       (if id =? -1 then ret tt else clearDataTable CItem id) ;;;
       ret (if id =? -1 then nullptr else elem_addr L CItem id)).

Definition create `{Host} (L : Layout) (type : Z) (pos : Vector)
    (rot : RotMatrix) : M Z :=
  createVel L type pos None rot.

Definition createRope `{Host} (L : Layout) (pos : Vector) (rot : RotMatrix) : M Z :=
  id <- call_engine CallCreateRope (Engine_createRope pos rot) ;;
  ret (if id =? -1 then nullptr else elem_addr L CItem id).
End items.

Module vehicles.
Definition getByIndex (L : Layout) (idx : Z) : outcome Z :=
  slot_or_throw L CVehicle (capacity L CVehicle) idx.

Definition createVel `{Host} (L : Layout) (type : Z) (pos : Vector)
    (vel : option Vector) (rot : RotMatrix) (color : Z) : M Z :=
  ScopedHookRemove createVehicleHook
    (id <- call_engine (CallCreateVehicle type color)
             (Engine_createVehicle type pos vel rot color) ;;
     (if id =? -1 then ret tt else clearDataTable CVehicle id) ;;;
     ret (if id =? -1 then nullptr else elem_addr L CVehicle id)).

Definition create `{Host} (L : Layout) (type : Z) (pos : Vector)
    (rot : RotMatrix) (color : Z) : M Z :=
  ScopedHookRemove createVehicleHook
    (id <- call_engine (CallCreateVehicle type color)
             (Engine_createVehicle type pos None rot color) ;;
     (if id =? -1 then ret tt else clearDataTable CVehicle id) ;;;
     ret (if id =? -1 then nullptr else elem_addr L CVehicle id)).
End vehicles.

Module accounts.
(** The three scans read [Engine::accounts[0]], [[1]], ... with no upper
    bound; [rest] is the array from the slot about to be read on, and
    reading past its end is undefined. *)
Fixpoint getCount_loop (rest : list Account) (count : Z) : outcome Z :=
  match rest with
  | [] => Undefined
  | acc :: rest' =>
      if Account_subRosaID acc =? 0 then Ret count
      else getCount_loop rest' (count + 1)
  end.

Definition getCount (e : Engine) : outcome Z :=
  getCount_loop (accounts e) 0.

Fixpoint getAll_loop (L : Layout) (rest : list Account) (i : Z)
    : outcome (list Z) :=
  match rest with
  | [] => Undefined
  | acc :: rest' =>
      if Account_subRosaID acc =? 0 then Ret []
      else
        match getAll_loop L rest' (i + 1) with
        | Ret arr => Ret (elem_addr L CAccount i :: arr)
        | Throw what => Throw what
        | Undefined => Undefined
        end
  end.

Definition getAll (L : Layout) (e : Engine) : outcome (list Z) :=
  getAll_loop L (accounts e) 0.

Fixpoint getByPhone_loop (L : Layout) (phone : Z) (rest : list Account)
    (i : Z) : outcome Z :=
  match rest with
  | [] => Undefined
  | acc :: rest' =>
      if Account_subRosaID acc =? 0 then Ret nullptr
      else if Account_phoneNumber acc =? phone then Ret (elem_addr L CAccount i)
      else getByPhone_loop L phone rest' (i + 1)
  end.

Definition getByPhone (L : Layout) (e : Engine) (phone : Z) : outcome Z :=
  getByPhone_loop L phone (accounts e) 0.

Definition getByIndex (L : Layout) (idx : Z) : outcome Z :=
  slot_or_throw L CAccount (capacity L CAccount) idx.
End accounts.

Module players.
Definition getByIndex (L : Layout) (idx : Z) : outcome Z :=
  slot_or_throw L CPlayer (capacity L CPlayer) idx.

Definition createBot `{Host} (L : Layout) : M Z :=
  ScopedHookRemove createPlayerHook
    (playerID <- call_engine CallCreatePlayer Engine_createPlayer ;;
     if playerID =? -1 then ret nullptr
     else
       clearDataTable CPlayer playerID ;;;
       write_player_at playerID make_bot ;;;
       ret (elem_addr L CPlayer playerID)).
End players.

Module humans.
Definition getByIndex (L : Layout) (idx : Z) : outcome Z :=
  slot_or_throw L CHuman (capacity L CHuman) idx.

Definition create `{Host} (L : Layout) (pos : Vector) (rot : RotMatrix)
    (ply : Z) : M Z :=
  let playerID := Player.getIndex L ply in
  p <- read_player L ply ;;
  (if Player_humanID p =? -1 then ret tt
   else
     ScopedHookRemove deleteHumanHook
       (run_engine (CallDeleteHuman (Player_humanID p))
          (Engine_deleteHuman (Player_humanID p)))) ;;;
  humanID <- ScopedHookRemove createHumanHook
               (call_engine (CallCreateHuman playerID)
                  (Engine_createHuman pos rot playerID)) ;;
  if humanID =? -1 then ret nullptr
  else
    clearDataTable CHuman humanID ;;;
    write_human_at humanID (set_Human_playerID playerID) ;;;
    write_player L ply (set_Player_humanID humanID) ;;;
    ret (elem_addr L CHuman humanID).
End humans.

Module rigidBodies.
Definition getByIndex (L : Layout) (idx : Z) : outcome Z :=
  slot_or_throw L CRigidBody (capacity L CRigidBody) idx.
End rigidBodies.

Module bonds.
Definition getByIndex (L : Layout) (idx : Z) : outcome Z :=
  slot_or_throw L CBond (capacity L CBond) idx.
End bonds.

Module streets.
Definition getCount (e : Engine) : Z := numStreets e.

Definition getByIndex (L : Layout) (e : Engine) (idx : Z) : outcome Z :=
  slot_or_throw L CStreet (numStreets e) idx.
End streets.

Module intersections.
Definition getCount (e : Engine) : Z := numStreetIntersections e.

Definition getByIndex (L : Layout) (e : Engine) (idx : Z) : outcome Z :=
  slot_or_throw L CStreetIntersection (numStreetIntersections e) idx.
End intersections.

(** [getByIndex] of the namespace of a category. *)
Definition getByIndex (L : Layout) (e : Engine) (c : Category) (idx : Z)
    : outcome Z :=
  match c with
  | CAccount => accounts.getByIndex L idx
  | CPlayer => players.getByIndex L idx
  | CHuman => humans.getByIndex L idx
  | CItemType => itemTypes.getByIndex L idx
  | CItem => items.getByIndex L idx
  | CVehicle => vehicles.getByIndex L idx
  | CRigidBody => rigidBodies.getByIndex L idx
  | CBond => bonds.getByIndex L idx
  | CStreet => streets.getByIndex L e idx
  | CStreetIntersection => intersections.getByIndex L e idx
  end.

(** ** Calling into Lua *)

(** A [sol::protected_function_result]: the call either failed, or
    returned; [v] is the first value returned ([nil] when there is
    none). *)
Inductive protected_function_result : Type :=
| call_valid (v : LuaValue)
| call_error (what : string).

Definition valid (res : protected_function_result) : bool :=
  match res with call_valid _ => true | call_error _ => false end.

(** [(bool)res] *)
Definition as_bool (res : protected_function_result) : bool :=
  match res with call_valid v => truthy v | call_error _ => false end.

(** The Lua state as hookAndReset uses it: [( *lua )["hook"]["run"]], which
    is [nil] or a function. Running it may change anything the script can
    reach; it emits no event of its own. *)
Record LuaState : Type := {
  hook_run : option (string -> Z -> World -> protected_function_result * World)
}.

Definition call_hook_run
    (f : string -> Z -> World -> protected_function_result * World)
    (name : string) (reason : Z) : M protected_function_result :=
  fun w => let '(res, w') := f name reason w in Done res w' [EvHookRun name reason].

Definition ESC : string := String (ascii_of_nat 27) EmptyString.
Definition NL : string := String (ascii_of_nat 10) EmptyString.

(** The text [printLuaError] hands to [Console::log]. *)
Definition lua_error_text (what : string) : string :=
  (ESC ++ "[41;1m Lua error " ++ ESC ++ "[0m" ++ NL ++ ESC ++ "[31m"
   ++ what ++ ESC ++ "[0m" ++ NL)%string.

Definition printLuaError (what : string) : M unit :=
  emit (EvConsoleLog (lua_error_text what)).

Definition noLuaCallError (res : protected_function_result) : M bool :=
  match res with
  | call_valid _ => ret true
  | call_error what => printLuaError what ;;; ret false
  end.

(** ** The ResetGame trampoline *)

Section Trampoline.
Context `{Host} (lua : LuaState).

(** Lines 1719-1741, the current revision. *)
Definition hookAndReset (reason : Z) : M unit :=
  w <- get_world ;;
  if enabledKeys_ResetGame w then
    let func := hook_run lua in
    noParent <-
      match func with
      | Some f =>
          res <- call_hook_run f "ResetGame" reason ;;
          ok <- noLuaCallError res ;;
          ret (if ok then as_bool res else false)
      | None => ret false
      end ;;
    if negb noParent then
      ScopedHookRemove resetGameHook
        (run_engine CallResetGame Engine_resetGame) ;;;
      match func with
      | Some f =>
          res <- call_hook_run f "PostResetGame" reason ;;
          _ <- noLuaCallError res ;;
          ret tt
      | None => ret tt
      end
    else ret tt
  else
    ScopedHookRemove resetGameHook
      (run_engine CallResetGame Engine_resetGame).

(** Lines 35-57, the older revision: no enable flag is consulted. *)
Definition hookAndReset_old (reason : Z) : M unit :=
  let func := hook_run lua in
  noParent <-
    match func with
    | Some f =>
        res <- call_hook_run f "ResetGame" reason ;;
        ok <- noLuaCallError res ;;
        ret (if ok then as_bool res else false)
    | None => ret false
    end ;;
  if negb noParent then
    ScopedHookRemove resetGameHook
      (run_engine CallResetGame Engine_resetGame) ;;;
    match func with
    | Some f =>
        res <- call_hook_run f "PostResetGame" reason ;;
        _ <- noLuaCallError res ;;
        ret tt
    | None => ret tt
    end
  else ret tt.
End Trampoline.

(** ** HTTP *)

(** [httplib::Response], and [httplib::Result], which is empty when the
    exchange did not complete. *)
Record Response : Type := {
  status : Z;
  body : string;
  headers : list (string * string)
}.

Definition Result : Type := option Response.

(** [httplib::Client]: the two calls api.cpp makes, as the network
    answers them. *)
Class Network : Type := {
  Client_Get : string -> string -> list (string * string) -> Result;
  Client_Post :
    string -> string -> list (string * string) -> string -> string -> Result
}.

Inductive LuaRequestType : Type := get | post.

(** [callback] is a shared pointer to a Lua function, kept as a handle. *)
Record LuaHTTPRequest : Type := {
  req_type : LuaRequestType;
  req_scheme : string;
  req_path : string;
  req_callback : nat;
  req_contentType : string;
  req_body : string;
  req_headers : list (string * string)
}.

(** The five members the two initialisers of [handleHTTPResponse] fill in
    order; members an initialiser leaves out are value-initialised. *)
Record LuaHTTPResponse : Type := {
  resp_callback : nat;
  resp_responded : bool;
  resp_status : Z;
  resp_body : string;
  resp_headers : list (string * string)
}.

(** [httplib::Headers] is a [std::multimap] of name and value ordered by
    httplib's [detail::ci]: names are compared byte by byte after
    [::tolower], a proper prefix coming first. A multimap is held here as
    the list of its entries in iteration order. *)
Definition lower (c : ascii) : nat :=
  let n := nat_of_ascii c in
  if ((65 <=? n) && (n <=? 90))%nat then (n + 32)%nat else n.

Fixpoint ci (a b : string) : bool :=
  match a, b with
  | _, EmptyString => false
  | EmptyString, String _ _ => true
  | String x a', String y b' =>
      if (lower x <? lower y)%nat then true
      else if (lower y <? lower x)%nat then false
      else ci a' b'
  end.

(** [headers.emplace(name, value)]: the new entry goes behind the entries
    whose name is not greater, also behind those of the same name. *)
Fixpoint emplace (name value : string) (hs : list (string * string))
    : list (string * string) :=
  match hs with
  | [] => [(name, value)]
  | h :: hs' =>
      if ci name (fst h) then (name, value) :: h :: hs'
      else h :: emplace name value hs'
  end.

(** [for (const auto& pair : headers) httpHeaders.emplace(...);
     httpHeaders.emplace("Connection", "close");] with [hs] the pairs in
    the order the loop meets them. *)
Definition close_connection (hs : list (string * string)) : list (string * string) :=
  emplace "Connection" "close"
    (fold_left (fun m pair => emplace (fst pair) (snd pair) m) hs []).

Definition headers_table (hs : list (string * string)) : LuaTable :=
  fold_left (fun t h => table_set (fst h) (LString (snd h)) t) hs [].

Definition handleSyncHTTPResponse (res : Result) : LuaValue :=
  match res with
  | Some r =>
      LTable
        (table_set "headers" (LTable (headers_table (headers r)))
           (table_set "body" (LString (body r))
              (table_set "status" (LInteger (status r)) [])))
  | None => LNil
  end.

Module http.
Definition getSync `{Network} (scheme path : string)
    (hs : list (string * string)) : LuaValue :=
  handleSyncHTTPResponse (Client_Get scheme path (close_connection hs)).

Definition postSync `{Network} (scheme path : string)
    (hs : list (string * string)) (body contentType : string) : LuaValue :=
  handleSyncHTTPResponse
    (Client_Post scheme path (close_connection hs) body contentType).

(** [l_http_get] and [l_http_post] of the older revision push a request;
    [rq] is [requestQueue]. *)
Definition get (scheme path : string) (hs : list (string * string))
    (callback : nat) (rq : list LuaHTTPRequest) : list LuaHTTPRequest :=
  rq ++ [{| req_type := get; req_scheme := scheme; req_path := path;
            req_callback := callback; req_contentType := EmptyString;
            req_body := EmptyString; req_headers := hs |}].

Definition post (scheme path : string) (hs : list (string * string))
    (body contentType : string) (callback : nat)
    (rq : list LuaHTTPRequest) : list LuaHTTPRequest :=
  rq ++ [{| req_type := post; req_scheme := scheme; req_path := path;
            req_callback := callback; req_contentType := contentType;
            req_body := body; req_headers := hs |}].
End http.

(** [handleHTTPResponse]: what is pushed on [responseQueue]. *)
Definition handleHTTPResponse (req : LuaHTTPRequest) (res : Result)
    (responseQueue : list LuaHTTPResponse) : list LuaHTTPResponse :=
  match res with
  | Some r =>
      responseQueue ++
        [{| resp_callback := req_callback req; resp_responded := true;
            resp_status := status r; resp_body := body r;
            resp_headers := headers r |}]
  | None =>
      responseQueue ++
        [{| resp_callback := req_callback req; resp_responded := false;
            resp_status := 0; resp_body := EmptyString; resp_headers := [] |}]
  end.

(** The network call [HTTPThread] makes for a dequeued request. *)
Definition perform `{Network} (req : LuaHTTPRequest) : Result :=
  match req_type req with
  | get =>
      Client_Get (req_scheme req) (req_path req)
        (close_connection (req_headers req))
  | post =>
      Client_Post (req_scheme req) (req_path req)
        (close_connection (req_headers req)) (req_body req)
        (req_contentType req)
  end.

(** ** The worker thread and the script thread

    [HTTPThread] runs beside the thread that runs Lua. The two meet at
    three mutexes and two queues. The machine below interleaves them one
    step at a time; a step that needs a mutex another thread holds cannot
    be taken. *)

Module HTTPThread.

Inductive Thread : Type := Worker | Script.

Definition Thread_eqb (a b : Thread) : bool :=
  match a, b with
  | Worker, Worker | Script, Script => true
  | _, _ => false
  end.

(** Where the worker stands in [HTTPThread] (lines 234-276). The numbers
    carried along are bookkeeping for the proofs: the environment that
    was current when the request was taken off the queue, and when its
    network call returned. *)
Inductive WorkerPC : Type :=
| AtGuard                       (* 240: about to take stateResetMutex *)
| AtRequestLock                 (* 242: about to lock requestQueueMutex *)
| AtEmptyTest                   (* 243: holds both, tests the queue *)
| AtBreak                       (* 246: queue was empty, mutex unlocked *)
| AtRequestUnlock (req : LuaHTTPRequest) (taken_in : nat)
                                (* 250: popped, about to unlock *)
| AtNetwork (req : LuaHTTPRequest) (taken_in : nat)
                                (* 252-269: the client call *)
| AtResponseLock (req : LuaHTTPRequest) (res : Result) (taken_in done_in : nat)
                                (* 220/229: about to lock responseQueueMutex *)
| AtPush (req : LuaHTTPRequest) (res : Result) (taken_in done_in : nat)
                                (* 221/230: holds it, pushes *)
| AtResponseUnlock              (* 222/231: guard of handleHTTPResponse ends *)
| AtGuardEnd                    (* 273: the stateResetMutex guard ends *)
| AtSleep.                      (* 274 *)

(** Where the script thread stands. [l_http_get] and [l_http_post] are
    in api.cpp (lines 122-154). *)
Inductive ScriptPC : Type :=
| Running
| InRequestPush (req : LuaHTTPRequest)   (* 134/152: holds requestQueueMutex *)
| ResetLocked                            (* holds stateResetMutex *)
| ResetRebuilt.                          (* environment replaced, still holds it *)

(** One response on [responseQueue], with the environments in which its
    request was dequeued, its network call returned, and it was pushed. *)
Record Deposit : Type := {
  dep_response : LuaHTTPResponse;
  dep_taken_in : nat;
  dep_done_in : nat;
  dep_pushed_in : nat
}.

Record State : Type := {
  wpc : WorkerPC;
  spc : ScriptPC;
  stateResetMutex : option Thread;
  requestQueueMutex : option Thread;
  responseQueueMutex : option Thread;
  requestQueue : list LuaHTTPRequest;
  responseQueue : list LuaHTTPResponse;
  environment : nat;
  deposits : list Deposit
}.

Definition initial : State :=
  {| wpc := AtGuard; spc := Running;
     stateResetMutex := None; requestQueueMutex := None;
     responseQueueMutex := None;
     requestQueue := []; responseQueue := [];
     environment := 0%nat; deposits := [] |}.

Definition free (m : option Thread) : bool :=
  match m with None => true | Some _ => false end.

Section Steps.
Context `{Network}.

(** The next step of the worker, when it can take one. *)
Definition worker_step (s : State) : option State :=
  match wpc s with
  | AtGuard =>
      if free (stateResetMutex s) then
        Some {| wpc := AtRequestLock; spc := spc s;
                stateResetMutex := Some Worker;
                requestQueueMutex := requestQueueMutex s;
                responseQueueMutex := responseQueueMutex s;
                requestQueue := requestQueue s;
                responseQueue := responseQueue s;
                environment := environment s; deposits := deposits s |}
      else None
  | AtRequestLock =>
      if free (requestQueueMutex s) then
        Some {| wpc := AtEmptyTest; spc := spc s;
                stateResetMutex := stateResetMutex s;
                requestQueueMutex := Some Worker;
                responseQueueMutex := responseQueueMutex s;
                requestQueue := requestQueue s;
                responseQueue := responseQueue s;
                environment := environment s; deposits := deposits s |}
      else None
  | AtEmptyTest =>
      match requestQueue s with
      | [] =>
          Some {| wpc := AtBreak; spc := spc s;
                  stateResetMutex := stateResetMutex s;
                  requestQueueMutex := None;
                  responseQueueMutex := responseQueueMutex s;
                  requestQueue := [];
                  responseQueue := responseQueue s;
                  environment := environment s; deposits := deposits s |}
      | req :: rest =>
          Some {| wpc := AtRequestUnlock req (environment s); spc := spc s;
                  stateResetMutex := stateResetMutex s;
                  requestQueueMutex := requestQueueMutex s;
                  responseQueueMutex := responseQueueMutex s;
                  requestQueue := rest;
                  responseQueue := responseQueue s;
                  environment := environment s; deposits := deposits s |}
      end
  | AtBreak =>
      Some {| wpc := AtSleep; spc := spc s;
              stateResetMutex := None;
              requestQueueMutex := requestQueueMutex s;
              responseQueueMutex := responseQueueMutex s;
              requestQueue := requestQueue s;
              responseQueue := responseQueue s;
              environment := environment s; deposits := deposits s |}
  | AtRequestUnlock req t =>
      Some {| wpc := AtNetwork req t; spc := spc s;
              stateResetMutex := stateResetMutex s;
              requestQueueMutex := None;
              responseQueueMutex := responseQueueMutex s;
              requestQueue := requestQueue s;
              responseQueue := responseQueue s;
              environment := environment s; deposits := deposits s |}
  | AtNetwork req t =>
      Some {| wpc := AtResponseLock req (perform req) t (environment s);
              spc := spc s;
              stateResetMutex := stateResetMutex s;
              requestQueueMutex := requestQueueMutex s;
              responseQueueMutex := responseQueueMutex s;
              requestQueue := requestQueue s;
              responseQueue := responseQueue s;
              environment := environment s; deposits := deposits s |}
  | AtResponseLock req res t d =>
      if free (responseQueueMutex s) then
        Some {| wpc := AtPush req res t d; spc := spc s;
                stateResetMutex := stateResetMutex s;
                requestQueueMutex := requestQueueMutex s;
                responseQueueMutex := Some Worker;
                requestQueue := requestQueue s;
                responseQueue := responseQueue s;
                environment := environment s; deposits := deposits s |}
      else None
  | AtPush req res t d =>
      let q := handleHTTPResponse req res (responseQueue s) in
      Some {| wpc := AtResponseUnlock; spc := spc s;
              stateResetMutex := stateResetMutex s;
              requestQueueMutex := requestQueueMutex s;
              responseQueueMutex := responseQueueMutex s;
              requestQueue := requestQueue s;
              responseQueue := q;
              environment := environment s;
              deposits :=
                deposits s ++
                  match last q with
                  | Some r =>
                      [{| dep_response := r; dep_taken_in := t;
                          dep_done_in := d;
                          dep_pushed_in := environment s |}]
                  | None => []
                  end |}
  | AtResponseUnlock =>
      Some {| wpc := AtGuardEnd; spc := spc s;
              stateResetMutex := stateResetMutex s;
              requestQueueMutex := requestQueueMutex s;
              responseQueueMutex := None;
              requestQueue := requestQueue s;
              responseQueue := responseQueue s;
              environment := environment s; deposits := deposits s |}
  | AtGuardEnd =>
      Some {| wpc := AtGuard; spc := spc s;
              stateResetMutex := None;
              requestQueueMutex := requestQueueMutex s;
              responseQueueMutex := responseQueueMutex s;
              requestQueue := requestQueue s;
              responseQueue := responseQueue s;
              environment := environment s; deposits := deposits s |}
  | AtSleep =>
      Some {| wpc := AtGuard; spc := spc s;
              stateResetMutex := stateResetMutex s;
              requestQueueMutex := requestQueueMutex s;
              responseQueueMutex := responseQueueMutex s;
              requestQueue := requestQueue s;
              responseQueue := responseQueue s;
              environment := environment s; deposits := deposits s |}
  end.
End Steps.

(** What the script thread may do next. *)
Inductive ScriptMove : Type :=
| BeginRequest (req : LuaHTTPRequest)   (* enter l_http_get / l_http_post *)
| FinishRequest                         (* push and leave *)
| BeginReset
| Rebuild
| EndReset.

(** Modelled from the spec: the reset path is not in api.cpp, which only
    declares [stateResetMutex]. Section 5 has it acquire that same lock
    before tearing down and rebuilding the scripting environment; the
    three reset moves do that and release the lock afterwards. Section 5
    knows no cancellation ("a queued outbound request, once enqueued,
    always runs to completion or failure"), and api.cpp takes a request
    off the queue in [HTTPThread] only: the reset moves leave both queues
    as they are. *)
Definition script_step (mv : ScriptMove) (s : State) : option State :=
  match mv, spc s with
  | BeginRequest req, Running =>
      if free (requestQueueMutex s) then
        Some {| wpc := wpc s; spc := InRequestPush req;
                stateResetMutex := stateResetMutex s;
                requestQueueMutex := Some Script;
                responseQueueMutex := responseQueueMutex s;
                requestQueue := requestQueue s;
                responseQueue := responseQueue s;
                environment := environment s; deposits := deposits s |}
      else None
  | FinishRequest, InRequestPush req =>
      Some {| wpc := wpc s; spc := Running;
              stateResetMutex := stateResetMutex s;
              requestQueueMutex := None;
              responseQueueMutex := responseQueueMutex s;
              requestQueue := requestQueue s ++ [req];
              responseQueue := responseQueue s;
              environment := environment s; deposits := deposits s |}
  | BeginReset, Running =>
      if free (stateResetMutex s) then
        Some {| wpc := wpc s; spc := ResetLocked;
                stateResetMutex := Some Script;
                requestQueueMutex := requestQueueMutex s;
                responseQueueMutex := responseQueueMutex s;
                requestQueue := requestQueue s;
                responseQueue := responseQueue s;
                environment := environment s; deposits := deposits s |}
      else None
  | Rebuild, ResetLocked =>
      Some {| wpc := wpc s; spc := ResetRebuilt;
              stateResetMutex := stateResetMutex s;
              requestQueueMutex := requestQueueMutex s;
              responseQueueMutex := responseQueueMutex s;
              requestQueue := requestQueue s;
              responseQueue := responseQueue s;
              environment := S (environment s); deposits := deposits s |}
  | EndReset, ResetRebuilt =>
      Some {| wpc := wpc s; spc := Running;
              stateResetMutex := None;
              requestQueueMutex := requestQueueMutex s;
              responseQueueMutex := responseQueueMutex s;
              requestQueue := requestQueue s;
              responseQueue := responseQueue s;
              environment := environment s; deposits := deposits s |}
  | _, _ => None
  end.

(** The scheduler picks a thread; the thread moves if it can. *)
Inductive Choice : Type :=
| RunWorker
| RunScript (mv : ScriptMove).

Definition step `{Network} (c : Choice) (s : State) : option State :=
  match c with
  | RunWorker => worker_step s
  | RunScript mv => script_step mv s
  end.

Fixpoint run `{Network} (cs : list Choice) (s : State) : option State :=
  match cs with
  | [] => Some s
  | c :: cs' =>
      match step c s with
      | Some s' => run cs' s'
      | None => None
      end
  end.

Definition reachable `{Network} (s : State) : Prop :=
  exists cs, run cs initial = Some s.

(** The stretch of [HTTPThread] from taking a request off the queue to
    having pushed its response. *)
Definition in_flight (pc : WorkerPC) : bool :=
  match pc with
  | AtRequestUnlock _ _ | AtNetwork _ _ | AtResponseLock _ _ _ _
  | AtPush _ _ _ _ | AtResponseUnlock => true
  | _ => false
  end.

Definition resetting (pc : ScriptPC) : bool :=
  match pc with
  | ResetLocked | ResetRebuilt => true
  | _ => false
  end.

End HTTPThread.

(** ** The hook registry *)

(** [Hooks::enableNames], the table from event names to keys, and
    [Hooks::enabledKeys], one flag per key ([Hooks::EnableKeys::SIZE] of
    them). Both are declared beside the hooks; api.cpp looks names up in
    the table and writes the flags. *)
Record Registry : Type := {
  enableNames : gmap string nat;
  enabledKeys : list bool
}.

(** [name.rfind("Post", 0) == 0 ? name.substr(4) : name] *)
Definition withoutPostPrefix (name : string) : string :=
  match name with
  | String "P" (String "o" (String "s" (String "t" rest))) => rest
  | _ => name
  end.

Module hook.

(** [Hooks::enabledKeys[key] = value], which is undefined outside the
    array. *)
Definition set_key (key : nat) (value : bool) (r : Registry)
    : outcome (bool * Registry) :=
  if (key <? length (enabledKeys r))%nat then
    Ret (true, {| enableNames := enableNames r;
                  enabledKeys := <[key := value]> (enabledKeys r) |})
  else Undefined.

Definition enable (name : string) (r : Registry) : outcome (bool * Registry) :=
  match enableNames r !! withoutPostPrefix name with
  | Some key => set_key key true r
  | None => Ret (false, r)
  end.

Definition disable (name : string) (r : Registry) : outcome (bool * Registry) :=
  match enableNames r !! withoutPostPrefix name with
  | Some key => set_key key false r
  | None => Ret (false, r)
  end.

(** [for (size_t i = 0; i < SIZE; i++) enabledKeys[i] = false;] with [n]
    rounds to go. *)
Fixpoint clear_loop (n i : nat) (keys : list bool) : list bool :=
  match n with
  | O => keys
  | S n' => clear_loop n' (S i) (<[i := false]> keys)
  end.

Definition clear (r : Registry) : Registry :=
  {| enableNames := enableNames r;
     enabledKeys := clear_loop (length (enabledKeys r)) 0 (enabledKeys r) |}.

End hook.

(** ** Listing slots

    The [getCount], [getAll] and [getByPhone] functions of the namespaces
    walk an array from slot 0 to a fixed bound. The functions below carry
    the names of the older revision ([l_items_getCount] is
    [items::getCount] of the current one; the bodies are the same). *)

(** [for (int i = 0; i < max; i++) if ((&Engine::xs[i])->active) count++;]
    with [n] rounds to go. A slot the array does not have cannot be
    read. *)
Fixpoint count_active {A : Type} (active : A -> Z) (arr : list A)
    (n : nat) (i count : Z) : outcome Z :=
  match n with
  | O => Ret count
  | S n' =>
      match zlookup arr i with
      | None => Undefined
      | Some x =>
          count_active active arr n' (i + 1)
            (if active x =? 0 then count else count + 1)
      end
  end.

(** [for (...) { auto x = &Engine::xs[i]; if (skipped) continue;
    arr.add(x); }] *)
Fixpoint collect {A : Type} (L : Layout) (c : Category) (keep : A -> bool)
    (arr : list A) (n : nat) (i : Z) (out : list Z) : outcome (list Z) :=
  match n with
  | O => Ret out
  | S n' =>
      match zlookup arr i with
      | None => Undefined
      | Some x =>
          collect L c keep arr n' (i + 1)
            (if keep x then out ++ [elem_addr L c i] else out)
      end
  end.

(** [for (...) { ...; if (hit) return x; } return nullptr;] *)
Fixpoint find_first {A : Type} (L : Layout) (c : Category) (hit : A -> bool)
    (arr : list A) (n : nat) (i : Z) : outcome Z :=
  match n with
  | O => Ret nullptr
  | S n' =>
      match zlookup arr i with
      | None => Undefined
      | Some x =>
          if hit x then Ret (elem_addr L c i)
          else find_first L c hit arr n' (i + 1)
      end
  end.

(** [for (int i = 0; i < n; i++) arr.add(&Engine::xs[i]);], which reads
    no record. *)
Fixpoint addresses (L : Layout) (c : Category) (n : nat) (i : Z)
    (out : list Z) : list Z :=
  match n with
  | O => out
  | S n' => addresses L c n' (i + 1) (out ++ [elem_addr L c i])
  end.

Definition is_active (flag : Z) : bool := negb (flag =? 0).

Definition l_itemTypes_getCount (L : Layout) : Z := capacity L CItemType.

Definition l_itemTypes_getAll (L : Layout) : list Z :=
  addresses L CItemType (Z.to_nat (capacity L CItemType)) 0 [].

Definition l_items_getCount (L : Layout) (e : Engine) : outcome Z :=
  count_active Item_active (items e) (Z.to_nat (capacity L CItem)) 0 0.

Definition l_items_getAll (L : Layout) (e : Engine) : outcome (list Z) :=
  collect L CItem (fun x => is_active (Item_active x)) (items e)
    (Z.to_nat (capacity L CItem)) 0 [].

Definition l_vehicles_getCount (L : Layout) (e : Engine) : outcome Z :=
  count_active Vehicle_active (vehicles e) (Z.to_nat (capacity L CVehicle)) 0 0.

Definition l_vehicles_getAll (L : Layout) (e : Engine) : outcome (list Z) :=
  collect L CVehicle (fun x => is_active (Vehicle_active x)) (vehicles e)
    (Z.to_nat (capacity L CVehicle)) 0 [].

Definition l_players_getCount (L : Layout) (e : Engine) : outcome Z :=
  count_active Player_active (players e) (Z.to_nat (capacity L CPlayer)) 0 0.

Definition l_players_getAll (L : Layout) (e : Engine) : outcome (list Z) :=
  collect L CPlayer (fun x => is_active (Player_active x)) (players e)
    (Z.to_nat (capacity L CPlayer)) 0 [].

(** [if (!ply->active) continue; if (ply->phoneNumber == phone) return ply;] *)
Definition l_players_getByPhone (L : Layout) (e : Engine) (phone : Z)
    : outcome Z :=
  find_first L CPlayer
    (fun x => is_active (Player_active x) && (Player_phoneNumber x =? phone))
    (players e) (Z.to_nat (capacity L CPlayer)) 0.

(** [if (!ply->active || !ply->subRosaID || ply->isBot) continue;] *)
Definition l_players_getNonBots (L : Layout) (e : Engine) : outcome (list Z) :=
  collect L CPlayer
    (fun x =>
       negb (negb (is_active (Player_active x))
             || negb (is_active (Player_subRosaID x))
             || is_active (Player_isBot x)))
    (players e) (Z.to_nat (capacity L CPlayer)) 0 [].

Definition l_humans_getCount (L : Layout) (e : Engine) : outcome Z :=
  count_active Human_active (humans e) (Z.to_nat (capacity L CHuman)) 0 0.

Definition l_humans_getAll (L : Layout) (e : Engine) : outcome (list Z) :=
  collect L CHuman (fun x => is_active (Human_active x)) (humans e)
    (Z.to_nat (capacity L CHuman)) 0 [].

Definition l_rigidBodies_getCount (L : Layout) (e : Engine) : outcome Z :=
  count_active RigidBody_active (bodies e)
    (Z.to_nat (capacity L CRigidBody)) 0 0.

Definition l_rigidBodies_getAll (L : Layout) (e : Engine) : outcome (list Z) :=
  collect L CRigidBody (fun x => is_active (RigidBody_active x)) (bodies e)
    (Z.to_nat (capacity L CRigidBody)) 0 [].

Definition l_bonds_getCount (L : Layout) (e : Engine) : outcome Z :=
  count_active Bond_active (bonds e) (Z.to_nat (capacity L CBond)) 0 0.

Definition l_bonds_getAll (L : Layout) (e : Engine) : outcome (list Z) :=
  collect L CBond (fun x => is_active (Bond_active x)) (bonds e)
    (Z.to_nat (capacity L CBond)) 0 [].

(** The bound is the live counter, compared as [int]. *)
Definition l_streets_getAll (L : Layout) (e : Engine) : list Z :=
  addresses L CStreet (Z.to_nat (numStreets e)) 0 [].

Definition l_intersections_getAll (L : Layout) (e : Engine) : list Z :=
  addresses L CStreetIntersection
    (Z.to_nat (numStreetIntersections e)) 0 [].

(** ** Setting a cross-reference

    The setters of the proxy classes store the index of the object handed
    in, or the sentinel for a null pointer. They carry the class name as a
    prefix here. *)

Definition set_Player_accountID (v : Z) (p : Player) : Player :=
  {| Player_active := Player_active p; Player_name := Player_name p;
     Player_subRosaID := Player_subRosaID p;
     Player_phoneNumber := Player_phoneNumber p;
     Player_isBot := Player_isBot p; Player_team := Player_team p;
     Player_humanID := Player_humanID p; Player_accountID := v |}.

Definition set_Human_vehicleID (v : Z) (h : Human) : Human :=
  {| Human_active := Human_active h; Human_playerID := Human_playerID h;
     Human_vehicleID := v;
     Human_rightHandOccupied := Human_rightHandOccupied h;
     Human_rightHandItemID := Human_rightHandItemID h;
     Human_leftHandOccupied := Human_leftHandOccupied h;
     Human_leftHandItemID := Human_leftHandItemID h;
     Human_isGrabbingRight := Human_isGrabbingRight h;
     Human_grabbingRightHumanID := Human_grabbingRightHumanID h;
     Human_isGrabbingLeft := Human_isGrabbingLeft h;
     Human_grabbingLeftHumanID := Human_grabbingLeftHumanID h |}.

Definition set_Item_grenadePrimerID (v : Z) (i : Item) : Item :=
  {| Item_active := Item_active i; Item_grenadePrimerID := v;
     Item_parentHumanID := Item_parentHumanID i;
     Item_parentItemID := Item_parentItemID i;
     Item_bodyID := Item_bodyID i |}.

(** [if (human == nullptr) humanID = -1; else humanID = human->getIndex();] *)
Definition Player_setHuman (L : Layout) (human : Z) (self : Player) : Player :=
  set_Player_humanID
    (if human =? nullptr then -1 else Human.getIndex L human) self.

(** [if (account == nullptr) throw std::invalid_argument(...);
     else accountID = account->getIndex();] *)
Definition Player_setAccount (L : Layout) (account : Z) (self : Player)
    : outcome Player :=
  if account =? nullptr then Throw "Cannot set account to nil value"
  else Ret (set_Player_accountID (Account.getIndex L account) self).

Definition Human_setPlayer (L : Layout) (player : Z) (self : Human) : Human :=
  set_Human_playerID
    (if player =? nullptr then -1 else Player.getIndex L player) self.

Definition Human_setVehicle (L : Layout) (vcl : Z) (self : Human) : Human :=
  set_Human_vehicleID
    (if vcl =? nullptr then -1 else Vehicle.getIndex L vcl) self.

(** [grenadePrimerID = player != nullptr ? player->getIndex() : -1;] *)
Definition Item_setGrenadePrimer (L : Layout) (player : Z) (self : Item) : Item :=
  set_Item_grenadePrimerID
    (if negb (player =? nullptr) then Player.getIndex L player else -1) self.

(** ** Text written with [sprintf]

    [__tostring] of the proxy classes and [addressFromInteger] format
    integers with [%i] into a [char buf[N]] on the stack. *)

Definition digit (d : Z) : ascii := ascii_of_nat (48 + Z.to_nat d).

(** The decimal digits of a number that is not negative, most significant
    first; [fuel] bounds their number. *)
Fixpoint digits (fuel : nat) (n : Z) : string :=
  match fuel with
  | O => EmptyString
  | S fuel' =>
      if n <? 10 then String (digit n) EmptyString
      else (digits fuel' (n / 10) ++ String (digit (n mod 10)) EmptyString)%string
  end.

(** [%i] applied to an [int], which has at most ten digits. *)
Definition format_int (n : Z) : string :=
  if n <? 0 then String "-" (digits 10 (- n)) else digits 10 n.

Definition className (c : Category) : string :=
  match c with
  | CAccount => "Account" | CPlayer => "Player" | CHuman => "Human"
  | CItemType => "ItemType" | CItem => "Item" | CVehicle => "Vehicle"
  | CRigidBody => "RigidBody" | CBond => "Bond" | CStreet => "Street"
  | CStreetIntersection => "StreetIntersection"
  end.

(** The [N] of [char buf[N]] in the [__tostring] of each class. *)
Definition bufSize (c : Category) : Z :=
  match c with
  | CAccount | CStreetIntersection => 32
  | _ => 16
  end.

(** [sprintf(buf, "Player(%i)", getIndex())] and its nine siblings: the
    text handed to [sprintf]'s buffer. *)
Definition tostring (L : Layout) (c : Category) (this : Z) : string :=
  (className c ++ "(" ++ format_int (getIndex L c this) ++ ")")%string.

(** [bytes[k]] of [(unsigned char* )(&address)] on the little-endian host
    the hooks are written for. *)
Definition byte_of (address : Z) (k : Z) : Z :=
  Z.shiftr (to_uint32 address) (8 * k) mod 256.

(** [sprintf(buf, "%i.%i.%i.%i", bytes[3], bytes[2], bytes[1], bytes[0])] *)
Definition addressFromInteger (address : Z) : string :=
  (format_int (byte_of address 3) ++ "." ++ format_int (byte_of address 2)
   ++ "." ++ format_int (byte_of address 1) ++ "."
   ++ format_int (byte_of address 0))%string.

(* ================================================================== *)
(** * Part II: sample data and the vocabulary of the statements *)
(* ================================================================== *)

(** Small arrays at round addresses, and host functions that hand out the
    first inactive slot: the closed examples of Part III are evaluated on
    them. Between them stand the predicates and observations the
    statements of Part III are phrased in. *)

Definition demo_layout : Layout :=
  {| base := fun c =>
       match c with
       | CAccount => 4096 | CPlayer => 8192 | CHuman => 12288
       | CItemType => 16384 | CItem => 20480 | CVehicle => 24576
       | CRigidBody => 28672 | CBond => 32768 | CStreet => 36864
       | CStreetIntersection => 40960
       end;
     elemSize := fun c =>
       match c with
       | CAccount => 16 | CPlayer => 64 | CHuman => 128 | CItemType => 32
       | CItem => 48 | CVehicle => 96 | CRigidBody => 24 | CBond => 40
       | CStreet => 56 | CStreetIntersection => 72
       end;
     capacity := fun c =>
       match c with
       | CStreet | CStreetIntersection => 8
       | _ => 4
       end |}.

(** Inactive records, as the host leaves free slots. *)
Definition blank_player : Player :=
  {| Player_active := 0; Player_name := EmptyString; Player_subRosaID := 0;
     Player_phoneNumber := 0; Player_isBot := 0; Player_team := 0;
     Player_humanID := -1; Player_accountID := 0 |}.

(** An active player whose [accountID] holds the sentinel. *)
Definition stray_player : Player :=
  {| Player_active := 1; Player_name := "stray"; Player_subRosaID := 7;
     Player_phoneNumber := 2560001; Player_isBot := 0; Player_team := 0;
     Player_humanID := -1; Player_accountID := -1 |}.

Definition blank_human : Human :=
  {| Human_active := 0; Human_playerID := -1; Human_vehicleID := -1;
     Human_rightHandOccupied := 0; Human_rightHandItemID := 0;
     Human_leftHandOccupied := 0; Human_leftHandItemID := 0;
     Human_isGrabbingRight := 0; Human_grabbingRightHumanID := 0;
     Human_isGrabbingLeft := 0; Human_grabbingLeftHumanID := 0 |}.

Definition blank_item : Item :=
  {| Item_active := 0; Item_grenadePrimerID := -1; Item_parentHumanID := -1;
     Item_parentItemID := -1; Item_bodyID := 0 |}.

Definition blank_vehicle : Vehicle :=
  {| Vehicle_active := 0; Vehicle_lastDriverPlayerID := -1;
     Vehicle_bodyID := 0 |}.

(** Four slots in each array that has a [maxNumberOf] constant, all
    inactive; room for eight streets, of which the map uses two. *)
Definition demo_engine : Engine :=
  {| accounts :=
       replicate 4 {| Account_subRosaID := 0; Account_phoneNumber := 0 |};
     players := replicate 4 blank_player;
     humans := replicate 4 blank_human;
     items := replicate 4 blank_item;
     vehicles := replicate 4 blank_vehicle;
     bodies := replicate 4 {| RigidBody_active := 0 |};
     bonds :=
       replicate 4 {| Bond_active := 0; Bond_bodyID := 0; Bond_otherBodyID := 0 |};
     streets :=
       replicate 8 {| Street_intersectionA := 0; Street_intersectionB := 0 |};
     streetIntersections :=
       replicate 8
         {| StreetIntersection_streetEast := -1;
            StreetIntersection_streetSouth := -1;
            StreetIntersection_streetWest := -1;
            StreetIntersection_streetNorth := -1 |};
     numStreets := 2;
     numStreetIntersections := 2 |}.

(** The sample host's own writes to its arrays. *)
Definition set_items (xs : list Item) (e : Engine) : Engine :=
  {| accounts := accounts e; players := players e; humans := humans e;
     items := xs; vehicles := vehicles e; bodies := bodies e;
     bonds := bonds e; streets := streets e;
     streetIntersections := streetIntersections e;
     numStreets := numStreets e;
     numStreetIntersections := numStreetIntersections e |}.

Definition set_vehicles (xs : list Vehicle) (e : Engine) : Engine :=
  {| accounts := accounts e; players := players e; humans := humans e;
     items := items e; vehicles := xs; bodies := bodies e;
     bonds := bonds e; streets := streets e;
     streetIntersections := streetIntersections e;
     numStreets := numStreets e;
     numStreetIntersections := numStreetIntersections e |}.

Fixpoint first_inactive {A : Type} (active : A -> Z) (l : list A) (i : Z)
    : option Z :=
  match l with
  | [] => None
  | x :: l' => if active x =? 0 then Some i else first_inactive active l' (i + 1)
  end.

Definition activate_player (p : Player) : Player :=
  {| Player_active := 1; Player_name := Player_name p;
     Player_subRosaID := Player_subRosaID p;
     Player_phoneNumber := Player_phoneNumber p;
     Player_isBot := Player_isBot p; Player_team := Player_team p;
     Player_humanID := -1; Player_accountID := Player_accountID p |}.

Definition human_for (playerID active : Z) : Human :=
  {| Human_active := active; Human_playerID := playerID; Human_vehicleID := -1;
     Human_rightHandOccupied := 0; Human_rightHandItemID := 0;
     Human_leftHandOccupied := 0; Human_leftHandItemID := 0;
     Human_isGrabbingRight := 0; Human_grabbingRightHumanID := 0;
     Human_isGrabbingLeft := 0; Human_grabbingLeftHumanID := 0 |}.

Definition item_with (active : Z) : Item :=
  {| Item_active := active; Item_grenadePrimerID := -1;
     Item_parentHumanID := -1; Item_parentItemID := -1; Item_bodyID := 0 |}.

Definition vehicle_with (active : Z) : Vehicle :=
  {| Vehicle_active := active; Vehicle_lastDriverPlayerID := -1;
     Vehicle_bodyID := 0 |}.

(** A create function takes the first inactive slot, or answers [-1]; a
    delete function marks the slot inactive; a reset empties the human and
    item arrays. *)
#[local] Instance demo_host : Host :=
  {| Vector := unit;
     RotMatrix := unit;
     Engine_resetGame := fun e =>
       set_humans (replicate (length (humans e)) blank_human)
         (set_items (replicate (length (items e)) blank_item) e);
     Engine_createItem := fun _ _ _ _ e =>
       match first_inactive Item_active (items e) 0 with
       | Some i => (i, set_items (<[Z.to_nat i := item_with 1]> (items e)) e)
       | None => (-1, e)
       end;
     Engine_createRope := fun _ _ e =>
       match first_inactive Item_active (items e) 0 with
       | Some i => (i, set_items (<[Z.to_nat i := item_with 1]> (items e)) e)
       | None => (-1, e)
       end;
     Engine_createVehicle := fun _ _ _ _ _ e =>
       match first_inactive Vehicle_active (vehicles e) 0 with
       | Some i =>
           (i, set_vehicles (<[Z.to_nat i := vehicle_with 1]> (vehicles e)) e)
       | None => (-1, e)
       end;
     Engine_createPlayer := fun e =>
       match first_inactive Player_active (players e) 0 with
       | Some i =>
           (i, set_players (<[Z.to_nat i := activate_player blank_player]>
                              (players e)) e)
       | None => (-1, e)
       end;
     Engine_createHuman := fun _ _ playerID e =>
       match first_inactive Human_active (humans e) 0 with
       | Some i =>
           (i, set_humans (<[Z.to_nat i := human_for playerID 1]> (humans e)) e)
       | None => (-1, e)
       end;
     Engine_deleteItem := fun id e =>
       set_items (<[Z.to_nat id := item_with 0]> (items e)) e;
     Engine_deleteVehicle := fun id e =>
       set_vehicles (<[Z.to_nat id := vehicle_with 0]> (vehicles e)) e;
     Engine_deletePlayer := fun id e =>
       set_players (<[Z.to_nat id := blank_player]> (players e)) e;
     Engine_deleteHuman := fun id e =>
       set_humans (<[Z.to_nat id := blank_human]> (humans e)) e |}.

(** Every redirect installed, the ResetGame event enabled, no data table
    allocated yet. *)
Definition demo_world : World :=
  {| engine := demo_engine;
     installed := fun _ => true;
     enabledKeys_ResetGame := true;
     playerDataTables := replicate 4 None;
     humanDataTables := replicate 4 None;
     itemDataTables := replicate 4 None;
     vehicleDataTables := replicate 4 None;
     bodyDataTables := replicate 4 None |}.

(** The layout a real host has: records have a size, each array has room
    for at least one record and fewer than 2^31, starts above address 0
    and ends inside the address space. *)
Definition wf_layout (L : Layout) : Prop :=
  forall c,
    0 < elemSize L c /\ 0 < capacity L c < 2 ^ 31 /\
    0 < base L c /\ base L c + capacity L c * elemSize L c <= 2 ^ 64.

(** What [getByIndex] compares the index with: the array's capacity where
    api.cpp names a [maxNumberOf] constant, the host's live counter (read
    as unsigned) for streets and intersections. *)
Definition index_bound (L : Layout) (e : Engine) (c : Category) : Z :=
  match c with
  | CStreet => to_uint32 (numStreets e)
  | CStreetIntersection => to_uint32 (numStreetIntersections e)
  | _ => capacity L c
  end.

(** The categories whose [getByIndex] names a [maxNumberOf] constant. *)
Definition has_max_constant (c : Category) : bool :=
  match c with
  | CStreet | CStreetIntersection => false
  | _ => true
  end.

(** The pattern of the accessors that test their reference:
    [ref == -1 ? nullptr : &Engine::xs[ref]]. *)
Definition sentinel_deref (L : Layout) (c : Category) (ref : Z) : Z :=
  if ref =? -1 then nullptr else elem_addr L c ref.

(** What the trampoline emits around one call of the original
    [resetGame]: the redirect is taken out just before and put back just
    after, when it was installed. *)
Definition original_call (was_installed : bool) : list Event :=
  (if was_installed then [EvHookRemove resetGameHook] else [])
  ++ [EvEngine CallResetGame]
  ++ (if was_installed then [EvHookInstall resetGameHook] else []).

(** The console text for the error "attempt to index a nil value", byte
    by byte: escape is character 27, the line break character 10. *)
Definition shown_nil_index_error : string :=
  (String (ascii_of_nat 27) "[41;1m Lua error "
   ++ String (ascii_of_nat 27) "[0m"
   ++ String (ascii_of_nat 10) (String (ascii_of_nat 27) "[31m")
   ++ "attempt to index a nil value"
   ++ String (ascii_of_nat 27) "[0m"
   ++ String (ascii_of_nat 10) EmptyString)%string.

(** What [noLuaCallError] puts on the console for a result. *)
Definition error_log (res : protected_function_result) : list Event :=
  match res with
  | call_error what => [EvConsoleLog (lua_error_text what)]
  | call_valid _ => []
  end.

(** How often the original [resetGame] ran, and which hooks were run. *)
Fixpoint originals (tr : list Event) : nat :=
  match tr with
  | [] => 0
  | EvEngine CallResetGame :: tr' => S (originals tr')
  | _ :: tr' => originals tr'
  end.

Fixpoint hook_runs (tr : list Event) : list string :=
  match tr with
  | [] => []
  | EvHookRun name _ :: tr' => name :: hook_runs tr'
  | _ :: tr' => hook_runs tr'
  end.

(** A [hook.run] that fails whatever it is given. *)
Definition failing_lua : LuaState :=
  {| hook_run := Some (fun _ _ w => (call_error "attempt to index a nil value", w)) |}.

(** A [hook.run] that vetoes "ResetGame". *)
Definition vetoing_lua : LuaState :=
  {| hook_run :=
       Some (fun name _ w =>
               (call_valid (LBoolean (String.eqb name "ResetGame")), w)) |}.

(** The two entries [handleHTTPResponse] can push for a request. *)
Definition failed_response (req : LuaHTTPRequest) : LuaHTTPResponse :=
  {| resp_callback := req_callback req; resp_responded := false;
     resp_status := 0; resp_body := EmptyString; resp_headers := [] |}.

Definition completed_response (req : LuaHTTPRequest) (r : Response)
    : LuaHTTPResponse :=
  {| resp_callback := req_callback req; resp_responded := true;
     resp_status := status r; resp_body := body r;
     resp_headers := headers r |}.

(** Sample accounts. *)
Definition demo_account (subRosaID phone : Z) : Account :=
  {| Account_subRosaID := subRosaID; Account_phoneNumber := phone |}.

(** All four account slots in use. *)
Definition full_accounts : Engine :=
  {| accounts :=
       [demo_account 11 2560001; demo_account 12 2560002;
        demo_account 13 2560003; demo_account 14 2560004];
     players := players demo_engine; humans := humans demo_engine;
     items := items demo_engine; vehicles := vehicles demo_engine;
     bodies := bodies demo_engine; bonds := bonds demo_engine;
     streets := streets demo_engine;
     streetIntersections := streetIntersections demo_engine;
     numStreets := 2; numStreetIntersections := 2 |}.

(** The slot at which the account scans stop: one whose [subRosaID] is
    zero; [getByPhone] stops at a matching phone number as well. *)
Definition is_free (acc : Account) : Prop := Account_subRosaID acc = 0.

Definition stops_search (phone : Z) (acc : Account) : Prop :=
  Account_subRosaID acc = 0 \/ Account_phoneNumber acc = phone.

(** The events of [body] inside a [ScopedHookRemove] of [h]. *)
Definition scoped_events (h : Hook) (was_installed : bool) (tr : list Event)
    : list Event :=
  (if was_installed then [EvHookRemove h] else [])
  ++ tr ++ (if was_installed then [EvHookInstall h] else []).

(** The host calls of a trace, in order. *)
Fixpoint engine_calls (tr : list Event) : list EngineCall :=
  match tr with
  | [] => []
  | EvEngine c :: tr' => c :: engine_calls tr'
  | _ :: tr' => engine_calls tr'
  end.

(** The five table arrays are the same in two worlds. *)
Definition same_tables (w w' : World) : Prop :=
  forall c, dataTables c w' = dataTables c w.

(** What api.cpp relies on from the host when it creates a human: the
    arrays stay where and as long as they are, and [createHuman] answers
    [-1] or the index of a slot of the human array. *)
Record host_keeps_humans `{Host} : Prop := {
  deleteHuman_players : forall id e,
    length (players (Engine_deleteHuman id e)) = length (players e);
  deleteHuman_humans : forall id e,
    length (humans (Engine_deleteHuman id e)) = length (humans e);
  createHuman_players : forall pos rot playerID e,
    length (players (snd (Engine_createHuman pos rot playerID e)))
    = length (players e);
  createHuman_humans : forall pos rot playerID e,
    length (humans (snd (Engine_createHuman pos rot playerID e)))
    = length (humans e);
  createHuman_slot : forall pos rot playerID e,
    fst (Engine_createHuman pos rot playerID e) = -1 \/
    0 <= fst (Engine_createHuman pos rot playerID e)
      < Z.of_nat (length (humans e))
}.

(** The arrays have the extent the layout says. *)
Definition humans_fit (L : Layout) (w : World) : Prop :=
  Z.of_nat (length (players (engine w))) = capacity L CPlayer /\
  Z.of_nat (length (humans (engine w))) = capacity L CHuman /\
  Z.of_nat (length (humanDataTables w)) = capacity L CHuman.

(** Player 1 is in the game and already has human 0. *)
Definition world_with_human : World :=
  set_engine
    (set_players
       (<[1%nat := set_Player_humanID 0 (activate_player blank_player)]>
          (players demo_engine))
       (set_humans (<[0%nat := human_for 1 1]> (humans demo_engine)) demo_engine))
    demo_world.

(** Item slot 0 is free again (the host took the item away by itself) but
    its data table is still there. *)
Definition world_with_stale_table : World :=
  set_dataTables CItem
    (<[0%nat := Some [("owner"%string, LString "alice")]]> (itemDataTables demo_world))
    demo_world.

(** A network that is down. *)
#[local] Instance network_down : Network :=
  {| Client_Get := fun _ _ _ => None;
     Client_Post := fun _ _ _ _ _ => None |}.

(** The request [http.get "http" "/x" {}] queues. *)
Definition demo_request : LuaHTTPRequest :=
  {| req_type := get; req_scheme := "http"; req_path := "/x";
     req_callback := 0; req_contentType := EmptyString; req_body := EmptyString;
     req_headers := [] |}.

(** The script queues a GET, the worker takes it, the call fails, the
    worker pushes the result and lets go of the reset lock; then the
    script resets. *)
Definition demo_schedule : list HTTPThread.Choice :=
  [HTTPThread.RunScript (HTTPThread.BeginRequest demo_request);
   HTTPThread.RunScript HTTPThread.FinishRequest]
  ++ replicate 9 HTTPThread.RunWorker
  ++ [HTTPThread.RunScript HTTPThread.BeginReset;
      HTTPThread.RunScript HTTPThread.Rebuild;
      HTTPThread.RunScript HTTPThread.EndReset].

(** Who holds which mutex, and what holds of every state the two threads
    can reach. *)
Module WorkerLocks.
Import HTTPThread.

(** Which mutexes each thread holds at each point of its code. *)
Definition worker_has_reset (pc : WorkerPC) : bool :=
  match pc with
  | AtGuard | AtSleep => false
  | _ => true
  end.

Definition worker_has_request (pc : WorkerPC) : bool :=
  match pc with
  | AtEmptyTest | AtRequestUnlock _ _ => true
  | _ => false
  end.

Definition worker_has_response (pc : WorkerPC) : bool :=
  match pc with
  | AtPush _ _ _ _ | AtResponseUnlock => true
  | _ => false
  end.

Definition script_has_request (pc : ScriptPC) : bool :=
  match pc with
  | InRequestPush _ => true
  | _ => false
  end.

(** The owner of a mutex, from who is inside its critical section. *)
Definition holder (worker script : bool) : option Thread :=
  if worker then Some Worker else if script then Some Script else None.

(** The environments a worker in flight remembers are the current
    one. *)
Definition remembers (pc : WorkerPC) (env : nat) : Prop :=
  match pc with
  | AtRequestUnlock _ t | AtNetwork _ t => t = env
  | AtResponseLock _ _ t d | AtPush _ _ t d => t = env /\ d = env
  | _ => True
  end.

(** A response that saw one environment from dequeue to push. *)
Definition same_environment (d : Deposit) : Prop :=
  dep_taken_in d = dep_pushed_in d /\ dep_done_in d = dep_pushed_in d.

Record invariant (s : State) : Prop := {
  inv_reset :
    stateResetMutex s
    = holder (worker_has_reset (wpc s)) (resetting (spc s));
  inv_reset_one : worker_has_reset (wpc s) && resetting (spc s) = false;
  inv_request :
    requestQueueMutex s
    = holder (worker_has_request (wpc s)) (script_has_request (spc s));
  inv_request_one :
    worker_has_request (wpc s) && script_has_request (spc s) = false;
  inv_response :
    responseQueueMutex s = holder (worker_has_response (wpc s)) false;
  inv_remembers : remembers (wpc s) (environment s);
  inv_queue : responseQueue s = map dep_response (deposits s);
  inv_deposits : Forall same_environment (deposits s)
}.

End WorkerLocks.

(** The world's ResetGame flag is the registry's flag for the key of
    ResetGame. *)
Definition reflects (key : nat) (r : Registry) (w : World) : Prop :=
  enabledKeys r !! key = Some (enabledKeys_ResetGame w).

(** A registry of three events, all disabled. *)
Definition demo_registry : Registry :=
  {| enableNames :=
       <["ResetGame"%string := 0%nat]>
         (<["CreateItem"%string := 1%nat]>
            (<["PlayerChat"%string := 2%nat]> ∅));
     enabledKeys := [false; false; false] |}.

(** The sample world with the ResetGame event switched off. *)
Definition world_reset_disabled : World :=
  {| engine := engine demo_world; installed := installed demo_world;
     enabledKeys_ResetGame := false;
     playerDataTables := playerDataTables demo_world;
     humanDataTables := humanDataTables demo_world;
     itemDataTables := itemDataTables demo_world;
     vehicleDataTables := vehicleDataTables demo_world;
     bodyDataTables := bodyDataTables demo_world |}.

(** The slots of [arr], numbered from [i], whose record passes [keep],
    in ascending order. *)
Fixpoint slots_where {A : Type} (keep : A -> bool) (arr : list A) (i : Z)
    : list Z :=
  match arr with
  | [] => []
  | x :: arr' =>
      (if keep x then [i] else []) ++ slots_where keep arr' (i + 1)
  end.

(** What a [getCount] and a [getAll] of one category have to say to each
    other: [getAll] lists the proxies of exactly the slots whose flag is
    not zero, in ascending order of index, and [getCount] is their
    number. *)
Definition listing_ok (L : Layout) (c : Category) (flags : list Z)
    (count : outcome Z) (all : outcome (list Z)) : Prop :=
  exists slots,
    all = Ret (map (elem_addr L c) slots) /\
    count = Ret (Z.of_nat (length slots)) /\
    StronglySorted Z.lt slots /\
    (forall j, j ∈ slots <-> exists flag, zlookup flags j = Some flag /\ flag <> 0) /\
    map (getIndex L c) (map (elem_addr L c) slots) = slots.

(** The six arrays with an [active] flag have the extent of their
    [maxNumberOf] constant. *)
Definition arrays_fit (L : Layout) (e : Engine) : Prop :=
  Z.of_nat (length (players e)) = capacity L CPlayer /\
  Z.of_nat (length (humans e)) = capacity L CHuman /\
  Z.of_nat (length (items e)) = capacity L CItem /\
  Z.of_nat (length (vehicles e)) = capacity L CVehicle /\
  Z.of_nat (length (bodies e)) = capacity L CRigidBody /\
  Z.of_nat (length (bonds e)) = capacity L CBond.

(** The sample engine after a few players, humans and items have come and
    gone. *)
Definition busy_engine : Engine :=
  set_players
    [activate_player blank_player; blank_player;
     {| Player_active := 1; Player_name := "bob"; Player_subRosaID := 21;
        Player_phoneNumber := 2560021; Player_isBot := 0; Player_team := 1;
        Player_humanID := 3; Player_accountID := 1 |};
     make_bot (activate_player blank_player)]
    (set_humans [blank_human; blank_human; blank_human; human_for 2 1]
       (set_items [item_with 1; item_with 0; item_with 1; item_with 1]
          demo_engine)).

(** A list returned by a [getAll] against the [getByIndex] of the same
    namespace: entry [idx] of the list (counted from 0) is the proxy
    [getByIndex] returns for [idx], and [getByIndex] refuses exactly the
    indices past the end of the list. *)
Definition listing_matches_index (all : list Z) (byIndex : Z -> outcome Z)
    : Prop :=
  forall idx,
    0 <= idx < 2 ^ 32 ->
    (forall p, zlookup all idx = Some p <-> byIndex idx = Ret p) /\
    (zlookup all idx = None <-> byIndex idx = Throw errorOutOfRange).

(** Two streets in use, then a count the host has left negative. *)
Definition engine_with_streets (n : Z) : Engine :=
  {| accounts := accounts demo_engine; players := players demo_engine;
     humans := humans demo_engine; items := items demo_engine;
     vehicles := vehicles demo_engine; bodies := bodies demo_engine;
     bonds := bonds demo_engine; streets := streets demo_engine;
     streetIntersections := streetIntersections demo_engine;
     numStreets := n;
     numStreetIntersections := numStreetIntersections demo_engine |}.

(** Three accounts in use, the fourth slot free. *)
Definition account_with (subRosaID phone : Z) : Account :=
  {| Account_subRosaID := subRosaID; Account_phoneNumber := phone |}.

Definition engine_with_accounts : Engine :=
  {| accounts :=
       [account_with 11 2560001; account_with 12 2560002;
        account_with 13 2560002; account_with 0 0];
     players := players demo_engine;
     humans := humans demo_engine; items := items demo_engine;
     vehicles := vehicles demo_engine; bodies := bodies demo_engine;
     bonds := bonds demo_engine; streets := streets demo_engine;
     streetIntersections := streetIntersections demo_engine;
     numStreets := numStreets demo_engine;
     numStreetIntersections := numStreetIntersections demo_engine |}.

#[local] Instance Category_eq_dec : EqDecision Category.
Proof. solve_decision. Defined.

(** The table arrays are declared with the [maxNumberOf] constants, like
    the object arrays. *)
Definition tables_fit (L : Layout) (w : World) : Prop :=
  forall c, Z.of_nat (length (dataTables c w)) <= capacity L c.

(** What Lua can hand to a setter: nil, or the proxy of a slot of the
    host array. *)
Definition nil_or_slot (L : Layout) (c : Category) (p : Z) : Prop :=
  p = nullptr \/ exists i, 0 <= i < capacity L c /\ p = elem_addr L c i.

(** An API call that leaves every redirect as it found it, whether it
    returns or throws. *)
Definition keeps_hooks {A : Type} (m : M A) : Prop :=
  forall w,
    match m w with
    | Done _ w' _ | Raised _ w' _ => forall h, installed w' h = installed w h
    | Crashed => True
    end.

(** The requests of scripts on their way through [requestQueue], the
    worker and [responseQueue]. *)
Module RequestOrder.
Import HTTPThread.

(** The request the worker has taken off the queue and not yet answered. *)
Definition carried (pc : WorkerPC) : list LuaHTTPRequest :=
  match pc with
  | AtRequestUnlock req _ | AtNetwork req _ | AtResponseLock req _ _ _
  | AtPush req _ _ _ => [req]
  | _ => []
  end.

(** The response [HTTPThread] pushes for a request. *)
Definition answer `{Network} (req : LuaHTTPRequest) : LuaHTTPResponse :=
  match perform req with
  | Some r => completed_response req r
  | None => failed_response req
  end.

(** The result a worker holds is the one the network gave for the request
    it carries. *)
Definition carries_result `{Network} (pc : WorkerPC) : Prop :=
  match pc with
  | AtResponseLock req res _ _ | AtPush req res _ _ => res = perform req
  | _ => True
  end.

(** The moves api.cpp itself makes: [l_http_get] and [l_http_post] on the
    script thread, and the worker. *)
Definition api_move (c : Choice) : bool :=
  match c with
  | RunWorker | RunScript (BeginRequest _) | RunScript FinishRequest => true
  | _ => false
  end.

(** The request a move pushes on [requestQueue]. *)
Definition pushed (c : Choice) (s : State) : list LuaHTTPRequest :=
  match c, spc s with
  | RunScript FinishRequest, InRequestPush req => [req]
  | _, _ => []
  end.

(** The requests pushed along a schedule, in the order of their pushes. *)
Fixpoint submitted `{Network} (cs : list Choice) (s : State)
    : list LuaHTTPRequest :=
  match cs with
  | [] => []
  | c :: cs' =>
      match step c s with
      | Some s' => pushed c s ++ submitted cs' s'
      | None => []
      end
  end.

Definition in_order `{Network} (hist : list LuaHTTPRequest) (s : State)
    : Prop :=
  exists served,
    hist = served ++ carried (wpc s) ++ requestQueue s /\
    responseQueue s = map answer served.

(** What every step keeps. *)
Definition kept `{Network} (hist : list LuaHTTPRequest) (s : State) : Prop :=
  in_order hist s /\ carries_result (wpc s).

(** A request is queued and taken by the worker; a second one is queued
    while the first is on the network; the worker goes on for twenty
    steps. *)
Definition second_request : LuaHTTPRequest :=
  {| req_type := post; req_scheme := "http"; req_path := "/y";
     req_callback := 1; req_contentType := "text/plain"; req_body := "hello";
     req_headers := [] |}.

Definition two_requests : list Choice :=
  [RunScript (BeginRequest demo_request); RunScript FinishRequest;
   RunWorker; RunWorker; RunWorker; RunWorker;
   RunScript (BeginRequest second_request); RunScript FinishRequest]
  ++ replicate 20 RunWorker.
End RequestOrder.

(** What a create function leaves when the host answered [id]: the
    pointer to return, the host state [e'], the one host call in the
    trace, every redirect as before, slot [id] of the table array empty
    and every other slot as it was. *)
Definition created `{Host} (L : Layout) (c : Category) (call : EngineCall)
    (id : Z) (e' : Engine) (w : World) (r : result Z) : Prop :=
  exists w' tr,
    r = Done (if id =? -1 then nullptr else elem_addr L c id) w' tr /\
    engine w' = e' /\
    engine_calls tr = [call] /\
    (forall h, installed w' h = installed w h) /\
    (id <> -1 -> zlookup (dataTables c w') id = Some None) /\
    (forall j, j <> id -> zlookup (dataTables c w') j = zlookup (dataTables c w) j).

(** The host answers [-1] or the index of a slot that has a table
    entry. *)
Definition no_slot_or_in (c : Category) (w : World) (id : Z) : Prop :=
  id = -1 \/ 0 <= id < Z.of_nat (length (dataTables c w)).

(** Every item slot taken. *)
Definition busy_engine_full : Engine :=
  set_items (replicate 4 (item_with 1)) demo_engine.

(** [sprintf] writes the text and a terminating zero: it stays inside
    [char buf[size]] when the text has fewer than [size] characters. *)
Definition fits (size : Z) (text : string) : Prop :=
  Z.of_nat (String.length text) < size.

(** The largest index whose [__tostring] stays inside the buffer, for the
    classes whose buffer does not hold every [int]. *)
Definition last_printable (c : Category) : Z :=
  match c with
  | CPlayer | CStreet => 9999999
  | CHuman => 99999999
  | CItemType => 99999
  | CItem | CBond => 999999999
  | CVehicle => 999999
  | CRigidBody => 9999
  | CAccount | CStreetIntersection => 2 ^ 31 - 1
  end.

(** The thread a scheduler's choice runs. *)
Definition thread_of (c : HTTPThread.Choice) : HTTPThread.Thread :=
  match c with
  | HTTPThread.RunWorker => HTTPThread.Worker
  | HTTPThread.RunScript _ => HTTPThread.Script
  end.

(* ================================================================== *)
(** * Part III: what the program does *)
(* ================================================================== *)

(** ** Addresses and indices *)

Lemma demo_layout_wf : wf_layout demo_layout.
Proof. intros c. destruct c; simpl; lia. Qed.

Section Addresses.
Variable L : Layout.
Hypothesis HL : wf_layout L.

Lemma elem_addr_in_array (c : Category) (i : Z) :
  0 <= i < capacity L c ->
  elem_addr L c i = base L c + i * elemSize L c.
Proof.
  intros Hi. destruct (HL c) as (Hs & Hc & Hb & Hend).
  unfold elem_addr, to_uintptr. apply Z.mod_small. nia.
Qed.

Lemma elem_addr_not_null (c : Category) (i : Z) :
  0 <= i < capacity L c -> elem_addr L c i <> nullptr.
Proof.
  intros Hi. rewrite elem_addr_in_array by assumption.
  destruct (HL c) as (Hs & Hc & Hb & Hend). unfold nullptr. nia.
Qed.

Lemma index_of_elem_addr (c : Category) (i : Z) :
  0 <= i < capacity L c -> index_of L c (elem_addr L c i) = i.
Proof.
  intros Hi. destruct (HL c) as (Hs & Hc & Hb & Hend).
  unfold index_of. rewrite elem_addr_in_array by assumption.
  replace (base L c + i * elemSize L c - base L c) with (i * elemSize L c)
    by ring.
  unfold to_uintptr. rewrite Z.mod_small by nia.
  rewrite Z.div_mul by lia.
  unfold to_int. rewrite Z.mod_small by lia. ring.
Qed.

Lemma getIndex_index_of (c : Category) (p : Z) :
  getIndex L c p = index_of L c p.
Proof. destruct c; reflexivity. Qed.
End Addresses.

Lemma slot_or_throw_Ret (L : Layout) (c : Category) (bound idx p : Z) :
  slot_or_throw L c bound idx = Ret p -> p = elem_addr L c idx.
Proof.
  unfold slot_or_throw. destruct (to_uint32 bound <=? idx); congruence.
Qed.

Lemma getByIndex_Ret (L : Layout) (e : Engine) (c : Category) (idx p : Z) :
  getByIndex L e c idx = Ret p -> p = elem_addr L c idx.
Proof. destruct c; apply slot_or_throw_Ret. Qed.

(** C1. In every category, for an index [i] inside the array, the pointer
    [getByIndex(i)] returns has [getIndex() = i]. [getIndex] sees nothing
    but the pointer and the array's address: the record holds no
    identifier. *)
Theorem getIndex_of_getByIndex (L : Layout) (e : Engine) (c : Category)
    (i p : Z) :
  wf_layout L ->
  0 <= i < capacity L c ->
  getByIndex L e c i = Ret p ->
  getIndex L c p = i.
Proof.
  intros HL Hi Hp. apply getByIndex_Ret in Hp. subst p.
  rewrite getIndex_index_of. now apply index_of_elem_addr.
Qed.

Lemma getIndex_of_getByIndex_witness :
  getByIndex demo_layout demo_engine CItem 3 = Ret 20624 /\
  getIndex demo_layout CItem 20624 = 3.
Proof.
  split; [reflexivity |].
  apply (getIndex_of_getByIndex demo_layout demo_engine CItem 3 20624);
    [apply demo_layout_wf | simpl; lia | reflexivity].
Defined.

(** ** The bound of [getByIndex] *)

Lemma to_uint32_small (z : Z) : 0 <= z < 2 ^ 32 -> to_uint32 z = z.
Proof. intros Hz. unfold to_uint32. now apply Z.mod_small. Qed.

Lemma getByIndex_slot_or_throw (L : Layout) (e : Engine) (c : Category)
    (idx : Z) :
  wf_layout L ->
  getByIndex L e c idx =
    if index_bound L e c <=? idx then Throw errorOutOfRange
    else Ret (elem_addr L c idx).
Proof.
  intros HL.
  assert (Hcap : forall c', to_uint32 (capacity L c') = capacity L c').
  { intros c'. destruct (HL c') as (_ & Hc & _). apply to_uint32_small. lia. }
  destruct c; simpl;
    unfold accounts.getByIndex, players.getByIndex, humans.getByIndex,
      itemTypes.getByIndex, items.getByIndex, vehicles.getByIndex,
      rigidBodies.getByIndex, bonds.getByIndex, streets.getByIndex,
      intersections.getByIndex, slot_or_throw;
    rewrite ?Hcap; reflexivity.
Qed.

(** C4 does not hold of streets with the capacity as the bound: with two
    streets on the map and room for eight, index 2 is below the capacity
    and is refused all the same. *)
Lemma getByIndex_street_below_capacity_throws :
  wf_layout demo_layout /\
  0 <= 2 < capacity demo_layout CStreet /\
  getByIndex demo_layout demo_engine CStreet 2 = Throw errorOutOfRange.
Proof.
  split; [apply demo_layout_wf |]. split; [simpl; lia | reflexivity].
Qed.

(** C4, amended. For an [unsigned int] index, [getByIndex] raises
    "Index out of range" exactly when the index reaches the bound, and
    otherwise returns the address of that slot. The bound is the fixed
    capacity for the eight categories with a [maxNumberOf] constant and the
    live counter for streets and intersections. Nothing else of the host's
    memory is consulted: two hosts whose counters agree get the same
    answer, whatever their slots hold. *)
Theorem getByIndex_out_of_range (L : Layout) (e : Engine) (c : Category)
    (idx : Z) :
  wf_layout L ->
  0 <= idx < 2 ^ 32 ->
  (getByIndex L e c idx = Throw errorOutOfRange <-> index_bound L e c <= idx) /\
  (idx < index_bound L e c -> getByIndex L e c idx = Ret (elem_addr L c idx)) /\
  (has_max_constant c = true -> index_bound L e c = capacity L c) /\
  (forall e',
     numStreets e' = numStreets e ->
     numStreetIntersections e' = numStreetIntersections e ->
     getByIndex L e' c idx = getByIndex L e c idx).
Proof.
  intros HL Hidx.
  rewrite getByIndex_slot_or_throw by assumption.
  repeat split.
  - destruct (Z.leb_spec (index_bound L e c) idx); [trivial | discriminate].
  - intros Hle. apply Z.leb_le in Hle. now rewrite Hle.
  - intros Hlt. apply Z.leb_gt in Hlt. now rewrite Hlt.
  - destruct c; simpl; intros; congruence.
  - intros e' Hs Hi.
    rewrite getByIndex_slot_or_throw by assumption.
    replace (index_bound L e' c) with (index_bound L e c); [reflexivity |].
    destruct c; simpl; congruence.
Qed.

Lemma getByIndex_out_of_range_witness :
  (getByIndex demo_layout demo_engine CHuman 4 = Throw errorOutOfRange
   <-> index_bound demo_layout demo_engine CHuman <= 4) /\
  (4 < index_bound demo_layout demo_engine CHuman ->
   getByIndex demo_layout demo_engine CHuman 4
   = Ret (elem_addr demo_layout CHuman 4)) /\
  (has_max_constant CHuman = true ->
   index_bound demo_layout demo_engine CHuman = capacity demo_layout CHuman) /\
  (forall e',
     numStreets e' = numStreets demo_engine ->
     numStreetIntersections e' = numStreetIntersections demo_engine ->
     getByIndex demo_layout e' CHuman 4
     = getByIndex demo_layout demo_engine CHuman 4).
Proof.
  apply (getByIndex_out_of_range demo_layout demo_engine CHuman 4);
    [apply demo_layout_wf | lia].
Defined.

(** ** Relationship accessors *)

(** C5 does not hold of [Player::getAccount]: with [accountID = -1] the
    accessor returns the address one record before the array, not null. *)
Lemma getAccount_of_sentinel_not_null :
  Player_accountID stray_player = -1 /\
  Player.getAccount demo_layout stray_player = 4080 /\
  4080 <> nullptr.
Proof. repeat split. discriminate. Qed.

(** C5, amended. Each of the twelve accessors that test their stored
    reference against [-1] yields null when it is [-1]; when it is an
    index of the referenced array it yields the non-null pointer whose
    [getIndex] is that index. [Player::getAccount], [getRigidBody] of
    items and vehicles, the two bodies of a bond and the two intersections
    of a street apply no test and index the array directly. *)
Theorem sentinel_accessors (L : Layout) :
  wf_layout L ->
  (forall (p : Player) (h : Human) (i : Item) (v : Vehicle) (b : Bullet)
          (x : StreetIntersection),
     Player.getHuman L p = sentinel_deref L CHuman (Player_humanID p) /\
     Human.getPlayer L h = sentinel_deref L CPlayer (Human_playerID h) /\
     Human.getVehicle L h = sentinel_deref L CVehicle (Human_vehicleID h) /\
     Item.getGrenadePrimer L i = sentinel_deref L CPlayer (Item_grenadePrimerID i) /\
     Item.getParentHuman L i = sentinel_deref L CHuman (Item_parentHumanID i) /\
     Item.getParentItem L i = sentinel_deref L CItem (Item_parentItemID i) /\
     Vehicle.getLastDriver L v = sentinel_deref L CPlayer (Vehicle_lastDriverPlayerID v) /\
     Bullet.getPlayer L b = sentinel_deref L CPlayer (Bullet_playerID b) /\
     StreetIntersection.getStreetEast L x
       = sentinel_deref L CStreet (StreetIntersection_streetEast x) /\
     StreetIntersection.getStreetSouth L x
       = sentinel_deref L CStreet (StreetIntersection_streetSouth x) /\
     StreetIntersection.getStreetWest L x
       = sentinel_deref L CStreet (StreetIntersection_streetWest x) /\
     StreetIntersection.getStreetNorth L x
       = sentinel_deref L CStreet (StreetIntersection_streetNorth x)) /\
  (forall c, sentinel_deref L c (-1) = nullptr) /\
  (forall c ref,
     0 <= ref < capacity L c ->
     sentinel_deref L c ref = elem_addr L c ref /\
     sentinel_deref L c ref <> nullptr /\
     getIndex L c (sentinel_deref L c ref) = ref) /\
  (forall (p : Player) (i : Item) (v : Vehicle) (b : Bond) (s : Street),
     Player.getAccount L p = elem_addr L CAccount (Player_accountID p) /\
     Item.getRigidBody L i = elem_addr L CRigidBody (Item_bodyID i) /\
     Vehicle.getRigidBody L v = elem_addr L CRigidBody (Vehicle_bodyID v) /\
     Bond.getBody L b = elem_addr L CRigidBody (Bond_bodyID b) /\
     Bond.getOtherBody L b = elem_addr L CRigidBody (Bond_otherBodyID b) /\
     Street.getIntersectionA L s
       = elem_addr L CStreetIntersection (Street_intersectionA s) /\
     Street.getIntersectionB L s
       = elem_addr L CStreetIntersection (Street_intersectionB s)).
Proof.
  intros HL. split; [| split; [| split]].
  - intros. repeat split; reflexivity.
  - intros c. reflexivity.
  - intros c ref Href. unfold sentinel_deref.
    assert (Hne : (ref =? -1) = false) by (apply Z.eqb_neq; lia).
    rewrite Hne. split; [reflexivity |]. split.
    + now apply elem_addr_not_null.
    + rewrite getIndex_index_of. now apply index_of_elem_addr.
  - intros. repeat split; reflexivity.
Qed.

Lemma sentinel_accessors_witness :
  Human.getPlayer demo_layout blank_human = nullptr /\
  Human.getPlayer demo_layout (set_Human_playerID 2 blank_human) = 8320 /\
  getIndex demo_layout CPlayer 8320 = 2.
Proof.
  pose proof (sentinel_accessors demo_layout demo_layout_wf) as (_ & _ & H & _).
  destruct (H CPlayer 2) as (_ & _ & Hidx); [simpl; lia |].
  split; [reflexivity |]. split; [reflexivity |]. exact Hidx.
Defined.

(** ** The ResetGame trampoline *)

Lemma originals_app (tr1 tr2 : list Event) :
  originals (tr1 ++ tr2) = (originals tr1 + originals tr2)%nat.
Proof.
  induction tr1 as [| ev tr1 IH]; [reflexivity |].
  destruct ev as [| | | | c]; simpl; try exact IH.
  destruct c; simpl; rewrite ?IH; reflexivity.
Qed.

Lemma hook_runs_app (tr1 tr2 : list Event) :
  hook_runs (tr1 ++ tr2) = hook_runs tr1 ++ hook_runs tr2.
Proof.
  induction tr1 as [| ev tr1 IH]; [reflexivity |].
  destruct ev; simpl; rewrite ?IH; reflexivity.
Qed.

Lemma originals_original_call (b : bool) : originals (original_call b) = 1%nat.
Proof. destruct b; reflexivity. Qed.

Lemma hook_runs_original_call (b : bool) : hook_runs (original_call b) = [].
Proof. destruct b; reflexivity. Qed.

Lemma originals_error_log (res : protected_function_result) :
  originals (error_log res) = 0%nat.
Proof. destruct res; reflexivity. Qed.

Lemma hook_runs_error_log (res : protected_function_result) :
  hook_runs (error_log res) = [].
Proof. destruct res; reflexivity. Qed.

#[local] Arguments ScopedHookRemove : simpl never.

(** Two laws of the monad, used to step through the functions. *)
Lemma bind_get_world {A : Type} (k : World -> M A) (w : World) :
  (w0 <- get_world ;; k w0) w = k w w.
Proof. unfold bind, get_world. destruct (k w w); reflexivity. Qed.

Lemma bind_Done {A B : Type} (m : M A) (k : A -> M B) (w w1 : World)
    (a : A) (tr1 : list Event) :
  m w = Done a w1 tr1 ->
  (x <- m ;; k x) w =
    match k a w1 with
    | Done b w2 tr2 => Done b w2 (tr1 ++ tr2)
    | Raised what w2 tr2 => Raised what w2 (tr1 ++ tr2)
    | Crashed => Crashed
    end.
Proof. intros E. unfold bind. now rewrite E. Qed.

Ltac count_events :=
  repeat progress
    (cbn [originals hook_runs];
     rewrite ?originals_app, ?hook_runs_app, ?originals_original_call,
       ?hook_runs_original_call, ?originals_error_log, ?hook_runs_error_log);
  reflexivity.

Section TrampolineFacts.
Context `{Host} (lua : LuaState).

(** The bracketed call of the original, on any world. *)
Lemma scoped_resetGame (w : World) :
  exists w',
    ScopedHookRemove resetGameHook
      (run_engine CallResetGame Engine_resetGame) w
    = Done tt w' (original_call (installed w resetGameHook)) /\
    engine w' = Engine_resetGame (engine w) /\
    installed w' resetGameHook = installed w resetGameHook /\
    enabledKeys_ResetGame w' = enabledKeys_ResetGame w.
Proof.
  unfold ScopedHookRemove, run_engine, original_call.
  destruct (installed w resetGameHook) eqn:Hi; simpl;
    eexists; (split; [reflexivity |]); simpl; auto.
Qed.

Lemma noLuaCallError_log (res : protected_function_result) (w : World) :
  noLuaCallError res w = Done (valid res) w (error_log res).
Proof. destruct res; reflexivity. Qed.

(** The older revision is the enabled branch of the current one. *)
Lemma hookAndReset_old_enabled (reason : Z) (w : World) :
  enabledKeys_ResetGame w = true ->
  hookAndReset_old lua reason w = hookAndReset lua reason w.
Proof.
  intros He. unfold hookAndReset, hookAndReset_old.
  rewrite bind_get_world, He. reflexivity.
Qed.
End TrampolineFacts.


Example hookAndReset_vetoed :
  exists w', hookAndReset vetoing_lua 3 demo_world
             = Done tt w' [EvHookRun "ResetGame" 3].
Proof. eexists. reflexivity. Qed.

Example hookAndReset_failing :
  exists w',
    hookAndReset failing_lua 3 demo_world
    = Done tt w'
        [EvHookRun "ResetGame" 3;
         EvConsoleLog (lua_error_text "attempt to index a nil value");
         EvHookRemove resetGameHook; EvEngine CallResetGame;
         EvHookInstall resetGameHook;
         EvHookRun "PostResetGame" 3;
         EvConsoleLog (lua_error_text "attempt to index a nil value")].
Proof. eexists. reflexivity. Qed.

(** C6. When the "ResetGame" callback fails, [noLuaCallError] writes the
    error to the console and answers false. The text on the console is
    what [printLuaError] composes: the banner " Lua error " on a red
    ground, a line break, and the error's own message in red. The
    trampoline goes on as if the callback had not vetoed: the original
    runs once, "PostResetGame" is run, a failure of that one is logged
    the same way, and the trampoline returns normally. *)
Theorem hookAndReset_callback_error `{Host} (lua : LuaState) (reason : Z)
    (w w1 : World)
    (f : string -> Z -> World -> protected_function_result * World)
    (what : string) :
  enabledKeys_ResetGame w = true ->
  hook_run lua = Some f ->
  f "ResetGame"%string reason w = (call_error what, w1) ->
  let esc := String (ascii_of_nat 27) EmptyString in
  let nl := String (ascii_of_nat 10) EmptyString in
  let shown := fun message : string =>
    (esc ++ "[41;1m Lua error " ++ esc ++ "[0m" ++ nl
     ++ esc ++ "[31m" ++ message ++ esc ++ "[0m" ++ nl)%string in
  noLuaCallError (call_error what) w1
    = Done false w1 [EvConsoleLog (shown what)] /\
  exists w2 w' tr,
    hookAndReset lua reason w = Done tt w' tr /\
    engine w2 = Engine_resetGame (engine w1) /\
    w' = snd (f "PostResetGame"%string reason w2) /\
    tr = [EvHookRun "ResetGame" reason; EvConsoleLog (shown what)]
         ++ original_call (installed w1 resetGameHook)
         ++ [EvHookRun "PostResetGame" reason]
         ++ match fst (f "PostResetGame"%string reason w2) with
            | call_error what2 => [EvConsoleLog (shown what2)]
            | call_valid _ => []
            end /\
    originals tr = 1%nat.
Proof.
  intros Hen Hf Epre esc nl shown.
  assert (Hlog : forall res,
            error_log res
            = match res with
              | call_error what2 => [EvConsoleLog (shown what2)]
              | call_valid _ => []
              end).
  { intros [v | what2]; reflexivity. }
  split; [reflexivity |].
  unfold hookAndReset. rewrite bind_get_world, Hen, Hf.
  unfold bind, call_hook_run. rewrite Epre. cbn.
  destruct (scoped_resetGame w1) as (w2 & E & He & _). rewrite E.
  destruct (f "PostResetGame"%string reason w2) as [res2 w3] eqn:Epost.
  rewrite noLuaCallError_log. unfold ret.
  exists w2. eexists _, _. split; [reflexivity |]. rewrite Epost. cbn.
  split; [exact He |]. split; [reflexivity |].
  rewrite <- Hlog. change (shown what) with (lua_error_text what). split.
  - now rewrite ?app_nil_r, <- ?app_assoc.
  - count_events.
Qed.

Lemma hookAndReset_callback_error_witness :
  exists w2 w' tr,
    hookAndReset failing_lua 3 demo_world = Done tt w' tr /\
    engine w2 = Engine_resetGame (engine demo_world) /\
    w' = w2 /\
    tr = [EvHookRun "ResetGame" 3; EvConsoleLog shown_nil_index_error]
         ++ original_call true
         ++ [EvHookRun "PostResetGame" 3]
         ++ [EvConsoleLog shown_nil_index_error] /\
    originals tr = 1%nat.
Proof.
  exact (proj2 (hookAndReset_callback_error failing_lua 3 demo_world demo_world
                  (fun _ _ w => (call_error "attempt to index a nil value", w))
                  "attempt to index a nil value" eq_refl eq_refl eq_refl)).
Defined.

(** ** HTTP results *)

Lemma handleSyncHTTPResponse_nil (res : Result) :
  handleSyncHTTPResponse res = LNil <-> res = None.
Proof. destruct res; simpl; split; congruence. Qed.


(** ** Scanning the accounts *)

(** C10 does not hold of [getByPhone] with a zero [subRosaID] as the only
    stop: the scan also stops at a slot whose phone number matches. With
    every slot in use it finds the account in slot 2 and returns, all
    reads inside the array, though no slot has [subRosaID] zero;
    [getCount] on the same array runs off its end. *)
Lemma getByPhone_returns_without_free_slot :
  Z.of_nat (length (accounts full_accounts)) = capacity demo_layout CAccount /\
  Forall (fun acc => Account_subRosaID acc <> 0) (accounts full_accounts) /\
  accounts.getByPhone demo_layout full_accounts 2560003
  = Ret (elem_addr demo_layout CAccount 2) /\
  accounts.getCount full_accounts = Undefined.
Proof.
  split; [reflexivity |]. split; [| split; reflexivity].
  repeat constructor; discriminate.
Qed.

Lemma getCount_loop_cases (rest : list Account) (count : Z) :
  (Exists is_free rest /\ exists n, accounts.getCount_loop rest count = Ret n)
  \/ (~ Exists is_free rest /\ accounts.getCount_loop rest count = Undefined).
Proof.
  revert count. induction rest as [| acc rest IH]; intros count; simpl.
  - right. split; [| reflexivity]. intros HE. inversion HE.
  - destruct (Z.eqb_spec (Account_subRosaID acc) 0) as [Hz | Hnz].
    + left. split; [now constructor | eauto].
    + destruct (IH (count + 1)) as [[HE Hn] | [HE Hu]].
      * left. split; [now apply Exists_cons_tl | exact Hn].
      * right. split; [| exact Hu].
        intros HE'. inversion HE'; subst; contradiction.
Qed.

Lemma getAll_loop_cases (L : Layout) (rest : list Account) (i : Z) :
  (Exists is_free rest /\ exists arr, accounts.getAll_loop L rest i = Ret arr)
  \/ (~ Exists is_free rest /\ accounts.getAll_loop L rest i = Undefined).
Proof.
  revert i. induction rest as [| acc rest IH]; intros i; simpl.
  - right. split; [| reflexivity]. intros HE. inversion HE.
  - destruct (Z.eqb_spec (Account_subRosaID acc) 0) as [Hz | Hnz].
    + left. split; [now constructor | eauto].
    + destruct (IH (i + 1)) as [[HE [arr Hn]] | [HE Hu]].
      * left. split; [now apply Exists_cons_tl |]. rewrite Hn. eauto.
      * right. split; [| now rewrite Hu].
        intros HE'. inversion HE'; subst; contradiction.
Qed.

Lemma getByPhone_loop_cases (L : Layout) (phone : Z) (rest : list Account)
    (i : Z) :
  (Exists (stops_search phone) rest
   /\ exists p, accounts.getByPhone_loop L phone rest i = Ret p)
  \/ (~ Exists (stops_search phone) rest
      /\ accounts.getByPhone_loop L phone rest i = Undefined).
Proof.
  revert i. induction rest as [| acc rest IH]; intros i; simpl.
  - right. split; [| reflexivity]. intros HE. inversion HE.
  - destruct (Z.eqb_spec (Account_subRosaID acc) 0) as [Hz | Hnz].
    + left. split; [constructor; now left | eauto].
    + destruct (Z.eqb_spec (Account_phoneNumber acc) phone) as [Hp | Hnp].
      * left. split; [constructor; now right | eauto].
      * destruct (IH (i + 1)) as [[HE Hn] | [HE Hu]].
        -- left. split; [now apply Exists_cons_tl | exact Hn].
        -- right. split; [| exact Hu].
           intros HE'. inversion HE' as [? ? [Hs | Hs] | ]; subst; contradiction.
Qed.

(** The count returned is the index of the first free slot. *)
Lemma getCount_loop_first_free (rest : list Account) (count n : Z) :
  accounts.getCount_loop rest count = Ret n ->
  count <= n /\
  (exists acc, zlookup rest (n - count) = Some acc /\ is_free acc) /\
  (forall j acc, 0 <= j < n - count -> zlookup rest j = Some acc -> ~ is_free acc).
Proof.
  revert count. induction rest as [| acc rest IH]; intros count; simpl.
  - discriminate.
  - destruct (Z.eqb_spec (Account_subRosaID acc) 0) as [Hz | Hnz].
    + intros [= <-]. split; [lia |]. split.
      * exists acc. rewrite Z.sub_diag. split; [reflexivity | exact Hz].
      * intros j acc' Hj. lia.
    + intros Hn. destruct (IH _ Hn) as (Hle & (a & Ha & Hfree) & Hbefore).
      split; [lia |]. split.
      * exists a. split; [| exact Hfree].
        unfold zlookup in *.
        destruct (Z.ltb_spec (n - (count + 1)) 0); [discriminate |].
        destruct (Z.ltb_spec (n - count) 0); [lia |].
        replace (Z.to_nat (n - count)) with (S (Z.to_nat (n - (count + 1))))
          by lia.
        exact Ha.
      * intros j acc' Hj Hl.
        destruct (Z.eq_dec j 0) as [-> | Hj0].
        -- unfold zlookup in Hl. simpl in Hl. injection Hl as <-. exact Hnz.
        -- apply (Hbefore (j - 1) acc'); [lia |].
           unfold zlookup in *.
           destruct (Z.ltb_spec j 0); [lia |].
           destruct (Z.ltb_spec (j - 1) 0); [lia |].
           replace (Z.to_nat j) with (S (Z.to_nat (j - 1))) in Hl by lia.
           exact Hl.
Qed.

Example getCount_demo : accounts.getCount demo_engine = Ret 0.
Proof. reflexivity. Qed.

Example getByPhone_miss_full :
  accounts.getByPhone demo_layout full_accounts 2569999 = Undefined.
Proof. reflexivity. Qed.

(** C10, amended. [getCount] and [getAll] scan from slot 0 with no
    capacity bound and stop only at the first slot whose [subRosaID] is
    zero: they return, with every read inside the array, exactly when the
    array has such a slot, and run off its end otherwise; the count is the
    index of the first such slot. [getByPhone] also stops at the first
    slot whose phone number matches, so it returns exactly when the array
    has a slot that is free or matches. [getByIndex] never reads outside
    the array: it compares the index with the capacity first. *)
Theorem accounts_scans_unbounded (L : Layout) (e : Engine) :
  ((exists n, accounts.getCount e = Ret n) <-> Exists is_free (accounts e)) /\
  (~ Exists is_free (accounts e) -> accounts.getCount e = Undefined) /\
  (forall n,
     accounts.getCount e = Ret n ->
     0 <= n /\
     (exists acc, zlookup (accounts e) n = Some acc /\ is_free acc) /\
     (forall j acc,
        0 <= j < n -> zlookup (accounts e) j = Some acc -> ~ is_free acc)) /\
  ((exists arr, accounts.getAll L e = Ret arr) <-> Exists is_free (accounts e)) /\
  (~ Exists is_free (accounts e) -> accounts.getAll L e = Undefined) /\
  (forall phone,
     ((exists p, accounts.getByPhone L e phone = Ret p)
      <-> Exists (stops_search phone) (accounts e)) /\
     (~ Exists (stops_search phone) (accounts e) ->
      accounts.getByPhone L e phone = Undefined)) /\
  (forall idx,
     accounts.getByIndex L idx <> Undefined /\
     (wf_layout L -> 0 <= idx < 2 ^ 32 ->
      (accounts.getByIndex L idx = Throw errorOutOfRange
       <-> capacity L CAccount <= idx))).
Proof.
  unfold accounts.getCount, accounts.getAll, accounts.getByPhone.
  split; [| split; [| split; [| split; [| split; [| split]]]]].
  - destruct (getCount_loop_cases (accounts e) 0) as [[HE Hn] | [HE Hu]].
    + tauto.
    + rewrite Hu. split; [intros [n Hn]; discriminate | tauto].
  - intros HE.
    destruct (getCount_loop_cases (accounts e) 0) as [[HE' _] | [_ Hu]];
      [contradiction | exact Hu].
  - intros n Hn. apply getCount_loop_first_free in Hn.
    rewrite Z.sub_0_r in Hn. exact Hn.
  - destruct (getAll_loop_cases L (accounts e) 0) as [[HE Hn] | [HE Hu]].
    + tauto.
    + rewrite Hu. split; [intros [n Hn]; discriminate | tauto].
  - intros HE.
    destruct (getAll_loop_cases L (accounts e) 0) as [[HE' _] | [_ Hu]];
      [contradiction | exact Hu].
  - intros phone. split.
    + destruct (getByPhone_loop_cases L phone (accounts e) 0)
        as [[HE Hn] | [HE Hu]].
      * tauto.
      * rewrite Hu. split; [intros [n Hn]; discriminate | tauto].
    + intros HE.
      destruct (getByPhone_loop_cases L phone (accounts e) 0)
        as [[HE' _] | [_ Hu]]; [contradiction | exact Hu].
  - intros idx. split.
    + unfold accounts.getByIndex, slot_or_throw.
      destruct (_ <=? idx); discriminate.
    + intros HL Hidx.
      pose proof (getByIndex_slot_or_throw L e CAccount idx HL) as Hg.
      simpl in Hg. rewrite Hg.
      destruct (Z.leb_spec (capacity L CAccount) idx); split;
        (trivial || discriminate || lia).
Qed.

(** ** Stepping through calls that change the world *)

Lemma engine_calls_app (tr1 tr2 : list Event) :
  engine_calls (tr1 ++ tr2) = engine_calls tr1 ++ engine_calls tr2.
Proof.
  induction tr1 as [| ev tr1 IH]; [reflexivity |].
  destruct ev; simpl; rewrite ?IH; reflexivity.
Qed.

Lemma engine_calls_scoped (h : Hook) (b : bool) (tr : list Event) :
  engine_calls (scoped_events h b tr) = engine_calls tr.
Proof.
  unfold scoped_events. rewrite !engine_calls_app.
  destruct b; simpl; now rewrite app_nil_r.
Qed.

Lemma same_tables_refl (w : World) : same_tables w w.
Proof. intros c. reflexivity. Qed.

Lemma same_tables_trans (w1 w2 w3 : World) :
  same_tables w1 w2 -> same_tables w2 w3 -> same_tables w1 w3.
Proof. intros H12 H23 c. now rewrite H23, H12. Qed.

Lemma same_tables_set_engine (e : Engine) (w : World) :
  same_tables w (set_engine e w).
Proof. intros c. destruct c; reflexivity. Qed.

Lemma same_tables_set_installed (h : Hook) (b : bool) (w : World) :
  same_tables w (set_installed h b w).
Proof. intros c. destruct c; reflexivity. Qed.

Lemma zlookup_in_range {A : Type} (l : list A) (i : Z) :
  0 <= i < Z.of_nat (length l) -> exists x, zlookup l i = Some x.
Proof.
  intros Hi. unfold zlookup.
  destruct (Z.ltb_spec i 0); [lia |].
  destruct (lookup_lt_is_Some_2 l (Z.to_nat i)) as [x Hx]; [lia | eauto].
Qed.

Lemma zlookup_Some_range {A : Type} (l : list A) (i : Z) (x : A) :
  zlookup l i = Some x -> 0 <= i < Z.of_nat (length l).
Proof.
  unfold zlookup. destruct (Z.ltb_spec i 0); [discriminate |].
  intros Hx. apply lookup_lt_Some in Hx. lia.
Qed.

Lemma zupdate_in_range {A : Type} (l : list A) (i : Z) (x : A) :
  0 <= i < Z.of_nat (length l) ->
  zupdate l i x = Some (<[Z.to_nat i := x]> l).
Proof.
  intros Hi. unfold zupdate.
  destruct (Z.leb_spec 0 i); [| lia].
  destruct (Z.ltb_spec i (Z.of_nat (length l))); [reflexivity | lia].
Qed.

Lemma zlookup_insert_eq {A : Type} (l : list A) (i : Z) (x : A) :
  0 <= i < Z.of_nat (length l) ->
  zlookup (<[Z.to_nat i := x]> l) i = Some x.
Proof.
  intros Hi. unfold zlookup. destruct (Z.ltb_spec i 0); [lia |].
  apply list_lookup_insert_eq. lia.
Qed.

Lemma zlookup_insert_ne {A : Type} (l : list A) (i j : Z) (x : A) :
  0 <= i -> 0 <= j -> i <> j ->
  zlookup (<[Z.to_nat i := x]> l) j = zlookup l j.
Proof.
  intros Hi Hj Hne. unfold zlookup. destruct (Z.ltb_spec j 0); [lia |].
  apply list_lookup_insert_ne. lia.
Qed.

Section WorldSteps.
Context `{Host} (L : Layout).
Hypothesis HL : wf_layout L.

Lemma slot_of_elem_addr (c : Category) (i : Z) (w : World) :
  0 <= i < capacity L c ->
  slot_of L c (elem_addr L c i) w = Done i w [].
Proof.
  intros Hi. unfold slot_of.
  rewrite (index_of_elem_addr L HL c i Hi), Z.eqb_refl. reflexivity.
Qed.

Lemma scoped_run_engine (h : Hook) (c : EngineCall) (f : Engine -> Engine)
    (w : World) :
  exists w',
    ScopedHookRemove h (run_engine c f) w
    = Done tt w' (scoped_events h (installed w h) [EvEngine c]) /\
    engine w' = f (engine w) /\ same_tables w w'.
Proof.
  unfold ScopedHookRemove, run_engine, scoped_events.
  destruct (installed w h); cbn; eexists;
    (split; [reflexivity |]); split; try reflexivity;
    intros c'; destruct c'; reflexivity.
Qed.

Lemma scoped_call_engine {A : Type} (h : Hook) (c : EngineCall)
    (f : Engine -> A * Engine) (w : World) :
  exists w',
    ScopedHookRemove h (call_engine c f) w
    = Done (fst (f (engine w))) w'
        (scoped_events h (installed w h) [EvEngine c]) /\
    engine w' = snd (f (engine w)) /\ same_tables w w'.
Proof.
  unfold ScopedHookRemove, call_engine, scoped_events.
  destruct (installed w h); cbn; destruct (f (engine w)) as [a e']; cbn;
    eexists; (split; [reflexivity |]); split; try reflexivity;
    intros c'; destruct c'; reflexivity.
Qed.

(** Clearing a slot of a table array that has the slot. *)
Lemma clearDataTable_in_range (c : Category) (id : Z) (w : World) :
  0 <= id < Z.of_nat (length (dataTables c w)) ->
  exists w',
    clearDataTable c id w = Done tt w' [] /\
    engine w' = engine w /\
    zlookup (dataTables c w') id = Some None /\
    length (dataTables c w') = length (dataTables c w).
Proof.
  intros Hid. unfold clearDataTable. rewrite bind_get_world.
  destruct (zlookup_in_range _ _ Hid) as [[t |] Hx]; rewrite Hx.
  - unfold bind, lift_option. rewrite zupdate_in_range by assumption.
    cbn. eexists. split; [reflexivity |]. split; [reflexivity |].
    destruct c; cbn in *;
      (split; [now apply zlookup_insert_eq | now rewrite length_insert])
      || (exfalso; lia).
  - exists w. repeat split. exact Hx.
Qed.

Lemma write_human_at_in_range (i : Z) (f : Human -> Human) (w : World) :
  0 <= i < Z.of_nat (length (humans (engine w))) ->
  exists h w',
    zlookup (humans (engine w)) i = Some h /\
    write_human_at i f w = Done tt w' [] /\
    humans (engine w') = <[Z.to_nat i := f h]> (humans (engine w)) /\
    players (engine w') = players (engine w) /\
    same_tables w w'.
Proof.
  intros Hi. destruct (zlookup_in_range _ _ Hi) as [h Hh].
  exists h. eexists. split; [exact Hh |].
  unfold write_human_at. rewrite bind_get_world.
  unfold bind, lift_option. rewrite Hh. cbn.
  rewrite zupdate_in_range by assumption. cbn.
  split; [reflexivity |].
  split; [reflexivity |]. split; [reflexivity |].
  intros c; destruct c; reflexivity.
Qed.

Lemma write_player_at_in_range (i : Z) (f : Player -> Player) (w : World) :
  0 <= i < Z.of_nat (length (players (engine w))) ->
  exists p w',
    zlookup (players (engine w)) i = Some p /\
    write_player_at i f w = Done tt w' [] /\
    players (engine w') = <[Z.to_nat i := f p]> (players (engine w)) /\
    humans (engine w') = humans (engine w) /\
    same_tables w w'.
Proof.
  intros Hi. destruct (zlookup_in_range _ _ Hi) as [p Hp].
  exists p. eexists. split; [exact Hp |].
  unfold write_player_at. rewrite bind_get_world.
  unfold bind, lift_option. rewrite Hp. cbn.
  rewrite zupdate_in_range by assumption. cbn.
  split; [reflexivity |].
  split; [reflexivity |]. split; [reflexivity |].
  intros c; destruct c; reflexivity.
Qed.
End WorldSteps.

(** ** Creating a human for a player *)

Section HumansCreate.
Context `{Host} (L : Layout).
Hypothesis HL : wf_layout L.

Lemma read_player_elem_addr (pid : Z) (w : World) :
  0 <= pid < capacity L CPlayer ->
  Z.of_nat (length (players (engine w))) = capacity L CPlayer ->
  exists p0,
    zlookup (players (engine w)) pid = Some p0 /\
    read_player L (elem_addr L CPlayer pid) w = Done p0 w [].
Proof.
  intros Hpid Hlen.
  destruct (zlookup_in_range (players (engine w)) pid) as [p0 Hp0]; [lia |].
  exists p0. split; [exact Hp0 |].
  unfold read_player.
  rewrite (bind_Done _ _ _ _ _ _ (slot_of_elem_addr L HL CPlayer pid w Hpid)).
  rewrite bind_get_world, Hp0. reflexivity.
Qed.

Lemma write_player_elem_addr (pid : Z) (f : Player -> Player) (w : World) :
  0 <= pid < capacity L CPlayer ->
  write_player L (elem_addr L CPlayer pid) f w = write_player_at pid f w.
Proof.
  intros Hpid. unfold write_player.
  rewrite (bind_Done _ _ _ _ _ _ (slot_of_elem_addr L HL CPlayer pid w Hpid)).
  destruct (write_player_at pid f w); reflexivity.
Qed.
End HumansCreate.


Lemma first_inactive_range {A : Type} (active : A -> Z) (l : list A)
    (start i : Z) :
  first_inactive active l start = Some i ->
  start <= i < start + Z.of_nat (length l).
Proof.
  revert start. induction l as [| x l IH]; intros start; simpl.
  - discriminate.
  - destruct (active x =? 0).
    + intros [= <-]. lia.
    + intros Hi. apply IH in Hi. lia.
Qed.

Lemma demo_host_keeps_humans : host_keeps_humans.
Proof.
  constructor; intros; cbn.
  - reflexivity.
  - apply length_insert.
  - destruct (first_inactive Human_active (humans e) 0); reflexivity.
  - destruct (first_inactive Human_active (humans e) 0); cbn;
      [apply length_insert | reflexivity].
  - destruct (first_inactive Human_active (humans e) 0) as [i |] eqn:Hi; cbn.
    + right. apply first_inactive_range in Hi. lia.
    + now left.
Qed.

Example humans_create_replaces :
  exists w',
    @humans.create demo_host demo_layout tt tt (elem_addr demo_layout CPlayer 1)
      world_with_human
    = Done (elem_addr demo_layout CHuman 0) w'
        [EvHookRemove deleteHumanHook; EvEngine (CallDeleteHuman 0);
         EvHookInstall deleteHumanHook;
         EvHookRemove createHumanHook; EvEngine (CallCreateHuman 1);
         EvHookInstall createHumanHook] /\
    Human_playerID <$> zlookup (humans (engine w')) 0 = Some 1 /\
    Player_humanID <$> zlookup (players (engine w')) 1 = Some 0.
Proof.
  eexists. split; [vm_compute; reflexivity |]. split; vm_compute; reflexivity.
Qed.


(** ** Data tables across create and remove *)

Lemma bind_Done_inv {A B : Type} (m : M A) (k : A -> M B) (w w2 : World)
    (b : B) (tr : list Event) :
  (x <- m ;; k x) w = Done b w2 tr ->
  exists a w1 tr1 tr2,
    m w = Done a w1 tr1 /\ k a w1 = Done b w2 tr2 /\ tr = tr1 ++ tr2.
Proof.
  unfold bind. destruct (m w) as [a w1 tr1 | |]; try discriminate.
  destruct (k a w1) as [b' w2' tr2 | |] eqn:Ek; try discriminate.
  intros [= -> -> <-]. eauto 10.
Qed.

Lemma scoped_Done_inv {A : Type} (h : Hook) (body : M A) (w w' : World)
    (a : A) (tr : list Event) :
  ScopedHookRemove h body w = Done a w' tr ->
  exists w0 w1 tr0,
    same_tables w w0 /\ body w0 = Done a w1 tr0 /\ same_tables w1 w'.
Proof.
  unfold ScopedHookRemove.
  destruct (installed w h).
  - destruct (body (set_installed h false w)) as [a' w1 tr0 | |] eqn:Eb;
      try discriminate.
    intros [= -> <- <-]. exists (set_installed h false w), w1, tr0.
    split; [apply same_tables_set_installed |].
    split; [exact Eb | apply same_tables_set_installed].
  - destruct (body w) as [a' w1 tr0 | |] eqn:Eb; try discriminate.
    intros [= -> <- <-]. exists w, w1, tr0.
    split; [apply same_tables_refl |].
    split; [exact Eb | apply same_tables_refl].
Qed.

Lemma clearDataTable_Done (c : Category) (id : Z) (w w' : World)
    (tr : list Event) :
  clearDataTable c id w = Done tt w' tr ->
  zlookup (dataTables c w') id = Some None.
Proof.
  unfold clearDataTable. rewrite bind_get_world.
  destruct (zlookup (dataTables c w) id) as [[t |] |] eqn:Hx.
  - unfold bind, lift_option.
    destruct (zupdate (dataTables c w) id None) as [ts |] eqn:Hu;
      [| discriminate].
    cbn. intros [= <- <-].
    unfold zupdate in Hu.
    destruct ((0 <=? id) && (id <? Z.of_nat (length (dataTables c w)))) eqn:Hr;
      [| discriminate].
    injection Hu as <-.
    apply andb_true_iff in Hr as [H0 H1].
    apply Z.leb_le in H0. apply Z.ltb_lt in H1.
    destruct c; cbn in *; (now apply zlookup_insert_eq) || (exfalso; lia).
  - intros [= <- <-]. exact Hx.
  - discriminate.
Qed.

Lemma run_engine_tables (c : EngineCall) (f : Engine -> Engine)
    (w w' : World) (tr : list Event) :
  run_engine c f w = Done tt w' tr -> same_tables w w'.
Proof. intros [= <- <-]. apply same_tables_set_engine. Qed.

Lemma call_engine_tables {A : Type} (c : EngineCall) (f : Engine -> A * Engine)
    (w w' : World) (a : A) (tr : list Event) :
  call_engine c f w = Done a w' tr -> same_tables w w'.
Proof.
  unfold call_engine. destruct (f (engine w)) as [a' e'].
  intros [= <- <- <-]. apply same_tables_set_engine.
Qed.

Lemma write_player_at_tables (i : Z) (f : Player -> Player) (w w' : World)
    (tr : list Event) :
  write_player_at i f w = Done tt w' tr -> same_tables w w'.
Proof.
  unfold write_player_at. rewrite bind_get_world.
  unfold bind, lift_option.
  destruct (zlookup (players (engine w)) i); [| discriminate]. cbn.
  destruct (zupdate (players (engine w)) i (f p)); [| discriminate]. cbn.
  intros [= <- <-]. apply same_tables_set_engine.
Qed.

Lemma write_human_at_tables (i : Z) (f : Human -> Human) (w w' : World)
    (tr : list Event) :
  write_human_at i f w = Done tt w' tr -> same_tables w w'.
Proof.
  unfold write_human_at. rewrite bind_get_world.
  unfold bind, lift_option.
  destruct (zlookup (humans (engine w)) i); [| discriminate]. cbn.
  destruct (zupdate (humans (engine w)) i (f h)); [| discriminate]. cbn.
  intros [= <- <-]. apply same_tables_set_engine.
Qed.

Lemma write_player_tables (L : Layout) (ply : Z) (f : Player -> Player)
    (w w' : World) (tr : list Event) :
  write_player L ply f w = Done tt w' tr -> same_tables w w'.
Proof.
  unfold write_player. intros Hd.
  apply bind_Done_inv in Hd as (i & w1 & tr1 & tr2 & Hs & Hw & _).
  unfold slot_of in Hs. destruct (_ =? ply); [| discriminate].
  injection Hs as <- <- <-. now apply write_player_at_tables in Hw.
Qed.

Section Cleared.
Context `{Host} (L : Layout).

(** The remove methods leave the slot without a table. *)
Lemma remove_clears (c : Category) (this : Z) (w w' : World)
    (tr : list Event) :
  match c with
  | CPlayer => Player.remove L this w = Done tt w' tr
  | CHuman => Human.remove L this w = Done tt w' tr
  | CItem => Item.remove L this w = Done tt w' tr
  | CVehicle => Vehicle.remove L this w = Done tt w' tr
  | _ => False
  end ->
  zlookup (dataTables c w') (getIndex L c this) = Some None.
Proof.
  destruct c; try contradiction;
    unfold Player.remove, Human.remove, Item.remove, Vehicle.remove;
    intros Hd; cbn [getIndex].
  - apply scoped_Done_inv in Hd as (w0 & w1 & tr0 & _ & Hd & Ht).
    apply bind_Done_inv in Hd as ([] & w2 & tr1 & tr2 & _ & Hc & _).
    rewrite (Ht CPlayer). now apply clearDataTable_Done in Hc.
  - apply scoped_Done_inv in Hd as (w0 & w1 & tr0 & _ & Hd & Ht).
    apply bind_Done_inv in Hd as ([] & w2 & tr1 & tr2 & _ & Hc & _).
    rewrite (Ht CHuman). now apply clearDataTable_Done in Hc.
  - apply scoped_Done_inv in Hd as (w0 & w1 & tr0 & _ & Hd & Ht).
    apply bind_Done_inv in Hd as ([] & w2 & tr1 & tr2 & _ & Hc & _).
    rewrite (Ht CItem). now apply clearDataTable_Done in Hc.
  - apply bind_Done_inv in Hd as ([] & w2 & tr1 & tr2 & _ & Hc & _).
    now apply clearDataTable_Done in Hc.
Qed.

(** The common tail of the item and vehicle create functions. *)
Lemma clear_then_return (c : Category) (id : Z) (w w' : World)
    (p : Z) (tr : list Event) :
  ((if id =? -1 then ret tt else clearDataTable c id) ;;;
   ret (if id =? -1 then nullptr else elem_addr L c id)) w = Done p w' tr ->
  p <> nullptr ->
  p = elem_addr L c id /\ zlookup (dataTables c w') id = Some None.
Proof.
  intros Hd Hp.
  apply bind_Done_inv in Hd as ([] & w1 & tr1 & tr2 & Hc & Hr & _).
  injection Hr as <- <- <-.
  destruct (id =? -1); [contradiction |].
  split; [reflexivity | now apply clearDataTable_Done in Hc].
Qed.

(** Every create function but [items::createRope] hands back a slot
    without a table. *)
Lemma createVel_clears (type : Z) (pos : Vector) (vel : option Vector)
    (rot : RotMatrix) (w w' : World) (p : Z) (tr : list Event) :
  items.createVel L type pos vel rot w = Done p w' tr ->
  p <> nullptr ->
  exists id, p = elem_addr L CItem id /\ zlookup (itemDataTables w') id = Some None.
Proof.
  unfold items.createVel. intros Hd Hp.
  apply scoped_Done_inv in Hd as (w0 & w1 & tr0 & _ & Hd & Ht).
  destruct (type =? nullptr); [discriminate |].
  apply bind_Done_inv in Hd as (id & w2 & tr1 & tr2 & _ & Hd & _).
  apply clear_then_return in Hd as [-> Hc]; [| exact Hp].
  exists id. split; [reflexivity |].
  pose proof (Ht CItem) as HtI. cbn in HtI. now rewrite HtI.
Qed.

Lemma vehicles_createVel_clears (type : Z) (pos : Vector)
    (vel : option Vector) (rot : RotMatrix) (color : Z) (w w' : World)
    (p : Z) (tr : list Event) :
  vehicles.createVel L type pos vel rot color w = Done p w' tr ->
  p <> nullptr ->
  exists id,
    p = elem_addr L CVehicle id /\ zlookup (vehicleDataTables w') id = Some None.
Proof.
  unfold vehicles.createVel. intros Hd Hp.
  apply scoped_Done_inv in Hd as (w0 & w1 & tr0 & _ & Hd & Ht).
  apply bind_Done_inv in Hd as (id & w2 & tr1 & tr2 & _ & Hd & _).
  apply clear_then_return in Hd as [-> Hc]; [| exact Hp].
  exists id. split; [reflexivity |].
  pose proof (Ht CVehicle) as HtI. cbn in HtI. now rewrite HtI.
Qed.

Lemma vehicles_create_clears (type : Z) (pos : Vector) (rot : RotMatrix)
    (color : Z) (w w' : World) (p : Z) (tr : list Event) :
  vehicles.create L type pos rot color w = Done p w' tr ->
  p <> nullptr ->
  exists id,
    p = elem_addr L CVehicle id /\ zlookup (vehicleDataTables w') id = Some None.
Proof.
  unfold vehicles.create. intros Hd Hp.
  apply scoped_Done_inv in Hd as (w0 & w1 & tr0 & _ & Hd & Ht).
  apply bind_Done_inv in Hd as (id & w2 & tr1 & tr2 & _ & Hd & _).
  apply clear_then_return in Hd as [-> Hc]; [| exact Hp].
  exists id. split; [reflexivity |].
  pose proof (Ht CVehicle) as HtI. cbn in HtI. now rewrite HtI.
Qed.

Lemma createBot_clears (w w' : World) (p : Z) (tr : list Event) :
  players.createBot L w = Done p w' tr ->
  p <> nullptr ->
  exists id,
    p = elem_addr L CPlayer id /\ zlookup (playerDataTables w') id = Some None.
Proof.
  unfold players.createBot. intros Hd Hp.
  apply scoped_Done_inv in Hd as (w0 & w1 & tr0 & _ & Hd & Ht).
  apply bind_Done_inv in Hd as (id & w2 & tr1 & tr2 & _ & Hd & _).
  destruct (id =? -1).
  { injection Hd as <- <- <-. contradiction. }
  apply bind_Done_inv in Hd as ([] & w3 & tr3 & tr4 & Hc & Hd & _).
  apply bind_Done_inv in Hd as ([] & w4 & tr5 & tr6 & Hw & Hr & _).
  injection Hr as <- <- <-.
  exists id. split; [reflexivity |].
  apply clearDataTable_Done in Hc. apply write_player_at_tables in Hw.
  pose proof (Ht CPlayer) as Ht1. pose proof (Hw CPlayer) as Ht2.
  cbn in *. now rewrite Ht1, Ht2.
Qed.

Lemma humans_create_clears (pos : Vector) (rot : RotMatrix) (ply : Z)
    (w w' : World) (p : Z) (tr : list Event) :
  humans.create L pos rot ply w = Done p w' tr ->
  p <> nullptr ->
  exists id,
    p = elem_addr L CHuman id /\ zlookup (humanDataTables w') id = Some None.
Proof.
  unfold humans.create. intros Hd Hp.
  apply bind_Done_inv in Hd as (p0 & w1 & tr1 & tr2 & _ & Hd & _).
  apply bind_Done_inv in Hd as ([] & w2 & tr3 & tr4 & _ & Hd & _).
  apply bind_Done_inv in Hd as (id & w3 & tr5 & tr6 & _ & Hd & _).
  destruct (id =? -1).
  { injection Hd as <- <- <-. contradiction. }
  apply bind_Done_inv in Hd as ([] & w4 & tr7 & tr8 & Hc & Hd & _).
  apply bind_Done_inv in Hd as ([] & w5 & tr9 & tr10 & Hwh & Hd & _).
  apply bind_Done_inv in Hd as ([] & w6 & tr11 & tr12 & Hwp & Hr & _).
  injection Hr as <- <- <-.
  exists id. split; [reflexivity |].
  apply clearDataTable_Done in Hc. apply write_human_at_tables in Hwh.
  apply write_player_tables in Hwp.
  pose proof (Hwh CHuman) as Ht1. pose proof (Hwp CHuman) as Ht2.
  cbn in *. now rewrite Ht2, Ht1.
Qed.
End Cleared.

(** How such a world comes about through the API alone: an item is
    created in slot 0, its data table is asked for, a game reset empties
    the item array, and a rope is created. The rope gets slot 0 and the
    table that was allocated for the item. *)
Example stale_table_arises :
  exists w1 w2 w3 w4 tr1 tr3,
    @items.createVel demo_host demo_layout
      (elem_addr demo_layout CItemType 2) tt None tt demo_world
    = Done (elem_addr demo_layout CItem 0) w1 tr1 /\
    Item.getDataTable demo_layout (elem_addr demo_layout CItem 0) w1
    = Done [] w2 [] /\
    hookAndReset {| hook_run := None |} 0 w2 = Done tt w3 tr3 /\
    Item_active <$> zlookup (items (engine w3)) 0 = Some 0 /\
    zlookup (itemDataTables w3) 0 = Some (Some []) /\
    @items.createRope demo_host demo_layout tt tt w3
    = Done (elem_addr demo_layout CItem 0) w4 [EvEngine CallCreateRope] /\
    zlookup (itemDataTables w4) 0 = Some (Some []).
Proof.
  do 6 eexists.
  split; [vm_compute; reflexivity |]. split; [vm_compute; reflexivity |].
  split; [vm_compute; reflexivity |]. repeat split; vm_compute; reflexivity.
Qed.

(** C2 is broken by [items::createRope]. On a world whose free item slot 0 still
    has the previous occupant's table, [items::createRope] hands out slot 0
    with that table in place, and [getDataTable] on the new rope returns
    it; [items::createVel] on the same world returns the same slot with
    the table gone. *)
Theorem createRope_keeps_stale_table :
  (exists w',
     @items.createRope demo_host demo_layout tt tt world_with_stale_table
     = Done (elem_addr demo_layout CItem 0) w' [EvEngine CallCreateRope] /\
     zlookup (itemDataTables w') 0
     = Some (Some [("owner"%string, LString "alice")]) /\
     Item.getDataTable demo_layout (elem_addr demo_layout CItem 0) w'
     = Done [("owner"%string, LString "alice")] w' []) /\
  (exists w',
     @items.createVel demo_host demo_layout
       (elem_addr demo_layout CItemType 2) tt None tt world_with_stale_table
     = Done (elem_addr demo_layout CItem 0) w'
         [EvHookRemove createItemHook; EvEngine (CallCreateItem 2);
          EvHookInstall createItemHook] /\
     zlookup (itemDataTables w') 0 = Some None /\
     exists w'',
       Item.getDataTable demo_layout (elem_addr demo_layout CItem 0) w'
       = Done [] w'' []).
Proof.
  split.
  - eexists. repeat split.
  - eexists. split; [reflexivity |]. split; [reflexivity |].
    eexists. reflexivity.
Qed.

(** ** The reset lock and the worker *)

Module HTTPThreadFacts.
Import HTTPThread WorkerLocks.

Lemma invariant_initial : invariant initial.
Proof. constructor; cbn; auto. Qed.

Lemma last_handleHTTPResponse (req : LuaHTTPRequest) (res : Result)
    (q : list LuaHTTPResponse) :
  exists r,
    handleHTTPResponse req res q = q ++ [r] /\
    last (handleHTTPResponse req res q) = Some r.
Proof.
  destruct res as [r |]; cbn; eexists; (split; [reflexivity |]);
    apply last_snoc.
Qed.

Section Preservation.
Context `{Network}.

Lemma worker_step_invariant (s s' : State) :
  invariant s -> worker_step s = Some s' -> invariant s'.
Proof.
  intros [Hr Hr1 Hq Hq1 Hp Hm Hrq Hd]. unfold worker_step.
  destruct (wpc s) eqn:Hpc; cbn in Hr, Hr1, Hq, Hq1, Hp, Hm.
  - rewrite Hr. destruct (resetting (spc s)) eqn:Hres; [discriminate |].
    intros [= <-]. constructor; cbn; rewrite ?Hres; auto.
  - rewrite Hq.
    destruct (script_has_request (spc s)) eqn:Hsr; [discriminate |].
    intros [= <-]. constructor; cbn; rewrite ?Hsr; auto.
  - destruct (requestQueue s) as [| req rest]; intros [= <-];
      constructor; cbn; auto.
    destruct (script_has_request (spc s)); [discriminate | reflexivity].
  - intros [= <-]. constructor; cbn; rewrite ?Hr1; auto.
  - intros [= <-]. constructor; cbn; auto.
    destruct (script_has_request (spc s)); [discriminate | reflexivity].
  - intros [= <-]. constructor; cbn; auto.
  - rewrite Hp. intros [= <-]. constructor; cbn; auto.
  - intros [= <-].
    destruct (last_handleHTTPResponse req res (responseQueue s))
      as (r & Eq & El).
    constructor; cbn; auto.
    + rewrite El, Eq, Hrq, map_app. reflexivity.
    + rewrite El. apply Forall_app. split; [exact Hd |].
      constructor; [| constructor]. unfold same_environment. cbn.
      destruct Hm as [-> ->]. split; reflexivity.
  - intros [= <-]. constructor; cbn; auto.
  - intros [= <-]. constructor; cbn; rewrite ?Hr1; auto.
  - intros [= <-]. constructor; cbn; auto.
Qed.

Lemma script_step_invariant (mv : ScriptMove) (s s' : State) :
  invariant s -> script_step mv s = Some s' -> invariant s'.
Proof.
  intros [Hr Hr1 Hq Hq1 Hp Hm Hrq Hd]. unfold script_step.
  destruct mv, (spc s) eqn:Hpc; try discriminate;
    cbn in Hr, Hr1, Hq, Hq1.
  - rewrite Hq.
    destruct (worker_has_request (wpc s)) eqn:Hw; [discriminate |].
    intros [= <-]. constructor; cbn; rewrite ?Hw; auto.
  - rewrite andb_true_r in Hq1.
    intros [= <-]. constructor; cbn; rewrite ?Hq1, ?andb_false_r; auto.
  - rewrite Hr.
    destruct (worker_has_reset (wpc s)) eqn:Hw; [discriminate |].
    intros [= <-]. constructor; cbn; rewrite ?Hw; auto.
  - rewrite andb_true_r in Hr1.
    intros [= <-].
    destruct (wpc s) eqn:Hw; try discriminate;
      constructor; cbn; rewrite ?Hw; cbn; auto.
  - rewrite andb_true_r in Hr1.
    intros [= <-]. constructor; cbn; rewrite ?Hr1, ?andb_false_r; auto.
Qed.

Lemma reachable_invariant (s : State) : reachable s -> invariant s.
Proof.
  intros [cs Hrun]. revert Hrun.
  assert (Hgen : forall s0, invariant s0 -> run cs s0 = Some s -> invariant s).
  { induction cs as [| c cs IH]; intros s0 H0; cbn.
    - now intros [= <-].
    - destruct (step c s0) as [s1 |] eqn:Hstep; [| discriminate].
      apply IH. destruct c; cbn in Hstep.
      + eapply worker_step_invariant; eassumption.
      + eapply script_step_invariant; eassumption. }
  apply Hgen, invariant_initial.
Qed.
End Preservation.

Lemma in_flight_has_reset (pc : WorkerPC) :
  in_flight pc = true -> worker_has_reset pc = true.
Proof. destruct pc; cbn; congruence. Qed.

End HTTPThreadFacts.

Example worker_blocks_reset :
  exists s,
    HTTPThread.run
      ([HTTPThread.RunScript (HTTPThread.BeginRequest demo_request);
        HTTPThread.RunScript HTTPThread.FinishRequest]
       ++ replicate 5 HTTPThread.RunWorker) HTTPThread.initial = Some s /\
    HTTPThread.wpc s
    = HTTPThread.AtResponseLock demo_request None 0 0 /\
    HTTPThread.step (HTTPThread.RunScript HTTPThread.BeginReset) s = None.
Proof.
  eexists. split; [vm_compute; reflexivity |]. split; vm_compute; reflexivity.
Qed.

Example reset_blocks_worker :
  exists s,
    HTTPThread.run
      [HTTPThread.RunScript (HTTPThread.BeginRequest demo_request);
       HTTPThread.RunScript HTTPThread.FinishRequest;
       HTTPThread.RunScript HTTPThread.BeginReset] HTTPThread.initial = Some s /\
    HTTPThread.requestQueue s = [demo_request] /\
    HTTPThread.step HTTPThread.RunWorker s = None.
Proof.
  eexists. split; [vm_compute; reflexivity |]. split; vm_compute; reflexivity.
Qed.




(** ** The hook registry *)

Lemma withoutPostPrefix_Post (name : string) :
  withoutPostPrefix ("Post" ++ name) = name.
Proof. reflexivity. Qed.

Lemma clear_loop_length (n i : nat) (keys : list bool) :
  length (hook.clear_loop n i keys) = length keys.
Proof.
  revert i keys. induction n as [| n IH]; intros i keys; cbn; [reflexivity |].
  now rewrite IH, length_insert.
Qed.

Lemma clear_loop_lookup (n i : nat) (keys : list bool) (k : nat) :
  hook.clear_loop n i keys !! k =
    if decide (i <= k < i + n)%nat then (fun _ => false) <$> keys !! k
    else keys !! k.
Proof.
  revert i keys. induction n as [| n IH]; intros i keys; cbn.
  - destruct (decide _); [lia | reflexivity].
  - rewrite IH. destruct (decide (i = k)) as [-> | Hne].
    + destruct (decide (S k <= k < S k + n)%nat); [lia |].
      destruct (decide (k <= k < k + S n)%nat); [| lia].
      destruct (decide (k < length keys)%nat) as [Hlt | Hge].
      * rewrite list_lookup_insert_eq by assumption.
        destruct (lookup_lt_is_Some_2 keys k Hlt) as [b ->]. reflexivity.
      * rewrite list_insert_ge by lia.
        rewrite (lookup_ge_None_2 keys k) by lia. reflexivity.
    + rewrite list_lookup_insert_ne by assumption.
      destruct (decide (S i <= k < S i + n)%nat);
        destruct (decide (i <= k < i + S n)%nat); try lia; reflexivity.
Qed.

Lemma clear_lookup (r : Registry) (k : nat) :
  (k < length (enabledKeys r))%nat ->
  enabledKeys (hook.clear r) !! k = Some false.
Proof.
  intros Hk. cbn. rewrite clear_loop_lookup.
  destruct (decide _); [| lia].
  destruct (lookup_lt_is_Some_2 _ _ Hk) as [b ->]. reflexivity.
Qed.

Lemma set_key_Ret (key : nat) (value b : bool) (r r' : Registry) :
  hook.set_key key value r = Ret (b, r') ->
  b = true /\ (key < length (enabledKeys r))%nat /\
  enableNames r' = enableNames r /\
  enabledKeys r' = <[key := value]> (enabledKeys r).
Proof.
  unfold hook.set_key.
  destruct (Nat.ltb_spec key (length (enabledKeys r))); [| discriminate].
  intros [= <- <-]. auto.
Qed.

(** X1. [hook.enable] and [hook.disable] strip exactly one leading "Post"
    before looking the name up. Every name gives the same result as its
    stripped form with "Post" put in front. A name that does not itself
    begin with "Post" and the same name with "Post" in front address the
    same key and give the same result. A second "Post" is kept, so a name
    with "PostPost" in front is looked up with one "Post" left. *)
Theorem hook_post_alias (name : string) (r : Registry) :
  withoutPostPrefix ("Post" ++ name) = name /\
  withoutPostPrefix ("PostPost" ++ name) = ("Post" ++ name)%string /\
  hook.enable ("Post" ++ withoutPostPrefix name) r = hook.enable name r /\
  hook.disable ("Post" ++ withoutPostPrefix name) r = hook.disable name r /\
  (withoutPostPrefix name = name ->
   hook.enable ("Post" ++ name) r = hook.enable name r /\
   hook.disable ("Post" ++ name) r = hook.disable name r).
Proof.
  unfold hook.enable, hook.disable.
  rewrite !withoutPostPrefix_Post.
  split; [reflexivity |]. split; [reflexivity |].
  split; [reflexivity |]. split; [reflexivity |].
  intros Hsame. now rewrite Hsame.
Qed.

(** "PostResetGame" is "ResetGame"; "PostPostResetGame" is looked up as
    "PostResetGame", which the registry does not know. *)
Example second_post_is_kept :
  withoutPostPrefix "ResetGame" = "ResetGame"%string /\
  hook.enable "PostResetGame" demo_registry
  = hook.enable "ResetGame" demo_registry /\
  (exists r', hook.enable "PostResetGame" demo_registry = Ret (true, r')) /\
  hook.enable "PostPostResetGame" demo_registry = Ret (false, demo_registry).
Proof.
  split; [reflexivity |]. split; [reflexivity |].
  split; [eexists; vm_compute; reflexivity | vm_compute; reflexivity].
Qed.

(** X2. [hook.enable] and [hook.disable] answer whether the name is known.
    An unknown name changes nothing. A known name sets the flag of its key
    to true (false for [disable]) and leaves every other flag, the number
    of flags and the name table as they were. *)
Theorem hook_enable_disable_effect (name : string) (r r' : Registry)
    (value known : bool) :
  (if value then hook.enable name r else hook.disable name r)
  = Ret (known, r') ->
  enableNames r' = enableNames r /\
  length (enabledKeys r') = length (enabledKeys r) /\
  if known then
    exists key,
      enableNames r !! withoutPostPrefix name = Some key /\
      enabledKeys r' !! key = Some value /\
      forall k, k <> key -> enabledKeys r' !! k = enabledKeys r !! k
  else
    enableNames r !! withoutPostPrefix name = None /\ r' = r.
Proof.
  intros Hrun.
  assert (Hlook :
    match enableNames r !! withoutPostPrefix name with
    | Some key => hook.set_key key value r
    | None => Ret (false, r)
    end = Ret (known, r')) by (destruct value; exact Hrun).
  clear Hrun.
  destruct (enableNames r !! withoutPostPrefix name) as [key |] eqn:Hname.
  - apply set_key_Ret in Hlook as (-> & Hkey & Hn & Hk).
    rewrite Hn, Hk, length_insert. repeat split.
    exists key. split; [reflexivity |]. split.
    + now apply list_lookup_insert_eq.
    + intros k Hne. now apply list_lookup_insert_ne.
  - injection Hlook as <- <-. auto.
Qed.

Lemma hook_enable_disable_effect_witness :
  exists r',
    hook.enable "PostCreateItem" demo_registry = Ret (true, r') /\
    enabledKeys r' = [false; true; false] /\
    enableNames r' = enableNames demo_registry.
Proof.
  eexists. split; [reflexivity |]. split; [reflexivity |].
  exact (proj1 (hook_enable_disable_effect "PostCreateItem" demo_registry _
                  true true eq_refl)).
Defined.

(** X3. [hook.clear] turns every flag off and keeps their number; enabling
    one name after it leaves exactly that name's flag on. Disabling a name
    after enabling it gives what disabling alone gives. *)
Theorem hook_clear_then_enable (r : Registry) :
  length (enabledKeys (hook.clear r)) = length (enabledKeys r) /\
  enableNames (hook.clear r) = enableNames r /\
  (forall k,
     (k < length (enabledKeys r))%nat ->
     enabledKeys (hook.clear r) !! k = Some false) /\
  (forall name r1,
     hook.enable name (hook.clear r) = Ret (true, r1) ->
     exists key,
       enableNames r !! withoutPostPrefix name = Some key /\
       forall k,
         (k < length (enabledKeys r))%nat ->
         enabledKeys r1 !! k = Some (bool_decide (k = key))) /\
  (forall name r1,
     hook.enable name r = Ret (true, r1) ->
     hook.disable name r1 = hook.disable name r).
Proof.
  split; [apply clear_loop_length |]. split; [reflexivity |].
  split; [apply clear_lookup |]. split.
  - intros name r1 Hen. unfold hook.enable in Hen. cbn in Hen.
    destruct (enableNames r !! withoutPostPrefix name) as [key |];
      [| discriminate].
    apply set_key_Ret in Hen as (_ & Hkey & _ & Hk).
    exists key. split; [reflexivity |]. intros k Hlt. rewrite Hk.
    destruct (decide (k = key)) as [-> | Hne].
    + rewrite bool_decide_eq_true_2 by reflexivity.
      now apply list_lookup_insert_eq.
    + rewrite bool_decide_eq_false_2 by assumption.
      rewrite list_lookup_insert_ne by congruence.
      now apply clear_lookup.
  - intros name r1 Hen. unfold hook.enable in Hen. unfold hook.disable.
    destruct (enableNames r !! withoutPostPrefix name) as [key |] eqn:Hname;
      [| discriminate].
    apply set_key_Ret in Hen as (_ & Hkey & Hn & Hk).
    rewrite Hn, Hname. unfold hook.set_key.
    rewrite Hk, length_insert, Hn, list_insert_insert_eq. reflexivity.
Qed.

(** X4. The registry drives the ResetGame trampoline. After [hook.clear]
    the trampoline runs no script: it calls the original once, in its
    bracket. After [hook.enable "PostResetGame"], the alias of ResetGame,
    a trampoline that finds [hook.run] runs "ResetGame" first. *)
Theorem hook_registry_drives_reset `{Host} (lua : LuaState) (reason : Z)
    (r : Registry) (key : nat) :
  enableNames r !! "ResetGame"%string = Some key ->
  (key < length (enabledKeys r))%nat ->
  (forall w,
     reflects key (hook.clear r) w ->
     exists w',
       hookAndReset lua reason w
       = Done tt w' (original_call (installed w resetGameHook)) /\
       engine w' = Engine_resetGame (engine w)) /\
  (forall w r' f,
     hook.enable "PostResetGame" r = Ret (true, r') ->
     reflects key r' w ->
     hook_run lua = Some f ->
     exists w' tr,
       hookAndReset lua reason w
       = Done tt w' (EvHookRun "ResetGame" reason :: tr)).
Proof.
  intros Hname Hkey. split.
  - intros w. unfold reflects. rewrite clear_lookup by assumption.
    intros [= Hoff].
    unfold hookAndReset. rewrite bind_get_world, <- Hoff.
    destruct (scoped_resetGame w) as (w' & E & He & _). eauto.
  - intros w r' f Hen Hrefl Hf.
    unfold hook.enable in Hen. cbn [withoutPostPrefix] in Hen.
    rewrite Hname in Hen.
    apply set_key_Ret in Hen as (_ & _ & _ & Hk).
    unfold reflects in Hrefl. rewrite Hk in Hrefl.
    rewrite list_lookup_insert_eq in Hrefl by assumption.
    injection Hrefl as Hon.
    unfold hookAndReset. rewrite bind_get_world, <- Hon, Hf.
    unfold bind, call_hook_run.
    destruct (f "ResetGame"%string reason w) as [res w1]. cbn.
    rewrite noLuaCallError_log. unfold ret.
    destruct (scoped_resetGame w1) as (w2 & E & _).
    destruct (f "PostResetGame"%string reason w2) as [res2 w3] eqn:Epost.
    destruct res as [v | what]; cbn; [destruct (truthy v); cbn |].
    + eauto.
    + rewrite E, Epost, noLuaCallError_log. eauto.
    + rewrite E, Epost, noLuaCallError_log. eauto.
Qed.

Lemma hook_registry_drives_reset_witness :
  (exists w',
     hookAndReset vetoing_lua 3 world_reset_disabled
     = Done tt w' (original_call true) /\
     engine w' = Engine_resetGame (engine world_reset_disabled)) /\
  (exists w' tr,
     hookAndReset vetoing_lua 3 demo_world
     = Done tt w' (EvHookRun "ResetGame" 3 :: tr)).
Proof.
  destruct (hook_registry_drives_reset vetoing_lua 3 demo_registry 0)
    as [Hoff Hon]; [reflexivity | cbn; lia |].
  split.
  - apply (Hoff world_reset_disabled). reflexivity.
  - eapply (Hon demo_world); reflexivity.
Defined.

(** ** Listing slots *)

Lemma slots_where_bounds {A : Type} (keep : A -> bool) (arr : list A)
    (i j : Z) :
  j ∈ slots_where keep arr i -> i <= j < i + Z.of_nat (length arr).
Proof.
  revert i. induction arr as [| x arr IH]; intros i; cbn.
  - intros Hj. inversion Hj.
  - rewrite elem_of_app. intros [Hj | Hj].
    + destruct (keep x); [| inversion Hj].
      apply list_elem_of_singleton in Hj. lia.
    + apply IH in Hj. lia.
Qed.

Lemma slots_where_elem {A : Type} (keep : A -> bool) (arr : list A)
    (i j : Z) :
  j ∈ slots_where keep arr i <->
  exists x, i <= j /\ arr !! Z.to_nat (j - i) = Some x /\ keep x = true.
Proof.
  revert i. induction arr as [| x arr IH]; intros i; cbn.
  - split; [intros Hj; inversion Hj | intros (x & _ & Hx & _); discriminate].
  - rewrite elem_of_app, IH. split.
    + intros [Hj | (y & Hle & Hy & Hk)].
      * destruct (keep x) eqn:Hkx; [| inversion Hj].
        apply list_elem_of_singleton in Hj. subst j.
        exists x. rewrite Z.sub_diag. auto with lia.
      * exists y. split; [lia |]. split; [| exact Hk].
        replace (Z.to_nat (j - i)) with (S (Z.to_nat (j - (i + 1)))) by lia.
        exact Hy.
    + intros (y & Hle & Hy & Hk).
      destruct (Z.eq_dec j i) as [-> | Hne].
      * rewrite Z.sub_diag in Hy. injection Hy as ->. rewrite Hk.
        left. now apply list_elem_of_singleton.
      * right. exists y. split; [lia |]. split; [| exact Hk].
        replace (Z.to_nat (j - i)) with (S (Z.to_nat (j - (i + 1)))) in Hy
          by lia.
        exact Hy.
Qed.

Lemma slots_where_sorted {A : Type} (keep : A -> bool) (arr : list A) (i : Z) :
  StronglySorted Z.lt (slots_where keep arr i).
Proof.
  revert i. induction arr as [| x arr IH]; intros i; cbn.
  - constructor.
  - destruct (keep x); cbn; [| apply IH].
    constructor; [apply IH |].
    apply Forall_forall. intros j Hj. apply slots_where_bounds in Hj. lia.
Qed.

Lemma slots_where_map {A : Type} (f : A -> Z) (keep : Z -> bool)
    (arr : list A) (i : Z) :
  slots_where keep (map f arr) i = slots_where (fun x => keep (f x)) arr i.
Proof.
  revert i. induction arr as [| x arr IH]; intros i; cbn; [reflexivity |].
  now rewrite IH.
Qed.

Lemma zlookup_middle {A : Type} (pre rest : list A) (x : A) :
  zlookup (pre ++ x :: rest) (Z.of_nat (length pre)) = Some x.
Proof.
  unfold zlookup. destruct (Z.ltb_spec (Z.of_nat (length pre)) 0); [lia |].
  rewrite Nat2Z.id. apply list_lookup_middle. reflexivity.
Qed.

Section Walks.
Context {A : Type} (L : Layout) (c : Category).

Lemma count_active_run (active : A -> Z) (pre rest : list A) (count : Z) :
  count_active active (pre ++ rest) (length rest) (Z.of_nat (length pre)) count
  = Ret (count
         + Z.of_nat (length (slots_where (fun x => is_active (active x)) rest
                               (Z.of_nat (length pre))))).
Proof.
  revert pre count. induction rest as [| x rest IH]; intros pre count; cbn.
  - f_equal. lia.
  - rewrite zlookup_middle.
    replace (pre ++ x :: rest) with ((pre ++ [x]) ++ rest)
      by (now rewrite <- app_assoc).
    replace (Z.of_nat (length pre) + 1) with (Z.of_nat (length (pre ++ [x])))
      by (rewrite length_app; cbn; lia).
    rewrite IH. f_equal. unfold is_active.
    destruct (active x =? 0); cbn; lia.
Qed.

Lemma collect_run (keep : A -> bool) (pre rest : list A) (out : list Z) :
  collect L c keep (pre ++ rest) (length rest) (Z.of_nat (length pre)) out
  = Ret (out ++ map (elem_addr L c)
                  (slots_where keep rest (Z.of_nat (length pre)))).
Proof.
  revert pre out. induction rest as [| x rest IH]; intros pre out; cbn.
  - now rewrite app_nil_r.
  - rewrite zlookup_middle.
    replace (pre ++ x :: rest) with ((pre ++ [x]) ++ rest)
      by (now rewrite <- app_assoc).
    replace (Z.of_nat (length pre) + 1) with (Z.of_nat (length (pre ++ [x])))
      by (rewrite length_app; cbn; lia).
    rewrite IH. f_equal.
    destruct (keep x); cbn; [now rewrite <- app_assoc | reflexivity].
Qed.

Lemma find_first_run (hit : A -> bool) (pre rest : list A) :
  find_first L c hit (pre ++ rest) (length rest) (Z.of_nat (length pre))
  = Ret (match slots_where hit rest (Z.of_nat (length pre)) with
         | [] => nullptr
         | j :: _ => elem_addr L c j
         end).
Proof.
  revert pre. induction rest as [| x rest IH]; intros pre; cbn.
  - reflexivity.
  - rewrite zlookup_middle. destruct (hit x); [reflexivity |].
    replace (pre ++ x :: rest) with ((pre ++ [x]) ++ rest)
      by (now rewrite <- app_assoc).
    replace (Z.of_nat (length pre) + 1) with (Z.of_nat (length (pre ++ [x])))
      by (rewrite length_app; cbn; lia).
    now rewrite IH.
Qed.
End Walks.

Lemma map_getIndex_elem_addr (L : Layout) (c : Category) (slots : list Z) :
  wf_layout L ->
  Forall (fun j => 0 <= j < capacity L c) slots ->
  map (getIndex L c) (map (elem_addr L c) slots) = slots.
Proof.
  intros HL. induction 1 as [| j slots Hj _ IH]; cbn; [reflexivity |].
  rewrite IH, getIndex_index_of, index_of_elem_addr by assumption.
  reflexivity.
Qed.

(** The count and the list of one flagged category, on an array of the
    extent of its constant. *)
Lemma listing_of_array {A : Type} (L : Layout) (c : Category)
    (active : A -> Z) (arr : list A) :
  wf_layout L ->
  Z.of_nat (length arr) = capacity L c ->
  listing_ok L c (map active arr)
    (count_active active arr (Z.to_nat (capacity L c)) 0 0)
    (collect L c (fun x => is_active (active x)) arr
       (Z.to_nat (capacity L c)) 0 []).
Proof.
  intros HL Hlen.
  exists (slots_where (fun x => is_active (active x)) arr 0).
  replace (Z.to_nat (capacity L c)) with (length arr) by lia.
  split; [apply (collect_run L c _ [] arr []) |].
  split; [apply (count_active_run active [] arr 0) |].
  split; [apply slots_where_sorted |]. split.
  - intros j. rewrite slots_where_elem. unfold zlookup. split.
    + intros (x & Hj & Hx & Hk). exists (active x).
      destruct (Z.ltb_spec j 0); [lia |].
      rewrite Z.sub_0_r in Hx. rewrite list_lookup_fmap, Hx.
      split; [reflexivity |]. unfold is_active in Hk.
      destruct (Z.eqb_spec (active x) 0); [discriminate | assumption].
    + intros (flag & Hl & Hflag).
      destruct (Z.ltb_spec j 0); [discriminate |].
      rewrite list_lookup_fmap in Hl.
      destruct (arr !! Z.to_nat j) as [x |] eqn:Hx; [| discriminate].
      injection Hl as <-. exists x. rewrite Z.sub_0_r.
      split; [lia |]. split; [exact Hx |]. unfold is_active.
      destruct (Z.eqb_spec (active x) 0); [contradiction | reflexivity].
  - apply map_getIndex_elem_addr; [exact HL |].
    apply Forall_forall. intros j Hj. apply slots_where_bounds in Hj. lia.
Qed.

(** X5. For items, vehicles, players, humans, rigid bodies and bonds,
    [getAll] returns the proxies of exactly the active slots, in ascending
    order of index, each with its slot as [getIndex], and [getCount] is
    the length of that list. *)
Theorem active_listings (L : Layout) (e : Engine) :
  wf_layout L ->
  arrays_fit L e ->
  listing_ok L CItem (map Item_active (items e))
    (l_items_getCount L e) (l_items_getAll L e) /\
  listing_ok L CVehicle (map Vehicle_active (vehicles e))
    (l_vehicles_getCount L e) (l_vehicles_getAll L e) /\
  listing_ok L CPlayer (map Player_active (players e))
    (l_players_getCount L e) (l_players_getAll L e) /\
  listing_ok L CHuman (map Human_active (humans e))
    (l_humans_getCount L e) (l_humans_getAll L e) /\
  listing_ok L CRigidBody (map RigidBody_active (bodies e))
    (l_rigidBodies_getCount L e) (l_rigidBodies_getAll L e) /\
  listing_ok L CBond (map Bond_active (bonds e))
    (l_bonds_getCount L e) (l_bonds_getAll L e).
Proof.
  intros HL (Hp & Hh & Hi & Hv & Hb & Hbo).
  repeat split; now apply listing_of_array.
Qed.

Lemma busy_engine_fits : arrays_fit demo_layout busy_engine.
Proof. repeat split. Qed.

Example busy_listing :
  l_items_getAll demo_layout busy_engine
  = Ret [elem_addr demo_layout CItem 0; elem_addr demo_layout CItem 2;
         elem_addr demo_layout CItem 3] /\
  l_items_getCount demo_layout busy_engine = Ret 3 /\
  l_players_getNonBots demo_layout busy_engine
  = Ret [elem_addr demo_layout CPlayer 2] /\
  l_players_getByPhone demo_layout busy_engine 2560021
  = Ret (elem_addr demo_layout CPlayer 2).
Proof. repeat split. Qed.

Lemma active_listings_witness :
  listing_ok demo_layout CItem (map Item_active (items busy_engine))
    (l_items_getCount demo_layout busy_engine)
    (l_items_getAll demo_layout busy_engine) /\
  listing_ok demo_layout CPlayer (map Player_active (players busy_engine))
    (l_players_getCount demo_layout busy_engine)
    (l_players_getAll demo_layout busy_engine).
Proof.
  destruct (active_listings demo_layout busy_engine demo_layout_wf
              busy_engine_fits) as (Hi & _ & Hp & _).
  split; assumption.
Defined.

(** X6. [players.getByPhone] returns the active player with that phone
    number in the lowest slot, and null exactly when no active player has
    the number. Unlike the scan of the accounts it stops at the capacity
    and always returns. *)
Theorem players_getByPhone_first (L : Layout) (e : Engine) (phone : Z) :
  wf_layout L ->
  Z.of_nat (length (players e)) = capacity L CPlayer ->
  exists p,
    l_players_getByPhone L e phone = Ret p /\
    (p = nullptr <->
     forall i x,
       zlookup (players e) i = Some x ->
       Player_active x <> 0 -> Player_phoneNumber x <> phone) /\
    (p <> nullptr ->
     exists i x,
       p = elem_addr L CPlayer i /\
       getIndex L CPlayer p = i /\
       zlookup (players e) i = Some x /\
       Player_active x <> 0 /\ Player_phoneNumber x = phone /\
       forall j y,
         j < i -> zlookup (players e) j = Some y ->
         Player_active y = 0 \/ Player_phoneNumber y <> phone).
Proof.
  intros HL Hlen.
  set (hit := fun x : Player =>
                is_active (Player_active x) && (Player_phoneNumber x =? phone)).
  assert (Hhit : forall x,
            hit x = true <-> Player_active x <> 0 /\ Player_phoneNumber x = phone).
  { intros x. unfold hit, is_active.
    rewrite andb_true_iff, negb_true_iff, Z.eqb_neq, Z.eqb_eq. tauto. }
  assert (Hin : forall j,
            j ∈ slots_where hit (players e) 0 <->
            exists x, zlookup (players e) j = Some x /\ hit x = true).
  { intros j. rewrite slots_where_elem. unfold zlookup. rewrite Z.sub_0_r.
    destruct (Z.ltb_spec j 0).
    - split; [intros (x & Hj & _); lia | intros (x & Hx & _); discriminate].
    - split; intros (x & Hx); exists x; tauto. }
  pose proof (find_first_run L CPlayer hit [] (players e)) as Hrun.
  pose proof (slots_where_sorted hit (players e) 0) as Hsorted.
  cbn [app length] in Hrun.
  unfold l_players_getByPhone. fold hit.
  replace (Z.to_nat (capacity L CPlayer)) with (length (players e)) by lia.
  change (Z.of_nat 0) with 0 in Hrun. rewrite Hrun.
  destruct (slots_where hit (players e) 0) as [| i rest] eqn:Hslots.
  - exists nullptr. split; [reflexivity |]. split; [| intros Hp; now contradiction Hp].
    split; [| reflexivity]. intros _ i x Hx Hact Hph.
    assert (Hi : i ∈ @nil Z) by (apply Hin; exists x; split; [exact Hx |];
                                apply Hhit; auto).
    inversion Hi.
  - assert (Hi : i ∈ i :: rest) by (left).
    pose proof Hi as Hbound. rewrite <- Hslots in Hbound.
    apply slots_where_bounds in Hbound.
    apply Hin in Hi as (x & Hx & Hk). apply Hhit in Hk as [Hact Hph].
    assert (Hnn : elem_addr L CPlayer i <> nullptr)
      by (apply elem_addr_not_null; [exact HL | lia]).
    exists (elem_addr L CPlayer i). split; [reflexivity |]. split.
    + split; [intros Hp; contradiction |].
      intros Hnone. exfalso. now apply (Hnone i x).
    + intros _. exists i, x. split; [reflexivity |]. split.
      { rewrite getIndex_index_of. apply index_of_elem_addr; [exact HL | lia]. }
      split; [exact Hx |]. split; [exact Hact |]. split; [exact Hph |].
      intros j y Hj Hy.
      destruct (Z.eq_dec (Player_active y) 0) as [| Hya]; [now left |].
      right. intros Hyp.
      assert (Hjin : j ∈ i :: rest)
        by (apply Hin; exists y; split; [exact Hy |]; apply Hhit; auto).
      inversion Hsorted as [| ? ? _ Hall]; subst.
      apply elem_of_cons in Hjin as [-> | Hjr]; [lia |].
      rewrite Forall_forall in Hall. apply Hall in Hjr. lia.
Qed.

Lemma players_getByPhone_first_witness :
  exists p,
    l_players_getByPhone demo_layout busy_engine 2560021 = Ret p /\
    (p <> nullptr ->
     exists i x,
       p = elem_addr demo_layout CPlayer i /\
       getIndex demo_layout CPlayer p = i /\
       zlookup (players busy_engine) i = Some x /\
       Player_active x <> 0 /\ Player_phoneNumber x = 2560021 /\
       forall j y,
         j < i -> zlookup (players busy_engine) j = Some y ->
         Player_active y = 0 \/ Player_phoneNumber y <> 2560021).
Proof.
  destruct (players_getByPhone_first demo_layout busy_engine 2560021
              demo_layout_wf eq_refl) as (p & Hp & _ & Hfound).
  exists p. split; assumption.
Defined.

Lemma slots_where_zlookup {A : Type} (keep : A -> bool) (arr : list A) (j : Z) :
  j ∈ slots_where keep arr 0 <->
  exists x, zlookup arr j = Some x /\ keep x = true.
Proof.
  rewrite slots_where_elem. unfold zlookup. rewrite Z.sub_0_r.
  destruct (Z.ltb_spec j 0).
  - split; [intros (x & Hj & _); lia | intros (x & Hx & _); discriminate].
  - split; intros (x & Hx); exists x; tauto.
Qed.

Lemma elem_addr_inj (L : Layout) (c : Category) (i j : Z) :
  wf_layout L ->
  0 <= i < capacity L c -> 0 <= j < capacity L c ->
  elem_addr L c i = elem_addr L c j -> i = j.
Proof.
  intros HL Hi Hj Heq.
  rewrite <- (index_of_elem_addr L HL c i Hi),
    <- (index_of_elem_addr L HL c j Hj).
  now rewrite Heq.
Qed.

Lemma collect_members {A : Type} (L : Layout) (c : Category)
    (keep : A -> bool) (arr : list A) :
  exists all,
    collect L c keep arr (length arr) 0 [] = Ret all /\
    forall p,
      p ∈ all <->
      exists i x, p = elem_addr L c i /\ zlookup arr i = Some x /\ keep x = true.
Proof.
  pose proof (collect_run L c keep [] arr []) as Hrun.
  cbn [app length] in Hrun. change (Z.of_nat 0) with 0 in Hrun.
  eexists. split; [exact Hrun |].
  intros p. cbn [app]. rewrite list_elem_of_fmap. split.
  - intros (j & -> & Hj). apply slots_where_zlookup in Hj as (x & Hx & Hk).
    now exists j, x.
  - intros (i & x & -> & Hx & Hk). exists i. split; [reflexivity |].
    apply slots_where_zlookup. now exists x.
Qed.

Lemma keeps_non_bot (x : Player) :
  negb (negb (is_active (Player_active x))
        || negb (is_active (Player_subRosaID x))
        || is_active (Player_isBot x)) = true <->
  Player_active x <> 0 /\ Player_subRosaID x <> 0 /\ Player_isBot x = 0.
Proof.
  unfold is_active.
  destruct (Z.eqb_spec (Player_active x) 0);
    destruct (Z.eqb_spec (Player_subRosaID x) 0);
    destruct (Z.eqb_spec (Player_isBot x) 0); cbn;
    split; (tauto || discriminate || (intros (? & ? & ?); contradiction)
            || auto).
Qed.

Lemma getNonBots_members (L : Layout) (e : Engine) :
  Z.of_nat (length (players e)) = capacity L CPlayer ->
  exists nonBots,
    l_players_getNonBots L e = Ret nonBots /\
    forall p,
      p ∈ nonBots <->
      exists i x,
        p = elem_addr L CPlayer i /\
        zlookup (players e) i = Some x /\
        Player_active x <> 0 /\ Player_subRosaID x <> 0 /\ Player_isBot x = 0.
Proof.
  intros Hlen. unfold l_players_getNonBots.
  replace (Z.to_nat (capacity L CPlayer)) with (length (players e)) by lia.
  destruct (collect_members L CPlayer
              (fun x =>
                 negb (negb (is_active (Player_active x))
                       || negb (is_active (Player_subRosaID x))
                       || is_active (Player_isBot x)))
              (players e)) as (nb & Hrun & Hin).
  exists nb. split; [exact Hrun |].
  intros p. rewrite Hin. split.
  - intros (i & x & Hp & Hx & Hk). exists i, x. now rewrite <- keeps_non_bot.
  - intros (i & x & Hp & Hx & Hk). exists i, x. now rewrite keeps_non_bot.
Qed.

(** X7. [players.getNonBots] is a sublist of [players.getAll]: it lists the
    active players that have a [subRosaID] and are not bots. *)
Theorem getNonBots_within_getAll (L : Layout) (e : Engine) :
  Z.of_nat (length (players e)) = capacity L CPlayer ->
  exists nonBots all,
    l_players_getNonBots L e = Ret nonBots /\
    l_players_getAll L e = Ret all /\
    nonBots ⊆ all /\
    forall p,
      p ∈ nonBots <->
      exists i x,
        p = elem_addr L CPlayer i /\
        zlookup (players e) i = Some x /\
        Player_active x <> 0 /\ Player_subRosaID x <> 0 /\ Player_isBot x = 0.
Proof.
  intros Hlen.
  destruct (getNonBots_members L e Hlen) as (nb & Hnb & Hin).
  unfold l_players_getAll.
  replace (Z.to_nat (capacity L CPlayer)) with (length (players e)) by lia.
  destruct (collect_members L CPlayer
              (fun x => is_active (Player_active x)) (players e))
    as (all & Hall & Hmem).
  exists nb, all. split; [exact Hnb |]. split; [exact Hall |].
  split; [| exact Hin].
  intros p Hp. apply Hin in Hp as (i & x & -> & Hx & Ha & _).
  apply Hmem. exists i, x. split; [reflexivity |]. split; [exact Hx |].
  unfold is_active.
  destruct (Z.eqb_spec (Player_active x) 0); [contradiction | reflexivity].
Qed.

Lemma getNonBots_within_getAll_witness :
  exists nonBots all,
    l_players_getNonBots demo_layout busy_engine = Ret nonBots /\
    l_players_getAll demo_layout busy_engine = Ret all /\
    nonBots ⊆ all.
Proof.
  destruct (getNonBots_within_getAll demo_layout busy_engine eq_refl)
    as (nb & all & H1 & H2 & H3 & _).
  exists nb, all. auto.
Defined.

Lemma scoped_Done_inv_engine {A : Type} (h : Hook) (body : M A) (w w' : World)
    (a : A) (tr : list Event) :
  ScopedHookRemove h body w = Done a w' tr ->
  exists w0 w1 tr0,
    engine w0 = engine w /\ body w0 = Done a w1 tr0 /\ engine w' = engine w1.
Proof.
  unfold ScopedHookRemove.
  destruct (installed w h).
  - destruct (body (set_installed h false w)) as [a' w1 tr0 | |] eqn:Eb;
      try discriminate.
    intros [= -> <- <-]. exists (set_installed h false w), w1, tr0. auto.
  - destruct (body w) as [a' w1 tr0 | |] eqn:Eb; try discriminate.
    intros [= -> <- <-]. exists w, w1, tr0. auto.
Qed.

Lemma clearDataTable_engine (c : Category) (id : Z) (w w' : World)
    (tr : list Event) :
  clearDataTable c id w = Done tt w' tr -> engine w' = engine w.
Proof.
  unfold clearDataTable. rewrite bind_get_world.
  destruct (zlookup (dataTables c w) id) as [[t |] |]; try discriminate.
  - unfold bind, lift_option.
    destruct (zupdate (dataTables c w) id None); [| discriminate].
    cbn. intros [= <- <-]. reflexivity.
  - intros [= <- <-]. reflexivity.
Qed.

Lemma write_player_at_Done (i : Z) (f : Player -> Player) (w w' : World)
    (tr : list Event) :
  write_player_at i f w = Done tt w' tr ->
  exists p,
    0 <= i < Z.of_nat (length (players (engine w))) /\
    zlookup (players (engine w)) i = Some p /\
    players (engine w') = <[Z.to_nat i := f p]> (players (engine w)) /\
    humans (engine w') = humans (engine w).
Proof.
  unfold write_player_at. rewrite bind_get_world.
  unfold bind, lift_option.
  destruct (zlookup (players (engine w)) i) as [p |] eqn:Hp; [| discriminate].
  cbn. pose proof (zlookup_Some_range _ _ _ Hp) as Hr.
  rewrite zupdate_in_range by assumption. cbn.
  intros [= <- <-]. exists p. auto.
Qed.

(** X8. The player [players.createBot] returns is marked as a bot, on
    team 6, without a [subRosaID] and named "Bot"; it is never among
    [players.getNonBots] of the state the call leaves. *)
Theorem createBot_is_a_bot `{Host} (L : Layout) (w w' : World) (p : Z)
    (tr : list Event) :
  wf_layout L ->
  players.createBot L w = Done p w' tr ->
  p <> nullptr ->
  Z.of_nat (length (players (engine w'))) = capacity L CPlayer ->
  (exists id bot,
     p = elem_addr L CPlayer id /\
     getIndex L CPlayer p = id /\
     zlookup (players (engine w')) id = Some bot /\
     Player_isBot bot = 1 /\ Player_team bot = 6 /\
     Player_subRosaID bot = 0 /\ Player_name bot = "Bot"%string) /\
  exists nonBots,
    l_players_getNonBots L (engine w') = Ret nonBots /\ p ∉ nonBots.
Proof.
  intros HL Hd Hp Hlen. unfold players.createBot in Hd.
  apply scoped_Done_inv_engine in Hd as (w0 & w1 & tr0 & _ & Hd & He).
  apply bind_Done_inv in Hd as (id & w2 & tr1 & tr2 & _ & Hd & _).
  destruct (id =? -1).
  { injection Hd as <- <- <-. contradiction. }
  apply bind_Done_inv in Hd as ([] & w3 & tr3 & tr4 & _ & Hd & _).
  apply bind_Done_inv in Hd as ([] & w4 & tr5 & tr6 & Hw & Hr & _).
  injection Hr as <- <- <-.
  apply write_player_at_Done in Hw as (p0 & Hid & Hp0 & Hps & _).
  rewrite He in *.
  assert (Hcap : 0 <= id < capacity L CPlayer).
  { rewrite <- Hlen, Hps, length_insert. exact Hid. }
  assert (Hbot : zlookup (players (engine w4)) id = Some (make_bot p0)).
  { rewrite Hps. now apply zlookup_insert_eq. }
  split.
  - exists id, (make_bot p0). split; [reflexivity |]. split.
    { rewrite getIndex_index_of. now apply index_of_elem_addr. }
    split; [exact Hbot |]. repeat split.
  - destruct (getNonBots_members L (engine w4) Hlen) as (nb & Hnb & Hin).
    exists nb. split; [exact Hnb |]. intros Hmem.
    apply Hin in Hmem as (j & x & Heq & Hx & _ & _ & Hbotx).
    pose proof (zlookup_Some_range _ _ _ Hx) as Hj. rewrite Hlen in Hj.
    apply elem_addr_inj in Heq; [| assumption ..]. subst j.
    rewrite Hbot in Hx. injection Hx as <-. discriminate.
Qed.

Lemma createBot_is_a_bot_witness :
  exists w' tr nonBots,
    @players.createBot demo_host demo_layout demo_world = Done 8192 w' tr /\
    l_players_getNonBots demo_layout (engine w') = Ret nonBots /\
    8192 ∉ nonBots.
Proof.
  evar (w' : World). evar (tr : list Event).
  assert (E : @players.createBot demo_host demo_layout demo_world
              = Done 8192 w' tr).
  { subst w' tr. vm_compute. reflexivity. }
  destruct (@createBot_is_a_bot demo_host demo_layout demo_world w' 8192 tr
              demo_layout_wf E) as (_ & nb & Hnb & Hnot).
  - discriminate.
  - vm_compute. reflexivity.
  - exists w', tr, nb. auto.
Defined.

Lemma addresses_run (L : Layout) (c : Category) (n : nat) (i : Z)
    (out : list Z) :
  addresses L c n i out
  = out ++ map (elem_addr L c) (seqZ i (Z.of_nat n)).
Proof.
  revert i out. induction n as [| n IH]; intros i out.
  - cbn. now rewrite app_nil_r.
  - cbn [addresses]. rewrite IH, <- app_assoc. f_equal.
    rewrite (seqZ_cons i (Z.of_nat (S n))) by lia. cbn.
    do 3 f_equal. lia.
Qed.

Lemma zlookup_addresses (L : Layout) (c : Category) (bound idx : Z) :
  0 <= bound ->
  zlookup (addresses L c (Z.to_nat bound) 0 []) idx
  = if (0 <=? idx) && (idx <? bound) then Some (elem_addr L c idx) else None.
Proof.
  intros Hb. rewrite addresses_run. cbn [app]. rewrite Z2Nat.id by assumption.
  unfold zlookup.
  destruct (Z.ltb_spec idx 0); destruct (Z.leb_spec 0 idx); try lia;
    [reflexivity |].
  cbn [andb]. rewrite list_lookup_fmap.
  destruct (Z.ltb_spec idx bound).
  - rewrite lookup_seqZ_lt by lia. cbn. f_equal. f_equal. lia.
  - rewrite lookup_seqZ_ge by lia. reflexivity.
Qed.

Lemma counted_listing (L : Layout) (c : Category) (bound : Z) :
  0 <= bound < 2 ^ 31 ->
  Z.of_nat (length (addresses L c (Z.to_nat bound) 0 [])) = bound /\
  listing_matches_index (addresses L c (Z.to_nat bound) 0 [])
    (slot_or_throw L c bound).
Proof.
  intros Hb. split.
  - rewrite addresses_run. cbn [app]. rewrite length_map, length_seqZ. lia.
  - intros idx Hidx. rewrite zlookup_addresses by lia.
    unfold slot_or_throw, to_uint32. rewrite Z.mod_small by lia.
    destruct (Z.leb_spec 0 idx); [| lia]. cbn [andb].
    destruct (Z.ltb_spec idx bound); destruct (Z.leb_spec bound idx);
      try lia.
    + split; [intros p; split; congruence |]. split; discriminate.
    + split; [intros p; split; discriminate |]. split; reflexivity.
Qed.

(** X9. The list [streets.getAll] returns has [streets.getCount] entries;
    entry [idx] is the proxy [streets.getByIndex] gives for [idx], and
    [getByIndex] raises "Index out of range" exactly past the end of the
    list. The same holds of the intersections and of the item types.
    With a negative street count the signed loop of [getAll] lists nothing
    while the unsigned test of [getByIndex] lets index 0 through. *)
Theorem counted_listings (L : Layout) (e : Engine) :
  wf_layout L ->
  - 2 ^ 31 <= numStreets e < 2 ^ 31 ->
  - 2 ^ 31 <= numStreetIntersections e < 2 ^ 31 ->
  (0 <= numStreets e ->
   Z.of_nat (length (l_streets_getAll L e)) = streets.getCount e /\
   listing_matches_index (l_streets_getAll L e) (streets.getByIndex L e)) /\
  (0 <= numStreetIntersections e ->
   Z.of_nat (length (l_intersections_getAll L e)) = intersections.getCount e /\
   listing_matches_index (l_intersections_getAll L e)
     (intersections.getByIndex L e)) /\
  (Z.of_nat (length (l_itemTypes_getAll L)) = l_itemTypes_getCount L /\
   listing_matches_index (l_itemTypes_getAll L) (itemTypes.getByIndex L)) /\
  (numStreets e < 0 ->
   l_streets_getAll L e = [] /\
   streets.getByIndex L e 0 = Ret (elem_addr L CStreet 0)).
Proof.
  intros HL Hs Hi.
  split; [| split; [| split]].
  - intros H0. apply (counted_listing L CStreet (numStreets e)). lia.
  - intros H0.
    apply (counted_listing L CStreetIntersection (numStreetIntersections e)).
    lia.
  - destruct (HL CItemType) as (_ & Hc & _).
    apply (counted_listing L CItemType (capacity L CItemType)). lia.
  - intros Hneg. split.
    + unfold l_streets_getAll. now rewrite Z2Nat.nonpos by lia.
    + unfold streets.getByIndex, slot_or_throw, to_uint32.
      replace (numStreets e mod 2 ^ 32) with (numStreets e + 2 ^ 32).
      * destruct (Z.leb_spec (numStreets e + 2 ^ 32) 0); [lia | reflexivity].
      * apply Z.mod_unique with (q := -1); lia.
Qed.

Lemma counted_listings_witness :
  (l_streets_getAll demo_layout demo_engine = [36864; 36920] /\
   listing_matches_index (l_streets_getAll demo_layout demo_engine)
     (streets.getByIndex demo_layout demo_engine)) /\
  (l_streets_getAll demo_layout (engine_with_streets (-1)) = [] /\
   streets.getByIndex demo_layout (engine_with_streets (-1)) 0 = Ret 36864).
Proof.
  split.
  - split; [vm_compute; reflexivity |].
    assert (Hr : - 2 ^ 31 <= 2 < 2 ^ 31) by lia.
    destruct (counted_listings demo_layout demo_engine demo_layout_wf Hr Hr)
      as (Hstreets & _).
    apply Hstreets. cbn. lia.
  - assert (Hs : - 2 ^ 31 <= -1 < 2 ^ 31) by lia.
    assert (Hi : - 2 ^ 31 <= 2 < 2 ^ 31) by lia.
    destruct (counted_listings demo_layout (engine_with_streets (-1))
                demo_layout_wf Hs Hi) as (_ & _ & _ & Hneg).
    apply Hneg. cbn. lia.
Defined.

Lemma zlookup_cons {A : Type} (x : A) (l : list A) (j : Z) :
  0 <= j ->
  zlookup (x :: l) j = if j =? 0 then Some x else zlookup l (j - 1).
Proof.
  intros Hj. unfold zlookup.
  destruct (Z.ltb_spec j 0); [lia |].
  destruct (Z.eqb_spec j 0) as [-> | Hne]; [reflexivity |].
  destruct (Z.ltb_spec (j - 1) 0); [lia |].
  replace (Z.to_nat j) with (S (Z.to_nat (j - 1))) by lia. reflexivity.
Qed.

Lemma getCount_loop_le (rest : list Account) (count n : Z) :
  accounts.getCount_loop rest count = Ret n -> count <= n.
Proof.
  revert count. induction rest as [| acc rest IH]; intros count; cbn.
  - discriminate.
  - destruct (Account_subRosaID acc =? 0).
    + intros [= <-]. lia.
    + intros Hn. apply IH in Hn. lia.
Qed.

Lemma getAll_loop_of_count (L : Layout) (rest : list Account)
    (i count n : Z) :
  accounts.getCount_loop rest count = Ret n ->
  accounts.getAll_loop L rest i
  = Ret (map (elem_addr L CAccount) (seqZ i (n - count))).
Proof.
  revert i count. induction rest as [| acc rest IH]; intros i count; cbn.
  - discriminate.
  - destruct (Account_subRosaID acc =? 0).
    + intros [= <-]. now rewrite Z.sub_diag.
    + intros Hn. pose proof (getCount_loop_le _ _ _ Hn) as Hle.
      rewrite (IH (i + 1) _ Hn).
      assert (Hpos : 0 < n - count) by lia.
      rewrite (seqZ_cons i (n - count) Hpos).
      replace (Z.succ i) with (i + 1) by lia.
      replace (Z.pred (n - count)) with (n - (count + 1)) by lia.
      reflexivity.
Qed.

Definition first_with_phone (L : Layout) (phone : Z) (rest : list Account)
    (i n : Z) (p : Z) : Prop :=
  (p = nullptr /\
   forall j acc, 0 <= j < n -> zlookup rest j = Some acc ->
     Account_phoneNumber acc <> phone)
  \/
  (exists j acc,
     0 <= j < n /\ p = elem_addr L CAccount (i + j) /\
     zlookup rest j = Some acc /\ Account_phoneNumber acc = phone /\
     forall j' acc', 0 <= j' < j -> zlookup rest j' = Some acc' ->
       Account_phoneNumber acc' <> phone).

Lemma getByPhone_loop_of_count (L : Layout) (phone : Z)
    (rest : list Account) (i count n : Z) :
  accounts.getCount_loop rest count = Ret n ->
  exists p,
    accounts.getByPhone_loop L phone rest i = Ret p /\
    first_with_phone L phone rest i (n - count) p.
Proof.
  revert i count. induction rest as [| acc rest IH]; intros i count; cbn.
  - discriminate.
  - destruct (Account_subRosaID acc =? 0).
    + intros [= <-]. exists nullptr. split; [reflexivity |].
      left. split; [reflexivity |]. intros j a Hj. lia.
    + intros Hn. pose proof (getCount_loop_le _ _ _ Hn) as Hle.
      destruct (Z.eqb_spec (Account_phoneNumber acc) phone) as [Hp | Hnp].
      * exists (elem_addr L CAccount i). split; [reflexivity |].
        right. exists 0, acc. split; [lia |].
        split; [now rewrite Z.add_0_r |]. split; [reflexivity |].
        split; [exact Hp |]. intros j' a' Hj'. lia.
      * destruct (IH (i + 1) _ Hn) as (p & Hrun & Hfirst).
        exists p. split; [exact Hrun |].
        destruct Hfirst as [[-> Hnone] | (j & a & Hj & -> & Ha & Hph & Hbefore)].
        -- left. split; [reflexivity |]. intros j a Hj Ha.
           rewrite zlookup_cons in Ha by lia.
           destruct (Z.eqb_spec j 0).
           ++ injection Ha as <-. exact Hnp.
           ++ apply (Hnone (j - 1) a); [lia | exact Ha].
        -- right. exists (j + 1), a. split; [lia |].
           split; [f_equal; lia |]. split.
           { rewrite zlookup_cons by lia.
             destruct (Z.eqb_spec (j + 1) 0); [lia |].
             now replace (j + 1 - 1) with j by lia. }
           split; [exact Hph |]. intros j' a' Hj' Ha'.
           rewrite zlookup_cons in Ha' by lia.
           destruct (Z.eqb_spec j' 0).
           ++ injection Ha' as <-. exact Hnp.
           ++ apply (Hbefore (j' - 1) a'); [lia | exact Ha'].
Qed.

(** X10. When [accounts.getCount] returns [n], [accounts.getAll] returns
    the proxies of slots 0 to [n - 1] in order, and [accounts.getByPhone]
    returns the first of these accounts that has the phone number, or null
    when none of them has it: accounts past the first free slot are never
    found. *)
Theorem accounts_before_first_free (L : Layout) (e : Engine) (n : Z) :
  accounts.getCount e = Ret n ->
  accounts.getAll L e = Ret (map (elem_addr L CAccount) (seqZ 0 n)) /\
  forall phone,
    exists p,
      accounts.getByPhone L e phone = Ret p /\
      first_with_phone L phone (accounts e) 0 n p.
Proof.
  unfold accounts.getCount, accounts.getAll, accounts.getByPhone.
  intros Hn. split.
  - rewrite (getAll_loop_of_count L _ 0 0 n Hn). now rewrite Z.sub_0_r.
  - intros phone.
    destruct (getByPhone_loop_of_count L phone _ 0 0 n Hn) as (p & Hp & Hf).
    exists p. split; [exact Hp |]. now rewrite Z.sub_0_r in Hf.
Qed.

Lemma accounts_before_first_free_witness :
  accounts.getCount engine_with_accounts = Ret 3 /\
  accounts.getAll demo_layout engine_with_accounts = Ret [4096; 4112; 4128] /\
  accounts.getByPhone demo_layout engine_with_accounts 2560002 = Ret 4112.
Proof.
  split; [reflexivity |].
  destruct (accounts_before_first_free demo_layout engine_with_accounts 3
              eq_refl) as (Hall & _).
  split; [exact Hall | vm_compute; reflexivity].
Defined.

Lemma set_dataTables_same (c : Category) (ts : list (option LuaTable))
    (w : World) :
  match c with
  | CPlayer | CHuman | CItem | CVehicle | CRigidBody => True
  | _ => False
  end ->
  dataTables c (set_dataTables c ts w) = ts.
Proof. destruct c; cbn; tauto. Qed.

Lemma set_dataTables_other (c c' : Category) (ts : list (option LuaTable))
    (w : World) :
  c' <> c -> dataTables c' (set_dataTables c ts w) = dataTables c' w.
Proof. destruct c, c'; cbn; congruence. Qed.

(** X11. [getDataTable] allocates at most once: on a slot of the table
    array it returns the table the slot holds, or stores and returns a new
    empty table when the slot holds none; asked again it returns the same
    table and changes nothing. The host's state, the redirects and the
    tables of every other slot and category stay as they were. *)
Theorem getDataTable_allocates_once (c : Category) (index : Z) (w : World) :
  0 <= index < Z.of_nat (length (dataTables c w)) ->
  exists t w',
    getDataTable c index w = Done t w' [] /\
    t = default [] (default None (zlookup (dataTables c w) index)) /\
    getDataTable c index w' = Done t w' [] /\
    zlookup (dataTables c w') index = Some (Some t) /\
    engine w' = engine w /\
    installed w' = installed w /\
    (forall c' j, (c', j) <> (c, index) ->
       zlookup (dataTables c' w') j = zlookup (dataTables c' w) j).
Proof.
  intros Hi.
  assert (Hc : match c with
               | CPlayer | CHuman | CItem | CVehicle | CRigidBody => True
               | _ => False
               end).
  { destruct c; cbn in Hi; try exact I; lia. }
  assert (Hrun : forall v (ts : list (option LuaTable)),
            zlookup ts index = Some (Some v) ->
            getDataTable c index (set_dataTables c ts w)
            = Done v (set_dataTables c ts w) []).
  { intros v ts Hv. unfold getDataTable. rewrite bind_get_world.
    now rewrite set_dataTables_same, Hv by assumption. }
  destruct (zlookup_in_range _ _ Hi) as [[t |] Hx].
  - exists t, w. rewrite Hx. cbn [default].
    assert (Hw : getDataTable c index w = Done t w []).
    { unfold getDataTable. now rewrite bind_get_world, Hx. }
    repeat split; try assumption; reflexivity.
  - exists [], (set_dataTables c (<[Z.to_nat index := Some []]> (dataTables c w)) w).
    rewrite Hx. cbn [default].
    assert (Hnew : zlookup (<[Z.to_nat index := Some []]> (dataTables c w)) index
                   = Some (Some ([] : LuaTable)))
      by now apply zlookup_insert_eq.
    split.
    { unfold getDataTable. rewrite bind_get_world, Hx.
      unfold bind, lift_option. rewrite zupdate_in_range by assumption.
      reflexivity. }
    split; [reflexivity |].
    split; [now apply Hrun |].
    split; [now rewrite set_dataTables_same |].
    split; [reflexivity |]. split; [reflexivity |].
    intros c' j Hne.
    destruct (decide (c' = c)) as [-> | Hcc].
    + rewrite set_dataTables_same by assumption.
      unfold zlookup. destruct (Z.ltb_spec j 0); [reflexivity |].
      apply list_lookup_insert_ne. intros Heq.
      apply Hne. f_equal. lia.
    + now rewrite set_dataTables_other.
Qed.

Lemma getDataTable_allocates_once_witness :
  exists w',
    Item.getDataTable demo_layout 20480 world_with_stale_table
      = Done [("owner"%string, LString "alice")] w' [] /\
    engine w' = engine world_with_stale_table.
Proof.
  assert (Hi : 0 <= 0 < Z.of_nat (length (dataTables CItem world_with_stale_table)))
    by (cbn; lia).
  destruct (getDataTable_allocates_once CItem 0 world_with_stale_table Hi)
    as (t & w' & Hrun & -> & _ & _ & He & _).
  exists w'. split; [exact Hrun | exact He].
Defined.

Lemma getDataTable_fresh (c : Category) (index : Z) (w : World) :
  zlookup (dataTables c w) index = Some None ->
  exists w',
    getDataTable c index w = Done [] w' [] /\ engine w' = engine w.
Proof.
  intros Hx. pose proof (zlookup_Some_range _ _ _ Hx) as Hi.
  unfold getDataTable. rewrite bind_get_world, Hx.
  unfold bind, lift_option. rewrite zupdate_in_range by assumption.
  cbn. eexists. split; reflexivity.
Qed.

Lemma getDataTable_fresh_at (L : Layout) (c : Category) (id : Z) (w : World) :
  wf_layout L -> tables_fit L w ->
  zlookup (dataTables c w) id = Some None ->
  exists w',
    getDataTable c (getIndex L c (elem_addr L c id)) w = Done [] w' [] /\
    engine w' = engine w.
Proof.
  intros HL Hfit Hx. pose proof (zlookup_Some_range _ _ _ Hx) as Hi.
  specialize (Hfit c).
  rewrite getIndex_index_of, index_of_elem_addr by (assumption || lia).
  now apply getDataTable_fresh.
Qed.

(** X12. What a script stored in the data table of a player, human, item
    or vehicle does not survive [remove]: after it, [getDataTable] of the
    same proxy returns a new empty table. *)
Theorem removed_object_loses_table `{Host} (L : Layout) :
  (forall this w w1 tr,
     Player.remove L this w = Done tt w1 tr ->
     exists w2, Player.getDataTable L this w1 = Done [] w2 []
                /\ engine w2 = engine w1) /\
  (forall this w w1 tr,
     Human.remove L this w = Done tt w1 tr ->
     exists w2, Human.getDataTable L this w1 = Done [] w2 []
                /\ engine w2 = engine w1) /\
  (forall this w w1 tr,
     Item.remove L this w = Done tt w1 tr ->
     exists w2, Item.getDataTable L this w1 = Done [] w2 []
                /\ engine w2 = engine w1) /\
  (forall this w w1 tr,
     Vehicle.remove L this w = Done tt w1 tr ->
     exists w2, Vehicle.getDataTable L this w1 = Done [] w2 []
                /\ engine w2 = engine w1).
Proof.
  split; [| split; [| split]]; intros this w w1 tr Hd.
  - apply (getDataTable_fresh CPlayer).
    exact (remove_clears L CPlayer this w w1 tr Hd).
  - apply (getDataTable_fresh CHuman).
    exact (remove_clears L CHuman this w w1 tr Hd).
  - apply (getDataTable_fresh CItem).
    exact (remove_clears L CItem this w w1 tr Hd).
  - apply (getDataTable_fresh CVehicle).
    exact (remove_clears L CVehicle this w w1 tr Hd).
Qed.

Example removed_item_loses_table :
  exists w1 tr w2,
    @Item.remove demo_host demo_layout 20480 world_with_stale_table
      = Done tt w1 tr /\
    Item.getDataTable demo_layout 20480 world_with_stale_table
      = Done [("owner"%string, LString "alice")] world_with_stale_table [] /\
    Item.getDataTable demo_layout 20480 w1 = Done [] w2 [].
Proof.
  eexists _, _, _. split; [vm_compute; reflexivity |].
  split; vm_compute; reflexivity.
Qed.

(** X13. The object handed out by [items.create], [items.createVel],
    [vehicles.create], [vehicles.createVel], [players.createBot] and
    [humans.create] starts with an empty data table, whatever the slot
    held before. *)
Theorem created_object_has_empty_table `{Host} (L : Layout) :
  wf_layout L ->
  (forall type pos vel rot w w' p tr,
     items.createVel L type pos vel rot w = Done p w' tr ->
     p <> nullptr -> tables_fit L w' ->
     exists w2, Item.getDataTable L p w' = Done [] w2 []) /\
  (forall type pos rot w w' p tr,
     items.create L type pos rot w = Done p w' tr ->
     p <> nullptr -> tables_fit L w' ->
     exists w2, Item.getDataTable L p w' = Done [] w2 []) /\
  (forall type pos vel rot color w w' p tr,
     vehicles.createVel L type pos vel rot color w = Done p w' tr ->
     p <> nullptr -> tables_fit L w' ->
     exists w2, Vehicle.getDataTable L p w' = Done [] w2 []) /\
  (forall type pos rot color w w' p tr,
     vehicles.create L type pos rot color w = Done p w' tr ->
     p <> nullptr -> tables_fit L w' ->
     exists w2, Vehicle.getDataTable L p w' = Done [] w2 []) /\
  (forall w w' p tr,
     players.createBot L w = Done p w' tr ->
     p <> nullptr -> tables_fit L w' ->
     exists w2, Player.getDataTable L p w' = Done [] w2 []) /\
  (forall pos rot ply w w' p tr,
     humans.create L pos rot ply w = Done p w' tr ->
     p <> nullptr -> tables_fit L w' ->
     exists w2, Human.getDataTable L p w' = Done [] w2 []).
Proof.
  intros HL.
  assert (Hfresh : forall c id w',
            tables_fit L w' ->
            zlookup (dataTables c w') id = Some None ->
            exists w2,
              getDataTable c (getIndex L c (elem_addr L c id)) w'
              = Done [] w2 []).
  { intros c id w' Hfit Hx.
    destruct (getDataTable_fresh_at L c id w' HL Hfit Hx) as (w2 & Hr & _).
    now exists w2. }
  split; [| split; [| split; [| split; [| split]]]].
  - intros type pos vel rot w w' p tr Hd Hp Hfit.
    destruct (createVel_clears L _ _ _ _ _ _ _ _ Hd Hp) as (id & -> & Hx).
    now apply (Hfresh CItem).
  - intros type pos rot w w' p tr Hd Hp Hfit. unfold items.create in Hd.
    destruct (createVel_clears L _ _ _ _ _ _ _ _ Hd Hp) as (id & -> & Hx).
    now apply (Hfresh CItem).
  - intros type pos vel rot color w w' p tr Hd Hp Hfit.
    destruct (vehicles_createVel_clears L _ _ _ _ _ _ _ _ _ Hd Hp)
      as (id & -> & Hx).
    now apply (Hfresh CVehicle).
  - intros type pos rot color w w' p tr Hd Hp Hfit.
    destruct (vehicles_create_clears L _ _ _ _ _ _ _ _ Hd Hp)
      as (id & -> & Hx).
    now apply (Hfresh CVehicle).
  - intros w w' p tr Hd Hp Hfit.
    destruct (createBot_clears L _ _ _ _ Hd Hp) as (id & -> & Hx).
    now apply (Hfresh CPlayer).
  - intros pos rot ply w w' p tr Hd Hp Hfit.
    destruct (humans_create_clears L _ _ _ _ _ _ _ Hd Hp) as (id & -> & Hx).
    now apply (Hfresh CHuman).
Qed.

Lemma created_object_has_empty_table_witness :
  exists p w' tr w2,
    @items.createVel demo_host demo_layout
      (elem_addr demo_layout CItemType 2) tt None tt world_with_stale_table
      = Done p w' tr /\
    p = 20480 /\
    Item.getDataTable demo_layout p w' = Done [] w2 [].
Proof.
  evar (w' : World). evar (tr : list Event).
  assert (E : @items.createVel demo_host demo_layout
                (elem_addr demo_layout CItemType 2) tt None tt
                world_with_stale_table = Done 20480 w' tr).
  { subst w' tr. vm_compute. reflexivity. }
  destruct (@created_object_has_empty_table demo_host demo_layout
              demo_layout_wf) as (Hitem & _).
  destruct (Hitem _ _ _ _ _ _ _ _ E) as (w2 & Hw2).
  - discriminate.
  - intros c. subst w'. destruct c; vm_compute; discriminate.
  - exists 20480, w', tr, w2. auto.
Defined.

Lemma stored_index_round_trip (L : Layout) (c : Category) (p : Z) :
  wf_layout L -> nil_or_slot L c p ->
  let id := if p =? nullptr then -1 else index_of L c p in
  (if id =? -1 then nullptr else elem_addr L c id) = p.
Proof.
  intros HL [-> | (i & Hi & ->)]; cbn zeta.
  - reflexivity.
  - pose proof (elem_addr_not_null L HL c i Hi) as Hnn.
    destruct (Z.eqb_spec (elem_addr L c i) nullptr); [contradiction |].
    rewrite index_of_elem_addr by assumption.
    destruct (Z.eqb_spec i (-1)); [lia | reflexivity].
Qed.

(** X14. A setter followed by its getter gives back what was set: for nil
    or the proxy of any slot, [getHuman] after [setHuman], [getPlayer]
    after [setPlayer], [getVehicle] after [setVehicle] and
    [getGrenadePrimer] after [setGrenadePrimer] return the argument.
    [setAccount] refuses nil with "Cannot set account to nil value" and
    otherwise [getAccount] returns the account set. *)
Theorem setter_getter_round_trip (L : Layout) :
  wf_layout L ->
  (forall human self, nil_or_slot L CHuman human ->
     Player.getHuman L (Player_setHuman L human self) = human) /\
  (forall player self, nil_or_slot L CPlayer player ->
     Human.getPlayer L (Human_setPlayer L player self) = player) /\
  (forall vcl self, nil_or_slot L CVehicle vcl ->
     Human.getVehicle L (Human_setVehicle L vcl self) = vcl) /\
  (forall player self, nil_or_slot L CPlayer player ->
     Item.getGrenadePrimer L (Item_setGrenadePrimer L player self) = player) /\
  (forall self,
     Player_setAccount L nullptr self
     = Throw "Cannot set account to nil value") /\
  (forall i self, 0 <= i < capacity L CAccount ->
     exists self',
       Player_setAccount L (elem_addr L CAccount i) self = Ret self' /\
       Player.getAccount L self' = elem_addr L CAccount i /\
       Player_humanID self' = Player_humanID self).
Proof.
  intros HL.
  split; [| split; [| split; [| split; [| split]]]].
  - intros human self Hh.
    exact (stored_index_round_trip L CHuman human HL Hh).
  - intros player self Hp.
    exact (stored_index_round_trip L CPlayer player HL Hp).
  - intros vcl self Hv.
    exact (stored_index_round_trip L CVehicle vcl HL Hv).
  - intros player self Hp.
    pose proof (stored_index_round_trip L CPlayer player HL Hp) as Hr.
    unfold Item.getGrenadePrimer, Item_setGrenadePrimer. cbn in *.
    destruct (player =? nullptr); exact Hr.
  - reflexivity.
  - intros i self Hi. unfold Player_setAccount.
    pose proof (elem_addr_not_null L HL CAccount i Hi) as Hnn.
    destruct (Z.eqb_spec (elem_addr L CAccount i) nullptr); [contradiction |].
    eexists. split; [reflexivity |]. split; [| reflexivity].
    unfold Player.getAccount, Account.getIndex. cbn.
    now rewrite index_of_elem_addr.
Qed.

Lemma setter_getter_round_trip_witness :
  Player.getHuman demo_layout (Player_setHuman demo_layout 12416 stray_player)
  = 12416 /\
  Player.getHuman demo_layout (Player_setHuman demo_layout nullptr stray_player)
  = nullptr.
Proof.
  destruct (setter_getter_round_trip demo_layout demo_layout_wf)
    as (Hhuman & _).
  split; apply Hhuman.
  - right. exists 1. split; [cbn; lia | reflexivity].
  - now left.
Defined.

Section Redirects.
Context `{Host} (L : Layout).

Lemma Hook_eqb_eq (a b : Hook) : Hook_eqb a b = true -> a = b.
Proof. destruct a, b; cbn; congruence. Qed.

Lemma keeps_ret {A : Type} (a : A) : keeps_hooks (ret a).
Proof. intros w h. reflexivity. Qed.

Lemma keeps_throw {A : Type} (what : string) : keeps_hooks (@throw A what).
Proof. intros w h. reflexivity. Qed.

Lemma keeps_bind {A B : Type} (m : M A) (k : A -> M B) :
  keeps_hooks m -> (forall a, keeps_hooks (k a)) -> keeps_hooks (bind m k).
Proof.
  intros Hm Hk w. unfold bind. specialize (Hm w).
  destruct (m w) as [a w1 tr1 | what w1 tr1 |]; [| exact Hm | exact I].
  specialize (Hk a w1).
  destruct (k a w1) as [b w2 tr2 | what w2 tr2 |]; [| | exact I];
    intros h; now rewrite Hk, Hm.
Qed.

Lemma keeps_scoped {A : Type} (h : Hook) (body : M A) :
  keeps_hooks body -> keeps_hooks (ScopedHookRemove h body).
Proof.
  intros Hb w. unfold ScopedHookRemove.
  destruct (installed w h) eqn:Hin.
  - specialize (Hb (set_installed h false w)).
    destruct (body (set_installed h false w)) as [a w' tr | what w' tr |];
      [| | exact I]; intros h'; cbn; rewrite Hb; cbn;
      (destruct (Hook_eqb h h') eqn:Heq;
       [apply Hook_eqb_eq in Heq; subst h'; now rewrite Hin | reflexivity]).
  - specialize (Hb w).
    destruct (body w) as [a w' tr | what w' tr |]; [| | exact I]; exact Hb.
Qed.

Lemma keeps_call_engine {A : Type} (c : EngineCall) (f : Engine -> A * Engine) :
  keeps_hooks (call_engine c f).
Proof. intros w. unfold call_engine. destruct (f (engine w)). reflexivity. Qed.

Lemma keeps_run_engine (c : EngineCall) (f : Engine -> Engine) :
  keeps_hooks (run_engine c f).
Proof. intros w h. reflexivity. Qed.

Lemma keeps_clearDataTable (c : Category) (id : Z) :
  keeps_hooks (clearDataTable c id).
Proof.
  intros w. unfold clearDataTable. rewrite bind_get_world.
  destruct (zlookup (dataTables c w) id) as [[t |] |]; cbn; try easy.
  unfold bind, lift_option.
  destruct (zupdate (dataTables c w) id None); cbn; easy.
Qed.

Lemma keeps_write_player_at (i : Z) (f : Player -> Player) :
  keeps_hooks (write_player_at i f).
Proof.
  intros w. unfold write_player_at. rewrite bind_get_world.
  unfold bind, lift_option.
  destruct (zlookup (players (engine w)) i); cbn; [| exact I].
  destruct (zupdate (players (engine w)) i (f p)); cbn; easy.
Qed.

Lemma keeps_write_human_at (i : Z) (f : Human -> Human) :
  keeps_hooks (write_human_at i f).
Proof.
  intros w. unfold write_human_at. rewrite bind_get_world.
  unfold bind, lift_option.
  destruct (zlookup (humans (engine w)) i); cbn; [| exact I].
  destruct (zupdate (humans (engine w)) i (f h)); cbn; easy.
Qed.

Lemma keeps_slot_of (c : Category) (p : Z) : keeps_hooks (slot_of L c p).
Proof.
  intros w. unfold slot_of. destruct (_ =? p); cbn; easy.
Qed.

Lemma keeps_read_player (ply : Z) : keeps_hooks (read_player L ply).
Proof.
  unfold read_player. apply keeps_bind; [apply keeps_slot_of |].
  intros i w. rewrite bind_get_world. unfold lift_option.
  destruct (zlookup (players (engine w)) i); cbn; easy.
Qed.

Lemma keeps_write_player (ply : Z) (f : Player -> Player) :
  keeps_hooks (write_player L ply f).
Proof.
  unfold write_player. apply keeps_bind; [apply keeps_slot_of |].
  intros i. apply keeps_write_player_at.
Qed.

Lemma keeps_clear_then_return (c : Category) (id : Z) :
  keeps_hooks
    ((if id =? -1 then ret tt else clearDataTable c id) ;;;
     ret (if id =? -1 then nullptr else elem_addr L c id)).
Proof.
  apply keeps_bind; [| intros _; apply keeps_ret].
  destruct (id =? -1); [apply keeps_ret | apply keeps_clearDataTable].
Qed.

(** X15. No create or remove function leaves a redirect removed: when
    [Player.remove], [Human.remove], [Item.remove], [Vehicle.remove],
    [items.create], [items.createVel], [items.createRope],
    [vehicles.create], [vehicles.createVel], [players.createBot] or
    [humans.create] returns or throws, every redirect is installed exactly
    if it was installed before the call. *)
Theorem redirects_reinstated :
  (forall this, keeps_hooks (Player.remove L this)) /\
  (forall this, keeps_hooks (Human.remove L this)) /\
  (forall this, keeps_hooks (Item.remove L this)) /\
  (forall this, keeps_hooks (Vehicle.remove L this)) /\
  (forall type pos rot, keeps_hooks (items.create L type pos rot)) /\
  (forall type pos vel rot, keeps_hooks (items.createVel L type pos vel rot)) /\
  (forall pos rot, keeps_hooks (items.createRope L pos rot)) /\
  (forall type pos rot color,
     keeps_hooks (vehicles.create L type pos rot color)) /\
  (forall type pos vel rot color,
     keeps_hooks (vehicles.createVel L type pos vel rot color)) /\
  keeps_hooks (players.createBot L) /\
  (forall pos rot ply, keeps_hooks (humans.create L pos rot ply)).
Proof.
  assert (Hremove : forall h c f c' index,
            keeps_hooks (ScopedHookRemove h
              (run_engine c f ;;; clearDataTable c' index))).
  { intros. apply keeps_scoped, keeps_bind; [apply keeps_run_engine |].
    intros _. apply keeps_clearDataTable. }
  assert (HcreateVel : forall type pos vel rot,
            keeps_hooks (items.createVel L type pos vel rot)).
  { intros. unfold items.createVel. apply keeps_scoped.
    destruct (type =? nullptr); [apply keeps_throw |].
    apply keeps_bind; [apply keeps_call_engine |].
    intros id. apply keeps_clear_then_return. }
  repeat match goal with |- _ /\ _ => split end.
  - intros this. apply Hremove.
  - intros this. apply Hremove.
  - intros this. apply Hremove.
  - intros this. unfold Vehicle.remove.
    apply keeps_bind; [apply keeps_run_engine |].
    intros _. apply keeps_clearDataTable.
  - intros type pos rot. apply HcreateVel.
  - exact HcreateVel.
  - intros pos rot. unfold items.createRope.
    apply keeps_bind; [apply keeps_call_engine | intros id; apply keeps_ret].
  - intros type pos rot color. unfold vehicles.create. apply keeps_scoped.
    apply keeps_bind; [apply keeps_call_engine |].
    intros id. apply keeps_clear_then_return.
  - intros type pos vel rot color. unfold vehicles.createVel.
    apply keeps_scoped.
    apply keeps_bind; [apply keeps_call_engine |].
    intros id. apply keeps_clear_then_return.
  - unfold players.createBot. apply keeps_scoped.
    apply keeps_bind; [apply keeps_call_engine |].
    intros id. destruct (id =? -1); [apply keeps_ret |].
    apply keeps_bind; [apply keeps_clearDataTable |]. intros _.
    apply keeps_bind; [apply keeps_write_player_at |]. intros _.
    apply keeps_ret.
  - intros pos rot ply. unfold humans.create.
    apply keeps_bind; [apply keeps_read_player |]. intros p.
    apply keeps_bind.
    { destruct (Player_humanID p =? -1); [apply keeps_ret |].
      apply keeps_scoped, keeps_run_engine. }
    intros _.
    apply keeps_bind; [apply keeps_scoped, keeps_call_engine |].
    intros id. destruct (id =? -1); [apply keeps_ret |].
    apply keeps_bind; [apply keeps_clearDataTable |]. intros _.
    apply keeps_bind; [apply keeps_write_human_at |]. intros _.
    apply keeps_bind; [apply keeps_write_player |]. intros _.
    apply keeps_ret.
Qed.
End Redirects.

Example createVel_nil_type_reinstates :
  exists w',
    @items.createVel demo_host demo_layout nullptr tt None tt demo_world
    = Raised "Cannot create item with nil type" w'
        [EvHookRemove createItemHook; EvHookInstall createItemHook] /\
    installed w' createItemHook = true /\
    engine w' = engine demo_world.
Proof. eexists. split; [vm_compute; reflexivity |]. split; reflexivity. Qed.

Module RequestOrderFacts.
Import HTTPThread RequestOrder.

Section Order.
Context `{Network}.

Lemma handleHTTPResponse_answer (req : LuaHTTPRequest)
    (q : list LuaHTTPResponse) :
  handleHTTPResponse req (perform req) q = q ++ [answer req].
Proof. unfold answer. destruct (perform req); reflexivity. Qed.

Lemma worker_step_kept (hist : list LuaHTTPRequest) (s s' : State) :
  kept hist s -> worker_step s = Some s' -> kept hist s'.
Proof.
  intros [(served & Hh & Hq) Hres]. unfold worker_step.
  destruct (wpc s) eqn:Hpc; cbn in Hh, Hres.
  - destruct (free (stateResetMutex s)); [| discriminate].
    intros [= <-]. split; [exists served; cbn; auto | exact I].
  - destruct (free (requestQueueMutex s)); [| discriminate].
    intros [= <-]. split; [exists served; cbn; auto | exact I].
  - destruct (requestQueue s) as [| req rest] eqn:Hrq; intros [= <-].
    + split; [exists served; cbn; auto | exact I].
    + split; [exists served; cbn; auto | exact I].
  - intros [= <-]. split; [exists served; cbn; auto | exact I].
  - intros [= <-]. split; [exists served; cbn; auto | exact I].
  - intros [= <-]. split; [exists served; cbn; auto | reflexivity].
  - destruct (free (responseQueueMutex s)); [| discriminate].
    intros [= <-]. split; [exists served; cbn; auto | exact Hres].
  - intros [= <-]. split; [| exact I].
    exists (served ++ [req]). cbn. split.
    + now rewrite <- app_assoc.
    + rewrite Hres, handleHTTPResponse_answer, Hq, map_app. reflexivity.
  - intros [= <-]. split; [exists served; cbn; auto | exact I].
  - intros [= <-]. split; [exists served; cbn; auto | exact I].
  - intros [= <-]. split; [exists served; cbn; auto | exact I].
Qed.

Lemma script_step_kept (mv : ScriptMove) (hist : list LuaHTTPRequest)
    (s s' : State) :
  kept hist s -> script_step mv s = Some s' ->
  kept (hist ++ pushed (RunScript mv) s) s'.
Proof.
  intros [(served & Hh & Hq) Hres]. unfold script_step, pushed.
  destruct mv, (spc s) eqn:Hpc; try discriminate.
  - destruct (free (requestQueueMutex s)); [| discriminate].
    intros [= <-]. rewrite app_nil_r.
    split; [exists served; cbn; auto | exact Hres].
  - intros [= <-]. split; [| exact Hres].
    exists served. cbn. split; [| exact Hq].
    rewrite Hh, <- !app_assoc. reflexivity.
  - destruct (free (stateResetMutex s)); [| discriminate].
    intros [= <-]. rewrite app_nil_r.
    split; [exists served; cbn; auto | exact Hres].
  - intros [= <-]. rewrite app_nil_r.
    split; [exists served; cbn; auto | exact Hres].
  - intros [= <-]. rewrite app_nil_r.
    split; [exists served; cbn; auto | exact Hres].
Qed.

Lemma step_kept (c : Choice) (hist : list LuaHTTPRequest) (s s' : State) :
  kept hist s -> step c s = Some s' -> kept (hist ++ pushed c s) s'.
Proof.
  destruct c as [| mv]; cbn [step].
  - intros Hk Hs. unfold pushed. rewrite app_nil_r.
    now apply (worker_step_kept hist s s').
  - apply script_step_kept.
Qed.

Lemma run_kept (cs : list Choice) (hist : list LuaHTTPRequest) (s s' : State) :
  kept hist s -> run cs s = Some s' -> kept (hist ++ submitted cs s) s'.
Proof.
  revert hist s. induction cs as [| c cs IH]; intros hist s Hk; cbn.
  - intros [= <-]. now rewrite app_nil_r.
  - destruct (step c s) as [s1 |] eqn:Hs; [| discriminate].
    intros Hrun. rewrite app_assoc.
    apply (IH _ s1); [| exact Hrun]. now apply step_kept.
Qed.

Lemma kept_initial : kept [] initial.
Proof. split; [exists []; split; reflexivity | exact I]. Qed.
End Order.
End RequestOrderFacts.

(** X16. No request is lost, answered twice or overtaken: along every
    schedule of [l_http_get], [l_http_post] and the worker, the requests
    pushed so far are, in the order of their pushes, first those already
    answered, then the one the worker carries, then those still on
    [requestQueue]; [responseQueue] holds the responses of the answered
    ones in that order, each made from the network's result for its
    request. *)
Theorem requests_answered_in_order `{Network} (cs : list HTTPThread.Choice)
    (s : HTTPThread.State) :
  forallb RequestOrder.api_move cs = true ->
  HTTPThread.run cs HTTPThread.initial = Some s ->
  exists served,
    RequestOrder.submitted cs HTTPThread.initial
    = served ++ RequestOrder.carried (HTTPThread.wpc s)
        ++ HTTPThread.requestQueue s /\
    HTTPThread.responseQueue s = map RequestOrder.answer served.
Proof.
  intros _ Hrun.
  destruct (RequestOrderFacts.run_kept cs [] _ s
              RequestOrderFacts.kept_initial Hrun) as [Hin _].
  exact Hin.
Qed.

Lemma requests_answered_in_order_witness :
  exists s,
    HTTPThread.run RequestOrder.two_requests HTTPThread.initial = Some s /\
    RequestOrder.submitted RequestOrder.two_requests HTTPThread.initial
    = [demo_request; RequestOrder.second_request] /\
    HTTPThread.responseQueue s
    = [failed_response demo_request;
       failed_response RequestOrder.second_request].
Proof.
  evar (s : HTTPThread.State).
  assert (E : HTTPThread.run RequestOrder.two_requests HTTPThread.initial
              = Some s).
  { subst s. vm_compute. reflexivity. }
  destruct (requests_answered_in_order RequestOrder.two_requests s
              eq_refl E) as (served & Hs & Hq).
  exists s. split; [exact E |]. split; vm_compute; reflexivity.
Defined.

Section CreateOutcome.
Context `{Host} (L : Layout).

Lemma clearDataTable_runs (c : Category) (id : Z) (w : World) :
  0 <= id < Z.of_nat (length (dataTables c w)) ->
  exists w',
    clearDataTable c id w = Done tt w' [] /\
    engine w' = engine w /\
    (forall h, installed w' h = installed w h) /\
    zlookup (dataTables c w') id = Some None /\
    (forall j, j <> id ->
       zlookup (dataTables c w') j = zlookup (dataTables c w) j).
Proof.
  intros Hid.
  assert (Hc : match c with
               | CPlayer | CHuman | CItem | CVehicle | CRigidBody => True
               | _ => False
               end).
  { destruct c; cbn in Hid; try exact I; lia. }
  unfold clearDataTable. rewrite bind_get_world.
  destruct (zlookup_in_range _ _ Hid) as [[t |] Hx]; rewrite Hx.
  - unfold bind, lift_option. rewrite zupdate_in_range by assumption.
    cbn. eexists. split; [reflexivity |]. split; [reflexivity |].
    split; [reflexivity |].
    rewrite set_dataTables_same by assumption.
    split; [now apply zlookup_insert_eq |].
    intros j Hj. unfold zlookup. destruct (Z.ltb_spec j 0); [reflexivity |].
    apply list_lookup_insert_ne. lia.
  - exists w. repeat split; auto.
Qed.

Lemma clearDataTable_outside (c : Category) (id : Z) (w : World) :
  ~ 0 <= id < Z.of_nat (length (dataTables c w)) ->
  clearDataTable c id w = Crashed.
Proof.
  intros Hid. unfold clearDataTable. rewrite bind_get_world.
  destruct (zlookup (dataTables c w) id) as [x |] eqn:Hx; [| reflexivity].
  apply zlookup_Some_range in Hx. contradiction.
Qed.

Lemma scoped_create_run (h : Hook) (c : Category) (call : EngineCall)
    (f : Engine -> Z * Engine) (w : World) :
  let w0 := if installed w h then set_installed h false w else w in
  let id := fst (f (engine w)) in
  ScopedHookRemove h
    (id <- call_engine call f ;;
     (if id =? -1 then ret tt else clearDataTable c id) ;;;
     ret (if id =? -1 then nullptr else elem_addr L c id)) w
  = match
      (if id =? -1 then ret tt else clearDataTable c id)
        (set_engine (snd (f (engine w))) w0)
    with
    | Done _ w1 tr =>
        Done (if id =? -1 then nullptr else elem_addr L c id)
          (if installed w h then set_installed h true w1 else w1)
          ((if installed w h then [EvHookRemove h] else [])
           ++ (([EvEngine call] ++ tr ++ [])
               ++ (if installed w h then [EvHookInstall h] else [])))
    | Raised what w1 tr =>
        Raised what
          (if installed w h then set_installed h true w1 else w1)
          ((if installed w h then [EvHookRemove h] else [])
           ++ (([EvEngine call] ++ tr)
               ++ (if installed w h then [EvHookInstall h] else [])))
    | Crashed => Crashed
    end.
Proof.
  cbn zeta. unfold ScopedHookRemove, bind, call_engine.
  assert (He : engine (if installed w h then set_installed h false w else w)
               = engine w) by (destruct (installed w h); reflexivity).
  rewrite He. destruct (f (engine w)) as [id e']. cbn [fst snd].
  destruct ((if id =? -1 then ret tt else clearDataTable c id)
              (set_engine e' (if installed w h then set_installed h false w else w)))
    as [[] w1 tr | what w1 tr |]; reflexivity.
Qed.

Lemma scoped_create (h : Hook) (c : Category) (call : EngineCall)
    (f : Engine -> Z * Engine) (w : World) :
  let id := fst (f (engine w)) in
  (no_slot_or_in c w id ->
   created L c call id (snd (f (engine w))) w
     (ScopedHookRemove h
        (id <- call_engine call f ;;
         (if id =? -1 then ret tt else clearDataTable c id) ;;;
         ret (if id =? -1 then nullptr else elem_addr L c id)) w)) /\
  (~ no_slot_or_in c w id ->
   ScopedHookRemove h
     (id <- call_engine call f ;;
      (if id =? -1 then ret tt else clearDataTable c id) ;;;
      ret (if id =? -1 then nullptr else elem_addr L c id)) w = Crashed).
Proof.
  cbn zeta. rewrite scoped_create_run. unfold no_slot_or_in, created.
  set (w0 := if installed w h then set_installed h false w else w).
  set (id := fst (f (engine w))). set (e' := snd (f (engine w))).
  assert (Ht0 : forall c', dataTables c' (set_engine e' w0) = dataTables c' w).
  { intros c'. unfold w0. destruct (installed w h); destruct c'; reflexivity. }
  assert (Hback : forall w1,
            (forall h', installed w1 h' = installed (set_engine e' w0) h') ->
            forall h', installed (if installed w h then set_installed h true w1
                                  else w1) h' = installed w h').
  { intros w1 Hw1 h'. unfold w0 in Hw1.
    destruct (installed w h) eqn:Hin; cbn; rewrite ?Hw1; cbn; [| reflexivity].
    destruct (Hook_eqb h h') eqn:Heq; [| reflexivity].
    apply Hook_eqb_eq in Heq. subst h'. now rewrite Hin. }
  assert (Hcalls : forall tr : list Event,
            engine_calls tr = [] ->
            engine_calls
              ((if installed w h then [EvHookRemove h] else [])
               ++ (([EvEngine call] ++ tr ++ [])
                   ++ (if installed w h then [EvHookInstall h] else [])))
            = [call]).
  { intros tr Htr. rewrite !engine_calls_app, Htr.
    destruct (installed w h); reflexivity. }
  assert (Htabs : forall w1 c',
            dataTables c' (if installed w h then set_installed h true w1 else w1)
            = dataTables c' w1).
  { intros w1 c'. destruct (installed w h); destruct c'; reflexivity. }
  assert (Heng : forall w1,
            engine (if installed w h then set_installed h true w1 else w1)
            = engine w1).
  { intros w1. destruct (installed w h); reflexivity. }
  destruct (Z.eqb_spec id (-1)) as [Hm1 | Hne].
  - split; [| intros Hno; exfalso; apply Hno; now left].
    intros _. unfold ret.
    eexists _, _. split; [reflexivity |].
    split; [now rewrite Heng |].
    split; [now apply Hcalls |].
    split; [now apply Hback |].
    split; [intros Hc; contradiction |].
    intros j _. now rewrite Htabs, Ht0.
  - split.
    + intros [Hm1 | Hin]; [contradiction |].
      destruct (clearDataTable_runs c id (set_engine e' w0))
        as (w1 & Hrun & He1 & Hh1 & Hx1 & Hj1); [now rewrite Ht0 |].
      rewrite Hrun.
      eexists _, _. split; [reflexivity |].
      split; [now rewrite Heng, He1 |].
      split; [now apply Hcalls |].
      split; [now apply Hback |].
      split; [intros _; now rewrite Htabs |].
      intros j Hj. now rewrite Htabs, (Hj1 j Hj), Ht0.
    + intros Hno.
      rewrite clearDataTable_outside; [reflexivity |].
      rewrite Ht0. intros Hin. apply Hno. now right.
Qed.

End CreateOutcome.

(** X17. What [items.createVel] does in every case. With a nil type it
    throws "Cannot create item with nil type" before the host is called:
    host state and data tables are as before and the createItem redirect is
    back in place. Otherwise it calls [Engine::createItem] once with the
    type's index; when the host answers -1 it returns null, when it
    answers a slot it returns that slot's proxy with the slot's data table
    cleared and all others untouched, and an answer outside the table
    array is undefined behaviour. [items.create] is [createVel] without a
    velocity. *)
Theorem items_createVel_outcome `{Host} (L : Layout) (type : Z) (pos : Vector)
    (vel : option Vector) (rot : RotMatrix) (w : World) :
  let answer :=
    Engine_createItem (ItemType.getIndex L type) pos vel rot (engine w) in
  (type = nullptr ->
   exists w' tr,
     items.createVel L type pos vel rot w
     = Raised "Cannot create item with nil type" w' tr /\
     engine w' = engine w /\ same_tables w w' /\
     engine_calls tr = [] /\
     forall h, installed w' h = installed w h) /\
  (type <> nullptr -> no_slot_or_in CItem w (fst answer) ->
   created L CItem (CallCreateItem (ItemType.getIndex L type))
     (fst answer) (snd answer) w (items.createVel L type pos vel rot w)) /\
  (type <> nullptr -> ~ no_slot_or_in CItem w (fst answer) ->
   items.createVel L type pos vel rot w = Crashed) /\
  items.create L type pos rot w = items.createVel L type pos None rot w.
Proof.
  cbn zeta. split; [| split; [| split; [| reflexivity]]].
  - intros ->. unfold items.createVel, ScopedHookRemove. cbn.
    destruct (installed w createItemHook) eqn:Hin; cbn;
      eexists _, _; (split; [reflexivity |]);
      (split; [reflexivity |]);
      (split; [intros c; destruct c; reflexivity |]);
      (split; [reflexivity |]); intros h'; try reflexivity.
    destruct h'; cbn; try reflexivity. now rewrite Hin.
  - intros Hty Hans. unfold items.createVel.
    destruct (Z.eqb_spec type nullptr); [contradiction |].
    now apply (scoped_create L createItemHook CItem).
  - intros Hty Hans. unfold items.createVel.
    destruct (Z.eqb_spec type nullptr); [contradiction |].
    now apply (scoped_create L createItemHook CItem).
Qed.

Example items_createVel_full_array :
  exists w' tr,
    @items.createVel demo_host demo_layout
      (elem_addr demo_layout CItemType 1) tt None tt
      (set_engine busy_engine_full demo_world)
    = Done nullptr w' tr /\
    engine_calls tr = [CallCreateItem 1].
Proof. eexists _, _. split; vm_compute; reflexivity. Qed.

Lemma length_append (s1 s2 : string) :
  String.length (s1 ++ s2) = (String.length s1 + String.length s2)%nat.
Proof.
  induction s1 as [| a s1 IH]; [reflexivity |].
  change (S (String.length (s1 ++ s2)) = S (String.length s1 + String.length s2)%nat).
  now f_equal.
Qed.

Lemma digits_length_pos (fuel : nat) (n : Z) :
  (1 <= String.length (digits (S fuel) n))%nat.
Proof.
  cbn [digits]. destruct (n <? 10); [cbn; lia |].
  rewrite length_append. cbn. lia.
Qed.

(** A number below [10 ^ k] has at most [k] digits, and no fewer than
    that. *)
Lemma digits_length (fuel : nat) (n : Z) (k : nat) :
  0 <= n < 10 ^ Z.of_nat fuel -> (1 <= k)%nat ->
  (String.length (digits fuel n) <= k)%nat <-> n < 10 ^ Z.of_nat k.
Proof.
  revert n k. induction fuel as [| fuel IH]; intros n k Hn Hk.
  - cbn in Hn. assert (n = 0) by lia. subst n. cbn. split; [| lia].
    intros _. apply Z.pow_pos_nonneg; lia.
  - cbn [digits]. destruct (Z.ltb_spec n 10) as [Hlt | Hge].
    + cbn. split; [intros _ | lia].
      assert (10 ^ 1 <= 10 ^ Z.of_nat k) by (apply Z.pow_le_mono_r; lia).
      lia.
    + rewrite length_append. cbn [String.length].
      rewrite Nat2Z.inj_succ, Z.pow_succ_r in Hn by lia.
      assert (Hdiv : 0 <= n / 10 < 10 ^ Z.of_nat fuel).
      { split; [apply Z.div_pos; lia |].
        apply Z.div_lt_upper_bound; lia. }
      destruct fuel as [| fuel'].
      { cbn in Hdiv. assert (n / 10 = 0) by lia.
        assert (n < 10) by (apply Z.div_small_iff in H; lia). lia. }
      pose proof (digits_length_pos fuel' (n / 10)) as Hpos.
      destruct k as [| [| k']]; [lia | |].
      * split; [lia |]. cbn. lia.
      * assert (Hiff : n / 10 < 10 ^ Z.of_nat (S k')
                       <-> n < 10 ^ Z.of_nat (S (S k'))).
        { rewrite (Nat2Z.inj_succ (S k')), Z.pow_succ_r by lia.
          split; intros Hlt.
          - pose proof (Z.mul_div_le n 10 ltac:(lia)).
            pose proof (Z_div_mod_eq_full n 10).
            pose proof (Z.mod_pos_bound n 10 ltac:(lia)). lia.
          - apply Z.div_lt_upper_bound; lia. }
        rewrite <- Hiff, <- (IH (n / 10) (S k') Hdiv) by lia.
        lia.
Qed.

Lemma format_int_length (n k : Z) :
  - 2 ^ 31 <= n < 2 ^ 31 -> 2 <= k ->
  Z.of_nat (String.length (format_int n)) <= k
  <-> - 10 ^ (k - 1) < n < 10 ^ k.
Proof.
  intros Hn Hk. unfold format_int.
  assert (Hpow : 10 ^ (k - 1) * 10 = 10 ^ k).
  { replace k with (Z.succ (k - 1)) at 2 by lia.
    rewrite Z.pow_succ_r by lia. lia. }
  assert (Hpos : 0 < 10 ^ (k - 1)) by (apply Z.pow_pos_nonneg; lia).
  destruct (Z.ltb_spec n 0) as [Hneg | Hnn].
  - cbn [String.length].
    pose proof (digits_length 10 (- n) (Z.to_nat (k - 1))) as Hd.
    rewrite Z2Nat.id in Hd by lia.
    change (10 ^ Z.of_nat 10) with 10000000000 in Hd.
    specialize (Hd ltac:(lia) ltac:(lia)). lia.
  - pose proof (digits_length 10 n (Z.to_nat k)) as Hd.
    rewrite Z2Nat.id in Hd by lia.
    change (10 ^ Z.of_nat 10) with 10000000000 in Hd.
    specialize (Hd ltac:(lia) ltac:(lia)). lia.
Qed.

Lemma to_int_range (z : Z) : - 2 ^ 31 <= to_int z < 2 ^ 31.
Proof.
  unfold to_int. pose proof (Z.mod_pos_bound (z + 2 ^ 31) (2 ^ 32)). lia.
Qed.

Lemma getIndex_range (L : Layout) (c : Category) (this : Z) :
  - 2 ^ 31 <= getIndex L c this < 2 ^ 31.
Proof. rewrite getIndex_index_of. apply to_int_range. Qed.

Lemma byte_of_range (address k : Z) : 0 <= byte_of address k < 256.
Proof. unfold byte_of. apply Z.mod_pos_bound. lia. Qed.

Lemma tostring_length (L : Layout) (c : Category) (this : Z) :
  Z.of_nat (String.length (tostring L c this))
  = Z.of_nat (String.length (className c)) + 2
    + Z.of_nat (String.length (format_int (getIndex L c this))).
Proof.
  unfold tostring. rewrite !length_append. cbn [String.length]. lia.
Qed.

(** X18. Which [__tostring] calls stay inside their [sprintf] buffer.
    [Account] and [StreetIntersection] have 32 bytes, enough for every
    [int]. The other classes have 16: the text of a proxy fits exactly
    when its index is at most [last_printable] (9999 for a rigid body,
    99999 for an item type, seven digits or more for the rest) and, if
    negative, has one digit less. [addressFromInteger] always fits its 16
    bytes. *)
Theorem tostring_stays_in_buffer (L : Layout) (c : Category) (this : Z) :
  (fits (bufSize c) (tostring L c this) <->
   match c with
   | CAccount | CStreetIntersection => True
   | _ =>
       - (last_printable c / 10) <= getIndex L c this <= last_printable c
   end) /\
  (wf_layout L ->
   forall i, 0 <= i < capacity L c ->
     (fits (bufSize c) (tostring L c (elem_addr L c i))
      <-> i <= last_printable c)) /\
  (forall address, fits 16 (addressFromInteger address)).
Proof.
  assert (Hgen : forall p,
    fits (bufSize c) (tostring L c p) <->
    match c with
    | CAccount | CStreetIntersection => True
    | _ => - (last_printable c / 10) <= getIndex L c p <= last_printable c
    end).
  { intros p. unfold fits. rewrite tostring_length.
    pose proof (getIndex_range L c p) as Hr. revert Hr.
    generalize (getIndex L c p) as idx. intros idx Hr.
    destruct c;
      match goal with
      | |- Z.of_nat (String.length (className ?c)) + _ + _ < bufSize ?c <-> _ =>
          let k := eval vm_compute in
            (bufSize c - 3 - Z.of_nat (String.length (className c))) in
          let lo := eval vm_compute in (- 10 ^ (k - 1)) in
          let hi := eval vm_compute in (10 ^ k) in
          pose proof (format_int_length idx k Hr ltac:(lia)) as Hk;
          change (- 10 ^ (k - 1)) with lo in Hk;
          change (10 ^ k) with hi in Hk
      end;
      cbn [className bufSize last_printable String.length];
      try change (9999999 / 10) with 999999;
      try change (99999999 / 10) with 9999999;
      try change (99999 / 10) with 9999;
      try change (999999999 / 10) with 99999999;
      try change (999999 / 10) with 99999;
      try change (9999 / 10) with 999;
      lia. }
  split; [apply Hgen |]. split.
  - intros HL i Hi. rewrite Hgen.
    rewrite getIndex_index_of, index_of_elem_addr by assumption.
    destruct (HL c) as (_ & Hc & _).
    destruct c; cbn [last_printable]; Z.div_mod_to_equations; lia.
  - intros address. unfold fits, addressFromInteger.
    rewrite !length_append. cbn [String.length].
    pose proof (fun k => proj2 (format_int_length (byte_of address k) 3
                  ltac:(pose proof (byte_of_range address k); lia)
                  ltac:(lia))) as Hb.
    pose proof (Hb 0 ltac:(pose proof (byte_of_range address 0); lia)).
    pose proof (Hb 1 ltac:(pose proof (byte_of_range address 1); lia)).
    pose proof (Hb 2 ltac:(pose proof (byte_of_range address 2); lia)).
    pose proof (Hb 3 ltac:(pose proof (byte_of_range address 3); lia)).
    lia.
Qed.

Example tostring_samples :
  tostring demo_layout CPlayer (elem_addr demo_layout CPlayer 3)
  = "Player(3)"%string /\
  tostring demo_layout CRigidBody nullptr = "RigidBody(-1431656960)"%string /\
  ~ fits (bufSize CRigidBody) (tostring demo_layout CRigidBody nullptr) /\
  addressFromInteger 3232235777 = "192.168.1.1"%string /\
  addressFromInteger (2 ^ 32 - 1) = "255.255.255.255"%string.
Proof.
  split; [vm_compute; reflexivity |]. split; [vm_compute; reflexivity |].
  split; [vm_compute; discriminate |].
  split; vm_compute; reflexivity.
Qed.

Lemma table_get_set (k k' : string) (v : LuaValue) (t : LuaTable) :
  table_get k (table_set k' v t)
  = if String.eqb k k' then v else table_get k t.
Proof.
  induction t as [| [k0 v0] t IH]; cbn.
  - reflexivity.
  - destruct (String.eqb_spec k' k0) as [-> | Hne]; cbn.
    + destruct (String.eqb_spec k k0); reflexivity.
    + rewrite IH.
      destruct (String.eqb_spec k k0) as [-> | Hne0]; [| reflexivity].
      destruct (String.eqb_spec k0 k'); [congruence | reflexivity].
Qed.

Lemma headers_table_snoc (hs : list (string * string)) (h : string * string) :
  headers_table (hs ++ [h])
  = table_set (fst h) (LString (snd h)) (headers_table hs).
Proof. unfold headers_table. now rewrite fold_left_app. Qed.

Lemma headers_table_absent (hs : list (string * string)) (name : string) :
  (forall h, h ∈ hs -> fst h <> name) ->
  table_get name (headers_table hs) = LNil.
Proof.
  induction hs as [| h hs IH] using rev_ind; intros Hno; [reflexivity |].
  rewrite headers_table_snoc, table_get_set.
  destruct (String.eqb_spec name (fst h)) as [-> | Hne].
  - exfalso. apply (Hno h); [| reflexivity].
    apply elem_of_app. right. now apply list_elem_of_singleton.
  - apply IH. intros h' Hin. apply Hno, elem_of_app. now left.
Qed.

Lemma headers_table_last (pre post : list (string * string))
    (name value : string) :
  (forall h, h ∈ post -> fst h <> name) ->
  table_get name (headers_table (pre ++ (name, value) :: post))
  = LString value.
Proof.
  induction post as [| h post IH] using rev_ind; intros Hno.
  - rewrite headers_table_snoc, table_get_set. cbn.
    now rewrite String.eqb_refl.
  - replace (pre ++ (name, value) :: post ++ [h])
      with ((pre ++ (name, value) :: post) ++ [h])
      by now rewrite <- app_assoc.
    rewrite headers_table_snoc, table_get_set.
    destruct (String.eqb_spec name (fst h)) as [-> | Hne].
    + exfalso. apply (Hno h); [| reflexivity].
      apply elem_of_app. right. now apply list_elem_of_singleton.
    + apply IH. intros h' Hin. apply Hno, elem_of_app. now left.
Qed.

(** X19. In the table [http.getSync] and [http.postSync] return for a
    completed exchange, [headers[name]] is the value of the last response
    header of that name and nil when there is none: of several headers
    with one name only the last is kept. *)
Theorem response_headers_last_wins `{Network} (r : Response) (name : string) :
  exists t hs,
    handleSyncHTTPResponse (Some r) = LTable t /\
    table_get "headers" t = LTable hs /\
    (forall pre value post,
       headers r = pre ++ (name, value) :: post ->
       (forall h, h ∈ post -> fst h <> name) ->
       table_get name hs = LString value) /\
    ((forall h, h ∈ headers r -> fst h <> name) ->
     table_get name hs = LNil) /\
    (forall scheme path rq,
       Client_Get scheme path (close_connection rq) = Some r ->
       http.getSync scheme path rq = LTable t) /\
    (forall scheme path rq body contentType,
       Client_Post scheme path (close_connection rq) body contentType = Some r ->
       http.postSync scheme path rq body contentType = LTable t).
Proof.
  eexists _, (headers_table (headers r)).
  split; [reflexivity |]. split; [reflexivity |].
  split; [| split; [| split]].
  - intros pre value post -> Hno. now apply headers_table_last.
  - apply headers_table_absent.
  - intros scheme path rq Hget. unfold http.getSync. now rewrite Hget.
  - intros scheme path rq body contentType Hpost.
    unfold http.postSync. now rewrite Hpost.
Qed.

Example duplicate_header_collapses :
  table_get "Set-Cookie"
    (headers_table
       [("Set-Cookie", "a=1"); ("Server", "x"); ("Set-Cookie", "b=2")]%string)
  = LString "b=2" /\
  table_get "set-cookie"
    (headers_table
       [("Set-Cookie", "a=1"); ("Server", "x"); ("Set-Cookie", "b=2")]%string)
  = LNil.
Proof. split; reflexivity. Qed.

(** X20. The two queues are only touched under their mutex. Whenever a
    step of the worker or of [l_http_get] and [l_http_post] changes
    [requestQueue], the thread taking the step holds [requestQueueMutex];
    [responseQueue] is changed by the worker alone, holding
    [responseQueueMutex]; the worker tests and pops [requestQueue] holding
    its mutex; and the two threads are never both inside a critical section
    of [requestQueue]. *)
Theorem queues_guarded `{Network} (s s' : HTTPThread.State)
    (c : HTTPThread.Choice) :
  HTTPThread.reachable s ->
  HTTPThread.step c s = Some s' ->
  (HTTPThread.requestQueue s' <> HTTPThread.requestQueue s ->
   HTTPThread.requestQueueMutex s = Some (thread_of c)) /\
  (HTTPThread.responseQueue s' <> HTTPThread.responseQueue s ->
   c = HTTPThread.RunWorker /\
   HTTPThread.responseQueueMutex s = Some HTTPThread.Worker) /\
  (HTTPThread.wpc s = HTTPThread.AtEmptyTest ->
   HTTPThread.requestQueueMutex s = Some HTTPThread.Worker) /\
  WorkerLocks.worker_has_request (HTTPThread.wpc s)
    && WorkerLocks.script_has_request (HTTPThread.spc s) = false.
Proof.
  intros Hreach Hstep.
  destruct (HTTPThreadFacts.reachable_invariant s Hreach)
    as [_ _ Hq Hq1 Hp _ _ _].
  split; [| split; [| split; [| exact Hq1]]].
  - destruct c as [| mv]; cbn [HTTPThread.step thread_of] in *.
    + unfold HTTPThread.worker_step in Hstep.
      destruct (HTTPThread.wpc s) eqn:Hpc; cbn in Hq;
        try (destruct (HTTPThread.free _); [| discriminate]);
        try (injection Hstep as <-; cbn; intros Hne; now contradiction Hne).
      destruct (HTTPThread.requestQueue s) as [| req rest] eqn:Hrq;
        injection Hstep as <-; cbn; intros Hne;
        [now contradiction Hne | exact Hq].
    + unfold HTTPThread.script_step in Hstep.
      destruct mv, (HTTPThread.spc s) eqn:Hpc; try discriminate;
        try (destruct (HTTPThread.free _); [| discriminate]);
        injection Hstep as <-; cbn; intros Hne;
        try (now contradiction Hne).
      cbn in Hq, Hq1. rewrite andb_true_r in Hq1.
      now rewrite Hq, Hq1.
  - destruct c as [| mv]; cbn [HTTPThread.step] in *.
    + unfold HTTPThread.worker_step in Hstep.
      destruct (HTTPThread.wpc s) eqn:Hpc; cbn in Hp;
        try (destruct (HTTPThread.free _); [| discriminate]);
        try (injection Hstep as <-; cbn; intros Hne; now contradiction Hne).
      * destruct (HTTPThread.requestQueue s) as [| req0 rest];
          injection Hstep as <-; cbn; intros Hne; now contradiction Hne.
      * intros _. split; [reflexivity | exact Hp].
    + unfold HTTPThread.script_step in Hstep.
      destruct mv, (HTTPThread.spc s) eqn:Hpc; try discriminate;
        try (destruct (HTTPThread.free _); [| discriminate]);
        injection Hstep as <-; cbn; intros Hne; now contradiction Hne.
  - intros Hpc. rewrite Hpc in Hq. exact Hq.
Qed.

Lemma queues_guarded_witness :
  exists s s',
    HTTPThread.run
      [HTTPThread.RunScript (HTTPThread.BeginRequest demo_request)]
      HTTPThread.initial = Some s /\
    HTTPThread.step (HTTPThread.RunScript HTTPThread.FinishRequest) s
    = Some s' /\
    HTTPThread.requestQueue s' = [demo_request] /\
    HTTPThread.requestQueueMutex s = Some HTTPThread.Script.
Proof.
  evar (s : HTTPThread.State). evar (s' : HTTPThread.State).
  assert (E : HTTPThread.run
                [HTTPThread.RunScript (HTTPThread.BeginRequest demo_request)]
                HTTPThread.initial = Some s).
  { subst s. vm_compute. reflexivity. }
  assert (E' : HTTPThread.step
                 (HTTPThread.RunScript HTTPThread.FinishRequest) s = Some s').
  { subst s s'. vm_compute. reflexivity. }
  destruct (queues_guarded s s' _ (ex_intro _ _ E) E') as (Hrq & _).
  exists s, s'. split; [exact E |]. split; [exact E' |].
  split; [subst s'; vm_compute; reflexivity |].
  apply Hrq. subst s s'. vm_compute. discriminate.
Defined.

(** X21. [vehicles.create] and [vehicles.createVel], written out
    separately in api.cpp, agree: [create] is [createVel] without a
    velocity. Each calls [Engine::createVehicle] once; it returns null
    when the host answers -1, and for a slot it returns that slot's
    proxy with only that slot's data table cleared and every redirect as
    before; an answer outside the table array is undefined behaviour. *)
Theorem vehicles_create_outcome `{Host} (L : Layout) (type : Z) (pos : Vector)
    (vel : option Vector) (rot : RotMatrix) (color : Z) (w : World) :
  let answer := Engine_createVehicle type pos vel rot color (engine w) in
  vehicles.create L type pos rot color w
  = vehicles.createVel L type pos None rot color w /\
  (no_slot_or_in CVehicle w (fst answer) ->
   created L CVehicle (CallCreateVehicle type color)
     (fst answer) (snd answer) w
     (vehicles.createVel L type pos vel rot color w)) /\
  (~ no_slot_or_in CVehicle w (fst answer) ->
   vehicles.createVel L type pos vel rot color w = Crashed).
Proof.
  cbn zeta. split; [reflexivity |].
  unfold vehicles.createVel.
  exact (scoped_create L createVehicleHook CVehicle
           (CallCreateVehicle type color)
           (Engine_createVehicle type pos vel rot color) w).
Qed.

Example vehicles_create_first_slot :
  exists w' tr,
    @vehicles.create demo_host demo_layout 5 tt tt 2 demo_world
    = Done (elem_addr demo_layout CVehicle 0) w' tr /\
    engine_calls tr = [CallCreateVehicle 5 2] /\
    zlookup (vehicleDataTables w') 0 = Some None.
Proof.
  eexists _, _. split; [vm_compute; reflexivity |].
  split; vm_compute; reflexivity.
Qed.

(** ** The headers handed to the client *)

(** The headers reach the client ordered by name without regard to case;
    "Connection: close" goes behind a "connection" header of the script,
    which stays. *)
Example close_connection_order :
  close_connection
    [("User-Agent", "x"); ("accept", "y"); ("connection", "keep-alive")]%string
  = [("accept", "y"); ("connection", "keep-alive"); ("Connection", "close");
     ("User-Agent", "x")]%string.
Proof. vm_compute. reflexivity. Qed.
